(** * Shattershot authoritative game server: a shallow embedding of
    [src/server.js] and the properties of its simulation core.

    Number model.  JavaScript numbers that the server computes itself
    (positions, velocities, angles) are idealised as real numbers: every
    arithmetic operation is exact and [Math.sqrt], [Math.exp], [Math.cos]
    and [Math.sin] are the real functions.  Quantities that only ever hold
    integers (health, ammo, kill counts, [Date.now()] milliseconds) are in
    [Z].  Numbers that come back from the collision library are not under
    the server's control and the code tests them with [Number.isFinite] and
    [typeof]: they are modelled by [jsnum], a real or one of the three
    IEEE specials. *)

From Stdlib Require Import Reals Lra Lia ZArith List String Bool DecimalString DecimalNat.
Import ListNotations.

Set Implicit Arguments.

Local Open Scope R_scope.

(* ================================================================== *)
(** ** Booleans of real comparisons *)

Definition Rltb (a b : R) : bool := if Rlt_dec a b then true else false.
Definition Rleb (a b : R) : bool := if Rle_dec a b then true else false.
Definition Rgtb (a b : R) : bool := Rltb b a.
Definition Reqb (a b : R) : bool := if Req_dec_T a b then true else false.

(* ================================================================== *)
(** ** Numbers returned by the collision library *)

Inductive jsnum : Type :=
| JFin (r : R)
| JNaN
| JPosInf
| JNegInf.

Module JsNum.

(** [Number.isFinite]. *)
Definition isFinite (a : jsnum) : bool :=
  match a with JFin _ => true | _ => false end.

(** [a + c] for a finite constant [c]. *)
Definition addR (a : jsnum) (c : R) : jsnum :=
  match a with JFin r => JFin (r + c) | other => other end.

(** [a - b]. *)
Definition sub (a b : jsnum) : jsnum :=
  match a, b with
  | JNaN, _ | _, JNaN => JNaN
  | JFin r, JFin s => JFin (r - s)
  | JFin _, JPosInf => JNegInf
  | JFin _, JNegInf => JPosInf
  | JPosInf, JPosInf => JNaN
  | JNegInf, JNegInf => JNaN
  | JPosInf, _ => JPosInf
  | JNegInf, _ => JNegInf
  end.

(** [Math.abs]. *)
Definition abs (a : jsnum) : jsnum :=
  match a with
  | JFin r => JFin (Rabs r)
  | JNaN => JNaN
  | JPosInf | JNegInf => JPosInf
  end.

(** [a < c], [a > c] and [a <= c] against a finite [c]; every comparison
    with NaN is false. *)
Definition ltR (a : jsnum) (c : R) : bool :=
  match a with
  | JFin r => Rltb r c
  | JNegInf => true
  | JNaN | JPosInf => false
  end.

Definition gtR (a : jsnum) (c : R) : bool :=
  match a with
  | JFin r => Rgtb r c
  | JPosInf => true
  | JNaN | JNegInf => false
  end.

Definition leR (a : jsnum) (c : R) : bool :=
  match a with
  | JFin r => Rleb r c
  | JNegInf => true
  | JNaN | JPosInf => false
  end.

End JsNum.

(* ================================================================== *)
(** ** The parts of three.js the server calls

    three.js is an external dependency; the definitions below follow its
    [Vector3], [Quaternion], [Euler], [Capsule] and [Sphere] methods. *)

Module Vector3.

Record t : Type := mk { x : R; y : R; z : R }.

Definition zero : t := mk 0 0 0.

Definition add (a b : t) : t := mk (x a + x b) (y a + y b) (z a + z b).
Definition subVectors (a b : t) : t := mk (x a - x b) (y a - y b) (z a - z b).
Definition multiplyScalar (a : t) (s : R) : t := mk (x a * s) (y a * s) (z a * s).
Definition addScaledVector (a v : t) (s : R) : t :=
  mk (x a + x v * s) (y a + y v * s) (z a + z v * s).
Definition dot (a b : t) : R := x a * x b + y a * y b + z a * z b.
Definition lengthSq (a : t) : R := x a * x a + y a * y a + z a * z a.
Definition length (a : t) : R := sqrt (lengthSq a).

(** [divideScalar (length () || 1)]: a zero length divides by 1. *)
Definition normalize (a : t) : t :=
  let l := length a in
  multiplyScalar a (1 / (if Reqb l 0 then 1 else l)).

Definition distanceTo (a b : t) : R := length (subVectors a b).

Definition crossVectors (a b : t) : t :=
  mk (y a * z b - z a * y b) (z a * x b - x a * z b) (x a * y b - y a * x b).

End Vector3.

Definition Vec : Type := Vector3.t.
Definition vec3 : R -> R -> R -> Vec := Vector3.mk.

Module Quaternion.

Record t : Type := mk { x : R; y : R; z : R; w : R }.

End Quaternion.

(** An Euler triple.  Every [THREE.Euler] the server builds or updates
    carries the order ['YXZ'], so the order is not stored. *)
Module Euler.

Record t : Type := mk { x : R; y : R; z : R }.

End Euler.

(** [Quaternion.setFromEuler], case ['YXZ']. *)
Definition setFromEuler (e : Euler.t) : Quaternion.t :=
  let c1 := cos (Euler.x e / 2) in
  let c2 := cos (Euler.y e / 2) in
  let c3 := cos (Euler.z e / 2) in
  let s1 := sin (Euler.x e / 2) in
  let s2 := sin (Euler.y e / 2) in
  let s3 := sin (Euler.z e / 2) in
  Quaternion.mk
    (s1 * c2 * c3 + c1 * s2 * s3)
    (c1 * s2 * c3 - s1 * c2 * s3)
    (c1 * c2 * s3 - s1 * s2 * c3)
    (c1 * c2 * c3 + s1 * s2 * s3).

(** [Vector3.applyQuaternion]. *)
Definition applyQuaternion (v : Vec) (q : Quaternion.t) : Vec :=
  let vx := Vector3.x v in
  let vy := Vector3.y v in
  let vz := Vector3.z v in
  let qx := Quaternion.x q in
  let qy := Quaternion.y q in
  let qz := Quaternion.z q in
  let qw := Quaternion.w q in
  let tx := 2 * (qy * vz - qz * vy) in
  let ty := 2 * (qz * vx - qx * vz) in
  let tz := 2 * (qx * vy - qy * vx) in
  vec3 (vx + qw * tx + qy * tz - qz * ty)
       (vy + qw * ty + qz * tx - qx * tz)
       (vz + qw * tz + qx * ty - qy * tx).

(** [Vector3.applyEuler]. *)
Definition applyEuler (v : Vec) (e : Euler.t) : Vec :=
  applyQuaternion v (setFromEuler e).

Record Capsule : Type := mkCapsule {
  c_start : Vec;
  c_end : Vec;
  c_radius : R
}.

(** [Capsule.translate]. *)
Definition translate (c : Capsule) (v : Vec) : Capsule :=
  mkCapsule (Vector3.add (c_start c) v) (Vector3.add (c_end c) v) (c_radius c).

Record Sphere : Type := mkSphere {
  s_center : Vec;
  s_radius : R
}.

Record Ray : Type := mkRay {
  r_origin : Vec;
  r_direction : Vec
}.

(* ================================================================== *)
(** ** Configuration constants *)

Definition TICK_RATE : R := 60.
Definition TICK_TIME : R := 1000 / TICK_RATE.
Definition PHYSICS_SUBSTEPS : nat := 5.
Definition GRAVITY : R := 30.
Definition PLAYER_SPEED : R := 40.
Definition JUMP_VELOCITY : R := 8.
Definition MAX_SPEED : R := 5.
Definition RESPAWN_TIME : Z := 3000.

Definition MEDKIT_MAX : nat := 10.
Definition MEDKIT_RESPAWN_INTERVAL : Z := 4000.
Definition MEDKIT_HEAL_AMOUNT : Z := 40.
Definition MEDKIT_RADIUS : R := 35 / 100.
Definition MEDKIT_MIN_GROUND_NORMAL : R := 7 / 10.
Definition MEDKIT_MIN_PLAYER_DISTANCE : R := 2.
Definition MEDKIT_SPAWN_BOUNDS : R := 50.
Definition MEDKIT_RAY_HEIGHT : R := 30.
Definition MEDKIT_TRIES : nat := 60.

(* ================================================================== *)
(** ** JavaScript objects used as maps

    [players] and [deadPlayers] are plain objects keyed by player id.  Their
    keys are never integer-like, so [Object.values] and [for ... in] visit
    them in insertion order: an association list with at most one entry per
    key.  Assigning to a present key keeps its place, assigning to a new key
    appends, [delete] removes. *)

Section Obj.

Variable V : Type.

Definition obj : Type := list (string * V).

Fixpoint oget (k : string) (o : obj) : option V :=
  match o with
  | [] => None
  | (k', v) :: rest => if String.eqb k' k then Some v else oget k rest
  end.

Fixpoint oset (k : string) (v : V) (o : obj) : obj :=
  match o with
  | [] => [(k, v)]
  | (k', v') :: rest =>
      if String.eqb k' k then (k', v) :: rest else (k', v') :: oset k v rest
  end.

Definition odel (k : string) (o : obj) : obj :=
  filter (fun kv => negb (String.eqb (fst kv) k)) o.

Definition okeys (o : obj) : list string := map fst o.
Definition ovalues (o : obj) : list V := map snd o.

End Obj.

(* ================================================================== *)
(** ** Entities *)

Module Player.

Record t : Type := mk {
  id : string;
  name : string;
  collider : Capsule;
  velocity : Vec;
  rotation : Euler.t;
  input : string -> bool;      (* truthiness of [input[key]] *)
  onFloor : bool;
  health : Z;
  maxHealth : Z;
  ammo : Z;
  maxAmmo : Z;
  isReloading : bool;
  reloadStartTime : Z;
  reloadTime : Z;
  kills : Z
}.

Definition set_name (p : t) (n : string) : t :=
  mk (id p) n (collider p) (velocity p) (rotation p) (input p) (onFloor p)
     (health p) (maxHealth p) (ammo p) (maxAmmo p) (isReloading p)
     (reloadStartTime p) (reloadTime p) (kills p).

Definition set_rotation (p : t) (e : Euler.t) : t :=
  mk (id p) (name p) (collider p) (velocity p) e (input p) (onFloor p)
     (health p) (maxHealth p) (ammo p) (maxAmmo p) (isReloading p)
     (reloadStartTime p) (reloadTime p) (kills p).

Definition set_input (p : t) (i : string -> bool) : t :=
  mk (id p) (name p) (collider p) (velocity p) (rotation p) i (onFloor p)
     (health p) (maxHealth p) (ammo p) (maxAmmo p) (isReloading p)
     (reloadStartTime p) (reloadTime p) (kills p).

(** The three fields the integrator writes. *)
Definition set_motion (p : t) (c : Capsule) (v : Vec) (f : bool) : t :=
  mk (id p) (name p) c v (rotation p) (input p) f
     (health p) (maxHealth p) (ammo p) (maxAmmo p) (isReloading p)
     (reloadStartTime p) (reloadTime p) (kills p).

Definition set_health (p : t) (h : Z) : t :=
  mk (id p) (name p) (collider p) (velocity p) (rotation p) (input p)
     (onFloor p) h (maxHealth p) (ammo p) (maxAmmo p) (isReloading p)
     (reloadStartTime p) (reloadTime p) (kills p).

Definition set_kills (p : t) (k : Z) : t :=
  mk (id p) (name p) (collider p) (velocity p) (rotation p) (input p)
     (onFloor p) (health p) (maxHealth p) (ammo p) (maxAmmo p)
     (isReloading p) (reloadStartTime p) (reloadTime p) k.

(** The three fields of the ammo and reload lifecycle. *)
Definition set_reload (p : t) (a : Z) (r : bool) (start : Z) : t :=
  mk (id p) (name p) (collider p) (velocity p) (rotation p) (input p)
     (onFloor p) (health p) (maxHealth p) a (maxAmmo p) r start
     (reloadTime p) (kills p).

(** The object literal of the connection handler and of
    [respawnPlayers]: spawn pose, full health and ammo. *)
Definition fresh (playerId : string) (k : Z) : t :=
  mk playerId playerId
     (mkCapsule (vec3 0 (35 / 100) 0) (vec3 0 (8 / 10) 0) (35 / 100))
     Vector3.zero
     (Euler.mk 0 0 0)
     (fun _ => false)
     false
     100%Z 100%Z 30%Z 30%Z
     false 0%Z 1500%Z
     k.

End Player.

Module Bullet.

Record t : Type := mk {
  id : string;
  ownerId : string;
  collider : Sphere;
  velocity : Vec;
  spawnTime : Z
}.

Definition set_center (b : t) (c : Vec) : t :=
  mk (id b) (ownerId b) (mkSphere c (s_radius (collider b))) (velocity b)
     (spawnTime b).

End Bullet.

Module Medkit.

Record t : Type := mk {
  id : string;
  position : Vec;
  pickedUp : bool
}.

Definition claim (m : t) : t := mk (id m) (position m) true.

End Medkit.

Module Dead.

(** A pending-respawn record. *)
Record t : Type := mk {
  respawnTime : Z;
  kills : Z
}.

End Dead.

(* ================================================================== *)
(** ** The collision library as an oracle

    [worldOctree] is built by three.js from a downloaded mesh.  A query may
    throw, return a falsy value, or return an object some of whose fields
    are missing or are not finite numbers. *)

Inductive outcome (A : Type) : Type :=
| Throws
| Returns (a : A).

Arguments Throws {A}.
Arguments Returns {A} a.

Definition bind {A B : Type} (m : outcome A) (k : A -> outcome B) : outcome B :=
  match m with
  | Throws => Throws
  | Returns a => k a
  end.

Notation "x <- m ;; k" := (bind m (fun x => k))
  (at level 61, m at next level, right associativity).

(** A vector whose components the server has not validated. *)
Record JVec : Type := mkJVec { jx : jsnum; jy : jsnum; jz : jsnum }.

(** What [rayIntersect] hands back.  [raw_point] is [None] when [hit.point]
    is falsy; [raw_normal_y] is [Some n] when [hit.normal] is truthy and
    [hit.normal.y] is the number [n]; [raw_distance] is [Some d] when
    [hit.distance] is the number [d]. *)
Record RawHit : Type := mkRawHit {
  raw_point : option JVec;
  raw_normal_y : option jsnum;
  raw_distance : option jsnum
}.

(** A hit that passed [safeRayIntersect]: the point is there. *)
Record Hit : Type := mkHit {
  point : JVec;
  normal_y : option jsnum;
  distance : option jsnum
}.

(** What [capsuleIntersect] hands back when it is not [false];
    [cap_normal] is [None] when the field is missing. *)
Record CapsuleHit : Type := mkCapsuleHit {
  cap_normal : option Vec;
  cap_depth : R
}.

(** The environment of the simulation: the octree and its readiness flag
    (fixed before [startServer] runs), the sequence of values
    [Math.random()] returns, and the rendering
    [r.toString(36).slice(2, 10)] of a random number. *)
Record World : Type := mkWorld {
  octreeReady : bool;
  rayIntersect : Ray -> outcome (option RawHit);
  capsuleIntersect : Capsule -> outcome (option CapsuleHit);
  random : nat -> R;
  base36 : R -> string
}.

(** The module-level mutable state.  [randomCalls] counts the calls of
    [Math.random()] made so far; [clients] lists the player ids of the
    connections that are open. *)
Record State : Type := mkState {
  players : obj Player.t;
  bullets : list Bullet.t;
  medkits : list Medkit.t;
  deadPlayers : obj Dead.t;
  nextBulletId : nat;
  lastMedkitSpawn : Z;
  randomCalls : nat;
  clients : list string
}.

Definition set_players (s : State) (ps : obj Player.t) : State :=
  mkState ps (bullets s) (medkits s) (deadPlayers s) (nextBulletId s)
          (lastMedkitSpawn s) (randomCalls s) (clients s).

Definition set_bullets (s : State) (bs : list Bullet.t) : State :=
  mkState (players s) bs (medkits s) (deadPlayers s) (nextBulletId s)
          (lastMedkitSpawn s) (randomCalls s) (clients s).

Definition set_medkits (s : State) (ms : list Medkit.t) : State :=
  mkState (players s) (bullets s) ms (deadPlayers s) (nextBulletId s)
          (lastMedkitSpawn s) (randomCalls s) (clients s).

(* ================================================================== *)
(** ** Geometry helpers of the server *)

Definition capsuleIntersectsSphere (capsule : Capsule) (sphere : Sphere) : bool :=
  let start := c_start capsule in
  let center := s_center sphere in
  let radius := c_radius capsule + s_radius sphere in
  let segDir := Vector3.subVectors (c_end capsule) start in
  let segLen := Vector3.length segDir in
  if Reqb segLen 0 then Rleb (Vector3.distanceTo start center) radius
  else
    let segDir := Vector3.normalize segDir in
    let toCenter := Vector3.subVectors center start in
    let t := Rmax 0 (Rmin segLen (Vector3.dot segDir toCenter)) in
    let closestPoint := Vector3.add start (Vector3.multiplyScalar segDir t) in
    Rleb (Vector3.distanceTo closestPoint center) radius.

(** The direction a shot leaves in. *)
Definition shotDirection (rotation : Euler.t) : Vec :=
  Vector3.normalize (applyEuler (vec3 0 0 (-1)) rotation).

Definition string_of_nat (n : nat) : string :=
  NilEmpty.string_of_uint (Nat.to_uint n).

(** [createBullet]; [now] is the value of [Date.now()]. *)
Definition createBullet (player : Player.t) (now : Z) (s : State) : State :=
  let bulletId := ("bullet_" ++ string_of_nat (nextBulletId s))%string in
  let direction := shotDirection (Player.rotation player) in
  let headPos := c_end (Player.collider player) in
  let camQuat := setFromEuler (Player.rotation player) in
  let right := Vector3.normalize (applyQuaternion (vec3 1 0 0) camQuat) in
  let up := Vector3.normalize (applyQuaternion (vec3 0 1 0) camQuat) in
  let MUZZLE_FORWARD := 18 / 100 in
  let MUZZLE_UP := 2 / 10 in
  let MUZZLE_RIGHT := 1 / 10 in
  let startPosition :=
    Vector3.add
      (Vector3.add
         (Vector3.add
            (Vector3.add headPos (Vector3.multiplyScalar direction MUZZLE_FORWARD))
            (Vector3.multiplyScalar up MUZZLE_UP))
         (Vector3.multiplyScalar right MUZZLE_RIGHT))
      (Vector3.multiplyScalar direction (4 / 100)) in
  let bullet :=
    Bullet.mk bulletId (Player.id player)
              (mkSphere startPosition (8 / 100))
              (Vector3.multiplyScalar direction 80)
              now in
  mkState (players s) (bullets s ++ [bullet]) (medkits s) (deadPlayers s)
          (S (nextBulletId s)) (lastMedkitSpawn s) (randomCalls s) (clients s).

(** [safeRayIntersect]: the readiness guard, then the query inside
    [try ... catch], then the checks on what came back. *)
Definition safeRayIntersect (w : World) (ray : Ray) : option Hit :=
  if negb (octreeReady w) then None
  else
    match rayIntersect w ray with
    | Throws => None
    | Returns None => None
    | Returns (Some raw) =>
        match raw_point raw with
        | None => None
        | Some p => Some (mkHit p (raw_normal_y raw) (raw_distance raw))
        end
    end.

(* ================================================================== *)
(** ** Pickup placement *)

Record Options : Type := mkOptions {
  maxTries : nat;
  bounds : R;
  minNormalY : R;
  minPlayerDist : R;
  rayHeight : R;
  medkitRadius : R
}.

(** The defaults of the destructuring pattern; [spawnMedkit], the only
    caller, passes no options. *)
Definition defaultOptions : Options :=
  mkOptions MEDKIT_TRIES MEDKIT_SPAWN_BOUNDS MEDKIT_MIN_GROUND_NORMAL
            MEDKIT_MIN_PLAYER_DISTANCE MEDKIT_RAY_HEIGHT MEDKIT_RADIUS.

Definition down : Vec := vec3 0 (-1) 0.

(** [(Math.random() - 0.5) * 2 * bounds]. *)
Definition spread (r b : R) : R := (r - 5 / 10) * 2 * b.

(** [hit.normal && typeof hit.normal.y === 'number' ? hit.normal.y : 0]. *)
Definition normalOrZero (h : Hit) : jsnum :=
  match normal_y h with
  | Some n => n
  | None => JFin 0
  end.

(** The three [Number.isFinite] tests on a position. *)
Definition finitePos (p : JVec) : option Vec :=
  match jx p, jy p, jz p with
  | JFin a, JFin b, JFin c => Some (vec3 a b c)
  | _, _, _ => None
  end.

Definition ofVec (v : Vec) : JVec :=
  mkJVec (JFin (Vector3.x v)) (JFin (Vector3.y v)) (JFin (Vector3.z v)).

(** [pos = hit.point.clone(); pos.y += medkitRadius + 0.02]. *)
Definition liftedPoint (o : Options) (h : Hit) : JVec :=
  mkJVec (jx (point h))
         (JsNum.addR (jy (point h)) (medkitRadius o + 2 / 100))
         (jz (point h)).

Definition SAMPLE_OFFSETS : list Vec :=
  [ vec3 0 0 0;
    vec3 (4 / 10) 0 0;
    vec3 (- (4 / 10)) 0 0;
    vec3 0 0 (4 / 10);
    vec3 0 0 (- (4 / 10)) ].

(** One turn of the corroboration loop: [true] when the offset sample
    leaves [consistent] set. *)
Definition offsetAgrees (w : World) (o : Options) (hit : Hit) (pos off : Vec) : bool :=
  let sx := Vector3.x pos + Vector3.x off in
  let sz := Vector3.z pos + Vector3.z off in
  let sStart := vec3 sx (rayHeight o) sz in
  match safeRayIntersect w (mkRay sStart down) with
  | None => false
  | Some sHit =>
      if JsNum.gtR (JsNum.abs (JsNum.sub (jy (point sHit)) (jy (point hit))))
                   (medkitRadius o + 3 / 10)
      then false
      else if JsNum.ltR (normalOrZero sHit) (minNormalY o) then false
      else true
  end.

(** One turn of the player loop: [true] when it sets [tooClose]. *)
Definition nearPlayer (o : Options) (pos : Vec) (p : Player.t) : bool :=
  let c := Player.collider p in
  let center := Vector3.multiplyScalar (Vector3.add (c_start c) (c_end c)) (5 / 10) in
  let feetY := Vector3.y (c_start c) - c_radius c in
  let dx := Vector3.x center - Vector3.x pos in
  let dz := Vector3.z center - Vector3.z pos in
  let d2 := dx * dx + dz * dz in
  if Rltb d2 (minPlayerDist o * minPlayerDist o) then true
  else
    let dy := feetY - Vector3.y pos in
    Rltb (Rabs dy) (6 / 10)
    && Rltb d2 ((minPlayerDist o * (7 / 10)) * (minPlayerDist o * (7 / 10))).

(** The upward ray of the overhead test. *)
Definition overheadBlocked (w : World) (o : Options) (pos : Vec) : bool :=
  let upStart := Vector3.add pos (vec3 0 (1 / 100) 0) in
  match safeRayIntersect w (mkRay upStart (vec3 0 1 0)) with
  | Some upHit =>
      match distance upHit with
      | Some d => JsNum.ltR d (medkitRadius o * (9 / 10))
      | None => false
      end
  | None => false
  end.

(** The body of the first loop for the sample [(x, z)]: [Some pos] when it
    reaches [return], [None] when it reaches a [continue]. *)
Definition strictCandidate (w : World) (o : Options) (ps : list Player.t)
    (x z : R) : option Vec :=
  match safeRayIntersect w (mkRay (vec3 x (rayHeight o) z) down) with
  | None => None
  | Some hit =>
      if JsNum.ltR (normalOrZero hit) (minNormalY o) then None
      else
        match finitePos (liftedPoint o hit) with
        | None => None
        | Some pos =>
            if Rltb (Vector3.y pos) (-10) || Rgtb (Vector3.y pos) (rayHeight o)
            then None
            else if negb (forallb (offsetAgrees w o hit pos) SAMPLE_OFFSETS)
            then None
            else if existsb (nearPlayer o pos) ps then None
            else if overheadBlocked w o pos then None
            else Some pos
        end
  end.

(** The body shared by the second and third loops: a ground ray from
    height [h] and the finiteness test. *)
Definition groundCandidate (w : World) (o : Options) (h x z : R) : option Vec :=
  match safeRayIntersect w (mkRay (vec3 x h z) down) with
  | None => None
  | Some hit => finitePos (liftedPoint o hit)
  end.

(** [for (let i = 0; i < maxTries; i++)]; [n] is the number of
    [Math.random()] calls made before the turn. *)
Fixpoint strictLoop (w : World) (o : Options) (ps : list Player.t)
    (tries n : nat) : option Vec * nat :=
  match tries with
  | O => (None, n)
  | S tries' =>
      let x := spread (random w n) (bounds o) in
      let z := spread (random w (S n)) (bounds o) in
      match strictCandidate w o ps x z with
      | Some pos => (Some pos, S (S n))
      | None => strictLoop w o ps tries' (S (S n))
      end
  end.

(** [for (let j = 0; j < 20; j++)]. *)
Fixpoint relaxedLoop (w : World) (o : Options) (tries n : nat) : option Vec * nat :=
  match tries with
  | O => (None, n)
  | S tries' =>
      let x := spread (random w n) (bounds o) in
      let z := spread (random w (S n)) (bounds o) in
      match groundCandidate w o (rayHeight o) x z with
      | Some pos => (Some pos, S (S n))
      | None => relaxedLoop w o tries' (S (S n))
      end
  end.

(** [for (let k = 0; k < 12; k++)] around the player [p]. *)
Fixpoint ringLoop (w : World) (o : Options) (p : Player.t)
    (tries n : nat) : option Vec * nat :=
  match tries with
  | O => (None, n)
  | S tries' =>
      let angle := random w n * PI * 2 in
      let r := MEDKIT_MIN_PLAYER_DISTANCE + random w (S n) * 4 in
      let c := Player.collider p in
      let px := (Vector3.x (c_start c) + Vector3.x (c_end c)) / 2 + cos angle * r in
      let pz := (Vector3.z (c_start c) + Vector3.z (c_end c)) / 2 + sin angle * r in
      match groundCandidate w o MEDKIT_RAY_HEIGHT px pz with
      | Some pos => (Some pos, S (S n))
      | None => ringLoop w o p tries' (S (S n))
      end
  end.

(** [playerList[Math.floor(r * playerList.length)]]; [None] stands for
    [undefined]. *)
Definition pick {A : Type} (l : list A) (r : R) : option A :=
  let i := Int_part (r * INR (List.length l)) in
  if (i <? 0)%Z then None else nth_error l (Z.to_nat i).

(** The last resort: an unconditioned sample at the default height. *)
Definition lastResort (w : World) (o : Options) (n : nat) : JVec * nat :=
  let fx := spread (random w n) (bounds o) in
  let fz := spread (random w (S n)) (bounds o) in
  (mkJVec (JFin fx) (JFin (medkitRadius o + 2 / 100)) (JFin fz), S (S n)).

(** [randomGroundPosition]: the position and the number of
    [Math.random()] calls made once it returns.  Reading [p.collider] of an
    [undefined] player throws. *)
Definition randomGroundPosition (w : World) (o : Options) (ps : list Player.t)
    (n : nat) : outcome (JVec * nat) :=
  if negb (octreeReady w) then Returns (lastResort w o n)
  else
    match strictLoop w o ps (maxTries o) n with
    | (Some pos, n1) => Returns (ofVec pos, n1)
    | (None, n1) =>
        match relaxedLoop w o 20 n1 with
        | (Some pos, n2) => Returns (ofVec pos, n2)
        | (None, n2) =>
            match ps with
            | [] => Returns (lastResort w o n2)
            | _ :: _ =>
                match pick ps (random w n2) with
                | None => Throws
                | Some p =>
                    match ringLoop w o p 12 (S n2) with
                    | (Some pos, n3) => Returns (ofVec pos, n3)
                    | (None, n3) => Returns (lastResort w o n3)
                    end
                end
            end
        end
    end.

(** [spawnMedkit]. *)
Definition spawnMedkit (w : World) (s : State) : outcome State :=
  if (MEDKIT_MAX <=? List.length (medkits s))%nat then Returns s
  else
    r <- randomGroundPosition w defaultOptions (ovalues (players s)) (randomCalls s) ;;
    let (pos, n1) := r in
    let id := ("medkit_" ++ base36 w (random w n1))%string in
    let position :=
      match finitePos pos with
      | Some v => v
      | None => vec3 0 (MEDKIT_RADIUS + 2 / 100) 0
      end in
    Returns (mkState (players s) (bullets s)
                     (medkits s ++ [Medkit.mk id position false])
                     (deadPlayers s) (nextBulletId s) (lastMedkitSpawn s)
                     (S n1) (clients s)).

(* ================================================================== *)
(** ** Pickups *)

(** [dist] of [checkMedkitPickups]: from the start point of the collider to
    the medkit. *)
Definition medkitDistance (player : Player.t) (medkit : Medkit.t) : R :=
  let px := Vector3.x (c_start (Player.collider player)) in
  let py := Vector3.y (c_start (Player.collider player)) in
  let pz := Vector3.z (c_start (Player.collider player)) in
  let x := Vector3.x (Medkit.position medkit) in
  let y := Vector3.y (Medkit.position medkit) in
  let z := Vector3.z (Medkit.position medkit) in
  sqrt ((px - x) * (px - x) + (py - y) * (py - y) + (pz - z) * (pz - z)).

(** The body of the inner loop of [checkMedkitPickups]. *)
Definition tryPickup (player : Player.t) (medkit : Medkit.t) : Player.t * Medkit.t :=
  if Medkit.pickedUp medkit then (player, medkit)
  else
    let dist := medkitDistance player medkit in
    if Rltb dist 1 && (Player.health player <? Player.maxHealth player)%Z
    then (Player.set_health player
            (Z.min (Player.maxHealth player) (Player.health player + MEDKIT_HEAL_AMOUNT)),
          Medkit.claim medkit)
    else (player, medkit).

(** [for (const medkit of medkits)] for one player. *)
Fixpoint pickupLoop (player : Player.t) (ms : list Medkit.t) : Player.t * list Medkit.t :=
  match ms with
  | [] => (player, [])
  | m :: rest =>
      let (p1, m1) := tryPickup player m in
      let (p2, rest1) := pickupLoop p1 rest in
      (p2, m1 :: rest1)
  end.

(** [for (const player of Object.values(players))]. *)
Fixpoint pickupSweep (ps : obj Player.t) (ms : list Medkit.t)
    : obj Player.t * list Medkit.t :=
  match ps with
  | [] => ([], ms)
  | (k, p) :: rest =>
      let (p1, ms1) := pickupLoop p ms in
      let (rest1, ms2) := pickupSweep rest ms1 in
      ((k, p1) :: rest1, ms2)
  end.

Definition checkMedkitPickups (s : State) : State :=
  let (ps, ms) := pickupSweep (players s) (medkits s) in
  set_medkits (set_players s ps) ms.

(** The splice loop that follows [checkMedkitPickups] in [tick]. *)
Definition removePickedUp (ms : list Medkit.t) : list Medkit.t :=
  filter (fun m => negb (Medkit.pickedUp m)) ms.

(* ================================================================== *)
(** ** Reload timer and movement *)

(** [updatePlayerState]; [now] is the value of [Date.now()]. *)
Definition updatePlayerState (player : Player.t) (now : Z) : Player.t :=
  if Player.isReloading player
     && (Player.reloadTime player <=? now - Player.reloadStartTime player)%Z
  then Player.set_reload player (Player.maxAmmo player) false
                         (Player.reloadStartTime player)
  else player.

(** [updatePlayer], lines 247 to 254: the acceleration of the movement
    keys along the ground-plane forward and side vectors. *)
Definition steer (player : Player.t) (deltaTime : R) : Vec :=
  let f := applyEuler (vec3 0 0 (-1)) (Player.rotation player) in
  let forward := Vector3.normalize (vec3 (Vector3.x f) 0 (Vector3.z f)) in
  let side := Vector3.crossVectors forward (vec3 0 1 0) in
  let accel := PLAYER_SPEED * deltaTime in
  let v := Player.velocity player in
  let v := if Player.input player "KeyW"%string
           then Vector3.add v (Vector3.multiplyScalar forward accel) else v in
  let v := if Player.input player "KeyS"%string
           then Vector3.add v (Vector3.multiplyScalar forward (- accel)) else v in
  let v := if Player.input player "KeyA"%string
           then Vector3.add v (Vector3.multiplyScalar side (- accel)) else v in
  let v := if Player.input player "KeyD"%string
           then Vector3.add v (Vector3.multiplyScalar side accel) else v in
  v.

(** Lines 255 and 256: the jump impulse and gravity. *)
Definition jumpAndFall (player : Player.t) (deltaTime : R) (v : Vec) : Vec :=
  let v := if Player.onFloor player && Player.input player "Space"%string
           then vec3 (Vector3.x v) JUMP_VELOCITY (Vector3.z v) else v in
  if negb (Player.onFloor player)
  then vec3 (Vector3.x v) (Vector3.y v - GRAVITY * deltaTime) (Vector3.z v)
  else v.

(** Lines 257 to 259: damping of the two horizontal components. *)
Definition damp (deltaTime : R) (v : Vec) : Vec :=
  let damping := exp (- 6 * deltaTime) in
  vec3 (Vector3.x v * damping) (Vector3.y v) (Vector3.z v * damping).

(** Lines 260 to 264: the speed clamp. *)
Definition clampSpeed (v : Vec) : Vec :=
  let horizontal := vec3 (Vector3.x v) 0 (Vector3.z v) in
  if Rgtb (Vector3.lengthSq horizontal) (MAX_SPEED * MAX_SPEED)
  then
    let horizontal :=
      Vector3.multiplyScalar (Vector3.normalize horizontal) MAX_SPEED in
    vec3 (Vector3.x horizontal) (Vector3.y v) (Vector3.z horizontal)
  else v.

(** The first part of [updatePlayer], down to the speed clamp: the
    velocity the capsule is then moved by. *)
Definition integrateVelocity (player : Player.t) (deltaTime : R) : Vec :=
  clampSpeed (damp deltaTime (jumpAndFall player deltaTime (steer player deltaTime))).

(** The collision response of [updatePlayer] to what [capsuleIntersect]
    returned: collider, velocity and grounded flag.  Reading [.y] of a
    missing normal throws. *)
Definition respond (result : option CapsuleHit) (c : Capsule) (v : Vec)
    : outcome (Capsule * Vec * bool) :=
  match result with
  | None => Returns (c, v, false)
  | Some hit =>
      match cap_normal hit with
      | None => Throws
      | Some normal =>
          let onFloor := Rgtb (Vector3.y normal) 0 in
          let v := if negb onFloor
                   then Vector3.addScaledVector v normal (- Vector3.dot normal v)
                   else v in
          Returns (translate c (Vector3.multiplyScalar normal (cap_depth hit)),
                   v, onFloor)
      end
  end.

(** [updatePlayer].  The capsule query is called directly, outside any
    [try]: what it throws leaves the function. *)
Definition updatePlayer (w : World) (player : Player.t) (deltaTime : R)
    : outcome Player.t :=
  let v := integrateVelocity player deltaTime in
  let deltaPos := Vector3.multiplyScalar v deltaTime in
  let c := translate (Player.collider player) deltaPos in
  result <- capsuleIntersect w c ;;
  r <- respond result c v ;;
  let '(c, v, onFloor) := r in
  if Rltb (Vector3.y (c_start c)) (-25)
  then Returns (Player.set_motion player
                  (mkCapsule (vec3 0 (35 / 100) 0) (vec3 0 (8 / 10) 0) (c_radius c))
                  (vec3 0 0 0) onFloor)
  else Returns (Player.set_motion player c v onFloor).

(* ================================================================== *)
(** ** Projectiles *)

(** [bullet.collider.center.addScaledVector(bullet.velocity, deltaTime)]. *)
Definition advance (b : Bullet.t) (deltaTime : R) : Bullet.t :=
  Bullet.set_center b
    (Vector3.addScaledVector (s_center (Bullet.collider b)) (Bullet.velocity b) deltaTime).

(** The ray from [prev] along the displacement to [center]; the direction
    is normalised when the displacement is not zero. *)
Definition segmentRay (prev center : Vec) : Ray :=
  let dir := Vector3.subVectors center prev in
  let segLen := Vector3.length dir in
  mkRay prev (if Rgtb segLen 0 then Vector3.normalize dir else dir).

(** [worldCollision && worldCollision.distance <= segLen]. *)
Definition worldHit (w : World) (prev center : Vec) : bool :=
  let segLen := Vector3.length (Vector3.subVectors center prev) in
  match safeRayIntersect w (segmentRay prev center) with
  | Some worldCollision =>
      match distance worldCollision with
      | Some d => JsNum.leR d segLen
      | None => false
      end
  | None => false
  end.

(** The condition of the [if] in [updateBullets], for the bullet [b]
    already advanced from [prev]. *)
Definition terminates (w : World) (now : Z) (prev : Vec) (b : Bullet.t) : bool :=
  worldHit w prev (s_center (Bullet.collider b))
  || Rgtb (Vector3.length (s_center (Bullet.collider b))) 300
  || (now - Bullet.spawnTime b >? 3000)%Z.

(** [updateBullets]: the loop runs from the last index down and splices,
    which is a right fold that keeps the survivors in order. *)
Definition updateBullets (w : World) (deltaTime : R) (now : Z)
    (bs : list Bullet.t) : list Bullet.t :=
  fold_right
    (fun bullet kept =>
       let moved := advance bullet deltaTime in
       if terminates w now (s_center (Bullet.collider bullet)) moved
       then kept else moved :: kept)
    [] bs.

(** The condition of the [if] in [checkCollisions]: the player is not the
    owner and the bullet touches the capsule. *)
Definition hits (b : Bullet.t) (player : Player.t) : bool :=
  negb (String.eqb (Bullet.ownerId b) (Player.id player))
  && capsuleIntersectsSphere (Player.collider player) (Bullet.collider b).

(** The inner loop of [checkCollisions] up to its [break]: the first entry
    of [players] the bullet hits. *)
Definition hitTarget (b : Bullet.t) (ps : obj Player.t) : option (string * Player.t) :=
  find (fun kv => hits b (snd kv)) ps.

(** The body of the [if] once the bullet is spliced: damage, and on death
    the kill credit, the pending-respawn record and the removal.  [k] is
    the key under which [player] sits in [players]. *)
Definition resolveHit (now : Z) (b : Bullet.t) (k : string) (player : Player.t)
    (ps : obj Player.t) (dead : obj Dead.t) : obj Player.t * obj Dead.t :=
  let hurt := Player.set_health player (Player.health player - 20) in
  let ps1 := oset k hurt ps in
  if (Player.health hurt <=? 0)%Z then
    let ps2 :=
      match oget (Bullet.ownerId b) ps1 with
      | Some owner =>
          oset (Bullet.ownerId b)
               (Player.set_kills owner (Player.kills owner + 1)) ps1
      | None => ps1
      end in
    let victim := match oget k ps2 with Some v => v | None => hurt end in
    let dead1 :=
      oset (Player.id victim)
           (Dead.mk (now + RESPAWN_TIME) (Player.kills victim)) dead in
    (odel (Player.id victim) ps2, dead1)
  else (ps1, dead).

(** One turn of the outer loop of [checkCollisions]. *)
Definition collideBullet (now : Z) (b : Bullet.t)
    (acc : obj Player.t * obj Dead.t * list Bullet.t)
    : obj Player.t * obj Dead.t * list Bullet.t :=
  let '(ps, dead, kept) := acc in
  match hitTarget b ps with
  | None => (ps, dead, b :: kept)
  | Some (k, player) =>
      let (ps1, dead1) := resolveHit now b k player ps dead in
      (ps1, dead1, kept)
  end.

(** [checkCollisions]: last bullet first. *)
Definition checkCollisions (now : Z) (s : State) : State :=
  let '(ps, dead, kept) :=
    fold_right (collideBullet now) (players s, deadPlayers s, []) (bullets s) in
  mkState ps kept (medkits s) dead (nextBulletId s) (lastMedkitSpawn s)
          (randomCalls s) (clients s).

(* ================================================================== *)
(** ** Respawn *)

(** [k || 0]. *)
Definition orZero (k : Z) : Z := if (k =? 0)%Z then 0%Z else k.

(** One turn of [for (const playerId in deadPlayers)]. *)
Definition respawnOne (now : Z) (acc : obj Player.t * obj Dead.t)
    (playerId : string) : obj Player.t * obj Dead.t :=
  let (ps, dead) := acc in
  match oget playerId dead with
  | Some d =>
      if (Dead.respawnTime d <=? now)%Z
      then (oset playerId (Player.fresh playerId (orZero (Dead.kills d))) ps,
            odel playerId dead)
      else acc
  | None => acc
  end.

(** [respawnPlayers]. *)
Definition respawnPlayers (now : Z) (s : State) : State :=
  let (ps, dead) :=
    fold_left (respawnOne now) (okeys (deadPlayers s)) (players s, deadPlayers s) in
  mkState ps (bullets s) (medkits s) dead (nextBulletId s) (lastMedkitSpawn s)
          (randomCalls s) (clients s).

(* ================================================================== *)
(** ** The tick *)

Definition deltaTime : R := TICK_TIME / 1000.
Definition substepDelta : R := deltaTime / INR PHYSICS_SUBSTEPS.

(** [for (const player of Object.values(players)) updatePlayer(...)]; the
    first throw ends the loop and the tick. *)
Fixpoint updatePlayers (w : World) (ps : obj Player.t) : outcome (obj Player.t) :=
  match ps with
  | [] => Returns []
  | (k, p) :: rest =>
      p1 <- updatePlayer w p substepDelta ;;
      rest1 <- updatePlayers w rest ;;
      Returns ((k, p1) :: rest1)
  end.

(** One physics substep: movement, projectile advance, hit test. *)
Definition substep (w : World) (now : Z) (s : State) : outcome State :=
  ps <- updatePlayers w (players s) ;;
  let s1 := set_players s ps in
  let s2 := set_bullets s1 (updateBullets w substepDelta now (bullets s1)) in
  Returns (checkCollisions now s2).

Fixpoint substeps (w : World) (now : Z) (k : nat) (s : State) : outcome State :=
  match k with
  | O => Returns s
  | S k' => s1 <- substep w now s ;; substeps w now k' s1
  end.

Definition reloadSweep (now : Z) (ps : obj Player.t) : obj Player.t :=
  map (fun kv => (fst kv, updatePlayerState (snd kv) now)) ps.

(** The pickup spawn timer of [tick]. *)
Definition medkitTimer (w : World) (now : Z) (s : State) : outcome State :=
  if (now - lastMedkitSpawn s >? MEDKIT_RESPAWN_INTERVAL)%Z then
    s1 <- spawnMedkit w s ;;
    Returns (mkState (players s1) (bullets s1) (medkits s1) (deadPlayers s1)
                     (nextBulletId s1) now (randomCalls s1) (clients s1))
  else Returns s.

(** [tick], up to the snapshot, which only reads the state.  The clock is
    read once: [now] stands for every [Date.now()] of the tick. *)
Definition tick (w : World) (now : Z) (s : State) : outcome State :=
  let s0 := set_players s (reloadSweep now (players s)) in
  s1 <- substeps w now PHYSICS_SUBSTEPS s0 ;;
  let s2 := respawnPlayers now s1 in
  s3 <- medkitTimer w now s2 ;;
  let s4 := checkMedkitPickups s3 in
  Returns (set_medkits s4 (removePickedUp (medkits s4))).

(* ================================================================== *)
(** ** Connections and messages *)

(** A parsed client message.  [Join n]: [n] is [Some] when [data.name] is a
    string.  [Input r k]: [r] is [Some] when [data.rotation] is truthy, a
    component that is not a number counting as NaN; [k] is [Some] when
    [data.keys] is truthy.  [Garbage] makes [JSON.parse] throw. *)
Inductive Message : Type :=
| Join (name : option string)
| Input (rotation : option JVec) (keys : option (string -> bool))
| Shoot
| Reload
| Other
| Garbage.

(** The ['shoot'] branch for the player found under [playerId]. *)
Definition shoot (playerId : string) (player : Player.t) (now : Z) (s : State) : State :=
  if negb (Player.isReloading player) && (0 <? Player.ammo player)%Z then
    let a := (Player.ammo player - 1)%Z in
    let fired :=
      Player.set_reload player a (Player.isReloading player)
                        (Player.reloadStartTime player) in
    let s1 := createBullet fired now (set_players s (oset playerId fired (players s))) in
    if (a <=? 0)%Z
    then set_players s1 (oset playerId (Player.set_reload fired a true now) (players s1))
    else s1
  else s.

(** The ['reload'] branch. *)
Definition reload (playerId : string) (player : Player.t) (now : Z) (s : State) : State :=
  if negb (Player.isReloading player)
     && (Player.ammo player <? Player.maxAmmo player)%Z
  then set_players s
         (oset playerId (Player.set_reload player (Player.ammo player) true now)
               (players s))
  else s.

(** The ['input'] branch. *)
Definition applyInput (player : Player.t) (rotation : option JVec)
    (keys : option (string -> bool)) : Player.t :=
  let turned :=
    match rotation with
    | Some (mkJVec (JFin x) (JFin y) (JFin z)) =>
        let rx := Rmax (- PI / 2) (Rmin (PI / 2) x) in
        Player.set_rotation player (Euler.mk rx y z)
    | _ => player
    end in
  Player.set_input turned
    (match keys with Some k => k | None => fun _ => false end).

(** The ['join'] branch. *)
Definition applyJoin (player : Player.t) (name : option string) : Player.t :=
  match name with
  | Some n =>
      if (0 <? String.length n)%nat
      then Player.set_name player (String.substring 0 16 n)
      else player
  | None => player
  end.

(** The message handler of the connection of [playerId]. *)
Definition onMessage (playerId : string) (msg : Message) (now : Z) (s : State) : State :=
  match msg with
  | Garbage => s
  | _ =>
      match oget playerId (players s) with
      | None => s
      | Some player =>
          match msg with
          | Join name => set_players s (oset playerId (applyJoin player name) (players s))
          | Input rotation keys =>
              set_players s (oset playerId (applyInput player rotation keys) (players s))
          | Shoot => shoot playerId player now s
          | Reload => reload playerId player now s
          | Other | Garbage => s
          end
      end
  end.

(** The connection handler, for the id it drew. *)
Definition onConnect (playerId : string) (s : State) : State :=
  mkState (oset playerId (Player.fresh playerId 0) (players s))
          (bullets s) (medkits s) (deadPlayers s) (nextBulletId s)
          (lastMedkitSpawn s) (randomCalls s) (clients s ++ [playerId]).

(** The close handler. *)
Definition onClose (playerId : string) (s : State) : State :=
  mkState (odel playerId (players s))
          (bullets s) (medkits s) (deadPlayers s) (nextBulletId s)
          (lastMedkitSpawn s) (randomCalls s)
          (filter (fun c => negb (String.eqb c playerId)) (clients s)).

(** What the event loop delivers to the server. *)
Inductive Event : Type :=
| Connect (playerId : string)
| Receive (playerId : string) (msg : Message) (now : Z)
| Close (playerId : string)
| Tick (now : Z).

Definition step (w : World) (e : Event) (s : State) : outcome State :=
  match e with
  | Connect playerId => Returns (onConnect playerId s)
  | Receive playerId msg now => Returns (onMessage playerId msg now s)
  | Close playerId => Returns (onClose playerId s)
  | Tick now => tick w now s
  end.

Fixpoint run (w : World) (es : list Event) (s : State) : outcome State :=
  match es with
  | [] => Returns s
  | e :: rest => s1 <- step w e s ;; run w rest s1
  end.

(** The state when the module has loaded at time [t0]. *)
Definition initial (t0 : Z) : State := mkState [] [] [] [] 0 t0 0 [].

(* ================================================================== *)
(** ** Vocabulary of the properties *)

(** Squared length of the horizontal part of a velocity. *)
Definition horizontalSq (v : Vec) : R :=
  Vector3.x v * Vector3.x v + Vector3.z v * Vector3.z v.

(** An entry of [players] is sound when it sits under its own id and its
    health is positive and at most its maximum. *)
Definition entryOK (kv : string * Player.t) : Prop :=
  Player.id (snd kv) = fst kv
  /\ (0 < Player.health (snd kv) <= Player.maxHealth (snd kv))%Z.

Definition Inv (s : State) : Prop := Forall entryOK (players s).

(** The time of the last tick of a run that starts at [t]. *)
Fixpoint lastTick (t : Z) (es : list Event) : Z :=
  match es with
  | [] => t
  | Tick now :: rest => lastTick now rest
  | _ :: rest => lastTick t rest
  end.

(** The last clock reading of a run that starts at [t]. *)
Fixpoint clock (t : Z) (es : list Event) : Z :=
  match es with
  | [] => t
  | Tick now :: rest => clock now rest
  | Receive _ _ now :: rest => clock now rest
  | _ :: rest => clock t rest
  end.

(** The clock readings of the events never go back. *)
Fixpoint chronological (t : Z) (es : list Event) : Prop :=
  match es with
  | [] => True
  | Tick now :: rest => (t <= now)%Z /\ chronological now rest
  | Receive _ _ now :: rest => (t <= now)%Z /\ chronological now rest
  | _ :: rest => chronological t rest
  end.


(** All three coordinates pass [Number.isFinite]. *)
Definition finite (p : JVec) : Prop :=
  JsNum.isFinite (jx p) = true
  /\ JsNum.isFinite (jy p) = true
  /\ JsNum.isFinite (jz p) = true.

(** [Math.random()] stays in its range. *)
Definition randomInRange (w : World) : Prop := forall i, 0 <= random w i < 1.

(** The capsule query never throws and every contact it reports has a
    normal. *)
Definition capsuleQuerySound (w : World) : Prop :=
  forall c,
    capsuleIntersect w c = Returns None
    \/ exists hit normal,
         capsuleIntersect w c = Returns (Some hit) /\ cap_normal hit = Some normal.

(** The fields [entryOK] reads. *)
Definition sameVitals (p q : Player.t) : Prop :=
  Player.id q = Player.id p
  /\ Player.health q = Player.health p
  /\ Player.maxHealth q = Player.maxHealth p.

(** A loop that gives up has drawn two numbers per try; one that finds a
    position has drawn at least two and no more than that. *)
Definition callsWithin {A : Type} (tries n : nat) (r : option A * nat) : Prop :=
  match fst r with
  | None => snd r = (n + 2 * tries)%nat
  | Some _ => (n + 2 <= snd r <= n + 2 * tries)%nat
  end.

(** The fields of the ammo and reload lifecycle. *)
Definition reloadState (p : Player.t) : Z * Z * bool * Z * Z :=
  (Player.ammo p, Player.maxAmmo p, Player.isReloading p,
   Player.reloadStartTime p, Player.reloadTime p).

(** The ammo fields of a player the server created: a clip of 30, a reload
    of 1500 ms, ammo between 0 and the clip. *)
Definition ammoOK (p : Player.t) : Prop :=
  Player.maxAmmo p = 30%Z
  /\ Player.reloadTime p = 1500%Z
  /\ (0 <= Player.ammo p <= Player.maxAmmo p)%Z.

(** A property of keyed players holds of every entry. *)
Definition allPlayers (Q : string -> Player.t -> Prop) (ps : obj Player.t) : Prop :=
  Forall (fun kv => Q (fst kv) (snd kv)) ps.

(** Every entry of [players] sits under the id of its player. *)
Definition keyed (ps : obj Player.t) : Prop :=
  allPlayers (fun k p => Player.id p = k) ps.

(** The player [k] is not in the live set and waits for a respawn with
    the record [d]. *)
Definition waiting (k : string) (d : Dead.t) (s : State) : Prop :=
  keyed (players s)
  /\ oget k (players s) = None
  /\ oget k (deadPlayers s) = Some d.

(** ** Sample worlds and players *)

(** The octree never got built and every query comes back empty. *)
Definition unbuiltWorld : World :=
  mkWorld false (fun _ => Returns None) (fun _ => Returns None)
          (fun _ => 0) (fun _ => "00000000"%string).

(** An octree whose queries throw. *)
Definition throwingWorld : World :=
  mkWorld true (fun _ => Throws) (fun _ => Throws)
          (fun _ => 0) (fun _ => "00000000"%string).

(** An octree whose capsule query reports a contact without a normal. *)
Definition incompleteWorld : World :=
  mkWorld true (fun _ => Returns None)
          (fun _ => Returns (Some (mkCapsuleHit None 0)))
          (fun _ => 0) (fun _ => "00000000"%string).



(** A player in the spawn pose with the given health. *)
Definition wounded (playerId : string) (h : Z) : Player.t :=
  Player.set_health (Player.fresh playerId 0) h.

(** A projectile of [player_a], fired at time 900, whose centre has reached
    the foot point of a capsule in the spawn pose. *)
Definition strayBullet : Bullet.t :=
  Bullet.mk "bullet_0" "player_a"
            (mkSphere (vec3 0 (35 / 100) 0) (8 / 100))
            (vec3 0 0 (- 80)) 900.

(** [player_a] and [player_b] have fired at each other.  The projectile of
    [player_b] has already killed [player_a], who waits for a respawn at
    time 3500 with no kill; the projectile of [player_a] is about to reach
    [player_b], who has 20 health left. *)
Definition afterDuel : State :=
  mkState [("player_b"%string, wounded "player_b" 20)]
          [strayBullet] []
          [("player_a"%string, Dead.mk 3500 0)]
          1 0 0 ["player_a"%string; "player_b"%string].

(** The same projectile with its owner still alive. *)
Definition duel : State :=
  mkState [("player_a"%string, Player.fresh "player_a" 0);
           ("player_b"%string, wounded "player_b" 20)]
          [strayBullet] [] [] 1 0 0 ["player_a"%string; "player_b"%string].

(** A medkit lying at the foot point of a capsule in the spawn pose. *)
Definition medkitAtSpawn : Medkit.t :=
  Medkit.mk "medkit_00000000" (vec3 0 (35 / 100) 0) false.

(** [player_a] has been killed with 2 kills to his name and is due back at
    time 3500; his connection is still open. *)
Definition mourning : State :=
  mkState [] [] [] [("player_a"%string, Dead.mk 3500 2)] 1 0 0 ["player_a"%string].

(* ================================================================== *)
(** ** The remaining helpers of the server and the snapshot *)



(** An element of [playersState]. *)
Record PlayerState : Type := mkPlayerState {
  ps_id : string;
  ps_name : string;
  ps_position : Vec;
  ps_rotation : Euler.t;
  ps_health : Z;
  ps_maxHealth : Z;
  ps_ammo : Z;
  ps_maxAmmo : Z;
  ps_isReloading : bool;
  ps_kills : Z
}.

(** The callback of [Object.values(players).map] in [tick]. *)
Definition playerState (p : Player.t) : PlayerState :=
  let c := Player.collider p in
  let center := Vector3.multiplyScalar (Vector3.add (c_start c) (c_end c)) (5 / 10) in
  let feetY := Vector3.y (c_start c) - c_radius c in
  mkPlayerState (Player.id p) (Player.name p)
                (vec3 (Vector3.x center) feetY (Vector3.z center))
                (Player.rotation p)
                (Player.health p) (Player.maxHealth p)
                (Player.ammo p) (Player.maxAmmo p)
                (Player.isReloading p) (Player.kills p).

(** The ['update'] message of [tick]: players, bullets (id and centre) and
    medkits (id and position). *)
Record GameState : Type := mkGameState {
  gs_players : list PlayerState;
  gs_bullets : list (string * Vec);
  gs_medkits : list (string * Vec)
}.

Definition snapshot (s : State) : GameState :=
  mkGameState
    (map playerState (ovalues (players s)))
    (map (fun b => (Bullet.id b, s_center (Bullet.collider b))) (bullets s))
    (map (fun m => (Medkit.id m, Medkit.position m)) (medkits s)).

(** ** Vocabulary of the further properties *)

(** The point of the axis of a capsule at the fraction [tau] of the way
    from its start to its end. *)
Definition segmentPoint (c : Capsule) (tau : R) : Vec :=
  Vector3.add (c_start c)
              (Vector3.multiplyScalar (Vector3.subVectors (c_end c) (c_start c)) tau).

(** The capsule is upright with the height and radius of the spawn pose,
    and its foot point is not below the fail-safe altitude. *)
Definition bodyOK (p : Player.t) : Prop :=
  let c := Player.collider p in
  Vector3.x (c_end c) = Vector3.x (c_start c)
  /\ Vector3.y (c_end c) = Vector3.y (c_start c) + 45 / 100
  /\ Vector3.z (c_end c) = Vector3.z (c_start c)
  /\ c_radius c = 35 / 100
  /\ - 25 <= Vector3.y (c_start c).

(** The pitch lies within a quarter turn either way. *)
Definition pitchOK (p : Player.t) : Prop :=
  - PI / 2 <= Euler.x (Player.rotation p) <= PI / 2.



(** No ray query of the world yields a usable hit. *)
Definition noGeometry (w : World) : Prop :=
  forall ray, safeRayIntersect w ray = None.

(** The ids of the bullets are ["bullet_i"] for distinct [i] below the
    counter. *)
Definition bulletIdsOK (s : State) : Prop :=
  exists ns : list nat,
    map Bullet.id (bullets s) = map (fun n => ("bullet_" ++ string_of_nat n)%string) ns
    /\ NoDup ns
    /\ Forall (fun n => (n < nextBulletId s)%nat) ns.

(** The ray query of the world cannot yield a usable hit: the octree is
    not ready, or every query throws, returns a falsy value or returns an
    object without a point. *)
Definition rayQueryUseless (w : World) : Prop :=
  octreeReady w = false
  \/ forall ray,
       rayIntersect w ray = Throws
       \/ rayIntersect w ray = Returns None
       \/ exists raw, rayIntersect w ray = Returns (Some raw) /\ raw_point raw = None.

(** The number of [Math.random()] calls [randomGroundPosition] makes when
    no candidate of any loop succeeds. *)
Definition exhaustedCalls (w : World) (o : Options) (ps : list Player.t) : nat :=
  if octreeReady w
  then 2 * (maxTries o + 20) + (match ps with [] => 0 | _ :: _ => 1 + 2 * 12 end) + 2
  else 2.

(** Squared planar distance from the centre of the body of a player to a
    position. *)
Definition planarSq (p : Player.t) (pos : Vec) : R :=
  let c := Player.collider p in
  let center := Vector3.multiplyScalar (Vector3.add (c_start c) (c_end c)) (5 / 10) in
  let dx := Vector3.x center - Vector3.x pos in
  let dz := Vector3.z center - Vector3.z pos in
  dx * dx + dz * dz.

(** An octree whose every ray reports a hit at the origin, 30 away, on a
    surface that faces up. *)
Definition slabWorld : World :=
  mkWorld true
          (fun _ => Returns (Some (mkRawHit (Some (mkJVec (JFin 0) (JFin 0) (JFin 0)))
                                            (Some (JFin 1)) (Some (JFin 30)))))
          (fun _ => Returns None)
          (fun _ => 0) (fun _ => "00000000"%string).

(** The display name is the id or has at most 16 characters. *)
Definition nameOK (k : string) (p : Player.t) : Prop :=
  Player.name p = k \/ (String.length (Player.name p) <= 16)%nat.

(** What may separate the live set and the pending respawns before a hit
    test from those after it: every player is still alive or awaits
    respawn, pending respawns stay, and whoever is alive was alive before
    with at least that health, at most those kills, and the same id and
    capsule. *)
Definition descends (ps : obj Player.t) (dead : obj Dead.t)
    (ps1 : obj Player.t) (dead1 : obj Dead.t) : Prop :=
  (forall k, oget k ps <> None -> oget k ps1 <> None \/ oget k dead1 <> None)
  /\ (forall k, oget k dead <> None -> oget k dead1 <> None)
  /\ (forall k p1,
        In (k, p1) ps1 ->
        exists p, In (k, p) ps
                  /\ (Player.health p1 <= Player.health p)%Z
                  /\ (Player.kills p <= Player.kills p1)%Z
                  /\ Player.id p1 = Player.id p
                  /\ Player.collider p1 = Player.collider p).

(* ================================================================== *)
(** * Properties *)

Unset Implicit Arguments.

(** ** Comparisons *)

Lemma Rltb_true (a b : R) : Rltb a b = true <-> a < b.
Proof. unfold Rltb; destruct (Rlt_dec a b); split; intros; try lra; discriminate. Qed.

Lemma Rltb_false (a b : R) : Rltb a b = false <-> b <= a.
Proof. unfold Rltb; destruct (Rlt_dec a b); split; intros; try lra; discriminate. Qed.

Lemma Rleb_true (a b : R) : Rleb a b = true <-> a <= b.
Proof. unfold Rleb; destruct (Rle_dec a b); split; intros; try lra; discriminate. Qed.

Lemma Rleb_false (a b : R) : Rleb a b = false <-> b < a.
Proof. unfold Rleb; destruct (Rle_dec a b); split; intros; try lra; discriminate. Qed.

Lemma Rgtb_true (a b : R) : Rgtb a b = true <-> b < a.
Proof. apply Rltb_true. Qed.

Lemma Rgtb_false (a b : R) : Rgtb a b = false <-> a <= b.
Proof. apply Rltb_false. Qed.

Lemma Reqb_true (a b : R) : Reqb a b = true <-> a = b.
Proof. unfold Reqb; destruct (Req_dec_T a b); split; intros; try lra; discriminate. Qed.

Lemma Reqb_false (a b : R) : Reqb a b = false <-> a <> b.
Proof.
  unfold Reqb; destruct (Req_dec_T a b); split; intros; try discriminate; auto.
  contradiction.
Qed.

(** ** Aim direction *)






(** ** The collision facade *)

(** The ray query of the facade answers [None] whenever the octree is not
    ready, the library throws, the library returns a falsy value, or the
    value it returns has no point. *)
Lemma safeRayIntersect_tolerant (w : World) (ray : Ray) :
  (octreeReady w = false -> safeRayIntersect w ray = None)
  /\ (rayIntersect w ray = Throws -> safeRayIntersect w ray = None)
  /\ (rayIntersect w ray = Returns None -> safeRayIntersect w ray = None)
  /\ (forall raw, rayIntersect w ray = Returns (Some raw) ->
                  raw_point raw = None -> safeRayIntersect w ray = None).
Proof.
  unfold safeRayIntersect.
  repeat split; intros.
  - now rewrite H.
  - rewrite H. now destruct (octreeReady w).
  - rewrite H. now destruct (octreeReady w).
  - rewrite H, H0. now destruct (octreeReady w).
Qed.

(** A hit can only come from a ready octree that returned a point. *)
Lemma safeRayIntersect_some (w : World) (ray : Ray) (h : Hit) :
  safeRayIntersect w ray = Some h ->
  octreeReady w = true
  /\ exists raw, rayIntersect w ray = Returns (Some raw)
                 /\ raw_point raw = Some (point h)
                 /\ raw_normal_y raw = normal_y h
                 /\ raw_distance raw = distance h.
Proof.
  unfold safeRayIntersect.
  destruct (octreeReady w); cbn; [| discriminate].
  destruct (rayIntersect w ray) as [| [raw |]]; try discriminate.
  destruct (raw_point raw) eqn:E; [| discriminate].
  intros H; inversion H; subst; cbn.
  split; [reflexivity |]. exists raw. auto.
Qed.

(** The capsule query has no such guard: a throw of the library leaves
    [updatePlayer], whatever the player. *)
Lemma updatePlayer_propagates (w : World) (player : Player.t) (dt : R) :
  (forall c, capsuleIntersect w c = Throws) ->
  updatePlayer w player dt = Throws.
Proof. intros H. unfold updatePlayer. now rewrite H. Qed.

(** C1, at the failing input.  With one connected player and an octree
    whose capsule query throws, the tick does not complete: the fault
    leaves [updatePlayer], the substep and [tick].  The same happens when
    the query returns a contact without a normal.  The ray query of the
    same worlds answers "no hit". *)
Theorem C1_capsule_fault_aborts_tick :
  tick throwingWorld 17 (onConnect "player_a" (initial 0)) = Throws
  /\ tick incompleteWorld 17 (onConnect "player_a" (initial 0)) = Throws
  /\ updatePlayer throwingWorld (Player.fresh "player_a" 0) substepDelta = Throws
  /\ (forall ray, safeRayIntersect throwingWorld ray = None).
Proof.
  repeat split.
Qed.

(** ** Movement *)


Lemma lengthSq_nonneg (v : Vec) : 0 <= Vector3.lengthSq v.
Proof. unfold Vector3.lengthSq. nra. Qed.

(** A vector longer than zero, rescaled to length [m], has squared length
    [m * m]. *)
Lemma rescaled_lengthSq (v : Vec) (m : R) :
  0 < Vector3.lengthSq v ->
  Vector3.lengthSq (Vector3.multiplyScalar (Vector3.normalize v) m) = m * m.
Proof.
  intros Hpos.
  assert (Hl : Vector3.length v * Vector3.length v = Vector3.lengthSq v).
  { unfold Vector3.length. apply sqrt_sqrt. lra. }
  assert (Hne : Vector3.length v <> 0).
  { intros E. rewrite E in Hl. lra. }
  unfold Vector3.normalize.
  destruct (Reqb (Vector3.length v) 0) eqn:E.
  - apply Reqb_true in E. contradiction.
  - set (l := Vector3.length v) in *.
    unfold Vector3.lengthSq in *.
    cbn [Vector3.multiplyScalar Vector3.x Vector3.y Vector3.z].
    replace (Vector3.x v * (1 / l) * m * (Vector3.x v * (1 / l) * m)
             + Vector3.y v * (1 / l) * m * (Vector3.y v * (1 / l) * m)
             + Vector3.z v * (1 / l) * m * (Vector3.z v * (1 / l) * m))
      with (m * m * ((Vector3.x v * Vector3.x v + Vector3.y v * Vector3.y v
                      + Vector3.z v * Vector3.z v) / (l * l)))
      by (field; exact Hne).
    rewrite <- Hl. field. exact Hne.
Qed.

(** The clamp leaves a horizontal speed of at most [MAX_SPEED] and does
    not touch the vertical component. *)
Lemma clampSpeed_spec (v : Vec) :
  horizontalSq (clampSpeed v) <= MAX_SPEED * MAX_SPEED
  /\ Vector3.y (clampSpeed v) = Vector3.y v.
Proof.
  unfold clampSpeed.
  destruct (Rgtb _ _) eqn:E.
  - split; [| reflexivity].
    apply Rgtb_true in E.
    assert (Hpos : 0 < Vector3.lengthSq (vec3 (Vector3.x v) 0 (Vector3.z v))).
    { unfold MAX_SPEED in E. lra. }
    pose proof (rescaled_lengthSq (vec3 (Vector3.x v) 0 (Vector3.z v)) MAX_SPEED Hpos) as H.
    unfold horizontalSq. cbn [Vector3.x Vector3.z vec3].
    unfold Vector3.lengthSq in H at 1.
    set (h := Vector3.multiplyScalar _ _) in *.
    assert (0 <= Vector3.y h * Vector3.y h) by nra.
    lra.
  - split; [| reflexivity].
    apply Rgtb_false in E.
    unfold Vector3.lengthSq in E. cbn [Vector3.x Vector3.y Vector3.z vec3] in E.
    unfold horizontalSq. lra.
Qed.

Lemma steer_vertical (player : Player.t) (dt : R) :
  Vector3.y (steer player dt) = Vector3.y (Player.velocity player).
Proof.
  unfold steer.
  destruct (Player.input player "KeyW"), (Player.input player "KeyS"),
           (Player.input player "KeyA"), (Player.input player "KeyD");
    cbn [Vector3.add Vector3.multiplyScalar Vector3.crossVectors Vector3.normalize
         Vector3.x Vector3.y Vector3.z vec3]; ring.
Qed.

(** The vertical speed after the first part of [updatePlayer]: the jump
    impulse when grounded and jumping, the old speed less gravity when in
    the air, the old speed otherwise. *)
Lemma integrateVelocity_vertical (player : Player.t) (dt : R) :
  Vector3.y (integrateVelocity player dt)
  = if Player.onFloor player
    then (if Player.input player "Space"
          then JUMP_VELOCITY else Vector3.y (Player.velocity player))
    else Vector3.y (Player.velocity player) - GRAVITY * dt.
Proof.
  unfold integrateVelocity.
  rewrite (proj2 (clampSpeed_spec _)).
  unfold damp, jumpAndFall. cbn [Vector3.y vec3].
  destruct (Player.onFloor player), (Player.input player "Space");
    cbn [andb negb Vector3.y vec3]; now rewrite ?steer_vertical.
Qed.








(** ** Objects as maps *)

Section ObjFacts.

Context {V : Type}.
Implicit Types (o : obj V) (k j : string) (v : V).

Lemma oget_oset_eq k v o : oget k (oset k v o) = Some v.
Proof.
  induction o as [| [k' v'] rest IH]; cbn.
  - now rewrite String.eqb_refl.
  - destruct (String.eqb k' k) eqn:E; cbn; rewrite E; auto.
Qed.

Lemma oget_oset_neq k j v o : k <> j -> oget k (oset j v o) = oget k o.
Proof.
  intros Hne.
  induction o as [| [k' v'] rest IH]; cbn.
  - destruct (String.eqb j k) eqn:E; [| reflexivity].
    apply String.eqb_eq in E. congruence.
  - destruct (String.eqb k' j) eqn:E; cbn.
    + apply String.eqb_eq in E. subst k'.
      destruct (String.eqb j k) eqn:E2; [| reflexivity].
      apply String.eqb_eq in E2. congruence.
    + now rewrite IH.
Qed.

Lemma oget_odel_eq k o : oget k (odel k o) = None.
Proof.
  unfold odel.
  induction o as [| [k' v'] rest IH]; cbn; [reflexivity |].
  destruct (String.eqb k' k) eqn:E; cbn; [assumption |].
  now rewrite E.
Qed.

Lemma oget_odel_neq k j o : k <> j -> oget k (odel j o) = oget k o.
Proof.
  intros Hne. unfold odel.
  induction o as [| [k' v'] rest IH]; cbn; [reflexivity |].
  destruct (String.eqb k' j) eqn:E; cbn.
  - apply String.eqb_eq in E. subst k'.
    destruct (String.eqb j k) eqn:E2; [| assumption].
    apply String.eqb_eq in E2. congruence.
  - now rewrite IH.
Qed.

Lemma oget_In k v o : oget k o = Some v -> In (k, v) o.
Proof.
  induction o as [| [k' v'] rest IH]; cbn; [discriminate |].
  destruct (String.eqb k' k) eqn:E.
  - apply String.eqb_eq in E. intros H; inversion H; subst. now left.
  - intros H. right. auto.
Qed.

Lemma oget_okeys k v o : oget k o = Some v -> In k (okeys o).
Proof.
  intros H. apply oget_In in H.
  unfold okeys. now apply (in_map fst) in H.
Qed.

(** Assigning [v] under [k] leaves entries of the old object and the
    entry [(k, v)], nothing else. *)
Lemma Forall_oset (P : string * V -> Prop) k v o :
  P (k, v) -> Forall P o -> Forall P (oset k v o).
Proof.
  intros Hkv.
  induction o as [| [k' v'] rest IH]; cbn; intros H.
  - constructor; [assumption | constructor].
  - inversion H; subst.
    destruct (String.eqb k' k) eqn:E.
    + apply String.eqb_eq in E. subst k'. constructor; assumption.
    + constructor; auto.
Qed.

Lemma Forall_odel (P : string * V -> Prop) k o :
  Forall P o -> Forall P (odel k o).
Proof.
  unfold odel. intros H. rewrite Forall_forall in *.
  intros kv Hin. apply filter_In in Hin. apply H, Hin.
Qed.

(** Deleting [k] discharges whatever was owed by the entries under [k]. *)
Lemma Forall_odel_strong (P : string * V -> Prop) k o :
  Forall (fun kv => fst kv = k \/ P kv) o -> Forall P (odel k o).
Proof.
  unfold odel. intros H. rewrite Forall_forall in *.
  intros kv Hin. apply filter_In in Hin. destruct Hin as [Hin Hk].
  destruct (H kv Hin) as [E | HP]; [| assumption].
  apply Bool.negb_true_iff, String.eqb_neq in Hk. contradiction.
Qed.

End ObjFacts.

(** ** The health invariant *)

Lemma entryOK_vitals (k : string) (p q : Player.t) :
  sameVitals p q -> entryOK (k, p) -> entryOK (k, q).
Proof.
  unfold sameVitals, entryOK; cbn. intros (Hi & Hh & Hm) [Hid Hhp].
  rewrite Hi, Hh, Hm. auto.
Qed.

Lemma entryOK_fresh (k : string) (n : Z) : entryOK (k, Player.fresh k n).
Proof. unfold entryOK; cbn. split; [reflexivity | lia]. Qed.

Lemma Inv_lookup (s : State) (k : string) (p : Player.t) :
  Inv s -> oget k (players s) = Some p -> entryOK (k, p).
Proof.
  unfold Inv. intros H Hg. apply oget_In in Hg.
  rewrite Forall_forall in H. exact (H _ Hg).
Qed.

Lemma players_createBullet (p : Player.t) (now : Z) (s : State) :
  players (createBullet p now s) = players s.
Proof. reflexivity. Qed.

Lemma Inv_onConnect (k : string) (s : State) : Inv s -> Inv (onConnect k s).
Proof.
  unfold Inv, onConnect; cbn. intros H.
  apply Forall_oset; [apply entryOK_fresh | assumption].
Qed.

Lemma Inv_onClose (k : string) (s : State) : Inv s -> Inv (onClose k s).
Proof. unfold Inv, onClose; cbn. apply Forall_odel. Qed.

Lemma Inv_onMessage (k : string) (msg : Message) (now : Z) (s : State) :
  Inv s -> Inv (onMessage k msg now s).
Proof.
  intros H. unfold onMessage.
  destruct (oget k (players s)) as [player |] eqn:Hg;
    [| destruct msg; assumption].
  pose proof (Inv_lookup s k player H Hg) as Hok.
  assert (Hset : forall q, sameVitals player q ->
                           Forall entryOK (oset k q (players s))).
  { intros q Hq. apply Forall_oset; [| exact H].
    now apply (entryOK_vitals k player q). }
  destruct msg; try assumption.
  - (* join *)
    unfold Inv; cbn. apply Hset.
    unfold applyJoin. destruct name as [n |]; [| repeat split].
    destruct (0 <? String.length n)%nat; repeat split.
  - (* input *)
    unfold Inv; cbn. apply Hset.
    unfold applyInput.
    destruct rotation as [[[x | | |] [y | | |] [z | | |]] |]; repeat split.
  - (* shoot *)
    unfold shoot.
    destruct (negb (Player.isReloading player) && (0 <? Player.ammo player)%Z);
      [| assumption].
    assert (H1 : Forall entryOK
                   (oset k (Player.set_reload player (Player.ammo player - 1)
                              (Player.isReloading player)
                              (Player.reloadStartTime player)) (players s))).
    { apply Hset. repeat split. }
    destruct (Player.ammo player - 1 <=? 0)%Z; unfold Inv; cbn; [| exact H1].
    apply Forall_oset; [| exact H1].
    apply (entryOK_vitals k player); [repeat split | assumption].
  - (* reload *)
    unfold reload.
    destruct (negb (Player.isReloading player)
              && (Player.ammo player <? Player.maxAmmo player)%Z);
      [| assumption].
    unfold Inv; cbn. apply Hset. repeat split.
Qed.

Lemma updatePlayerState_vitals (p : Player.t) (now : Z) :
  sameVitals p (updatePlayerState p now).
Proof.
  unfold updatePlayerState.
  destruct (Player.isReloading p && _); repeat split.
Qed.

Lemma Inv_reloadSweep (now : Z) (ps : obj Player.t) :
  Forall entryOK ps -> Forall entryOK (reloadSweep now ps).
Proof.
  unfold reloadSweep. intros H. apply Forall_map.
  eapply Forall_impl; [| exact H].
  intros [k p] Hok; cbn.
  exact (entryOK_vitals k p _ (updatePlayerState_vitals p now) Hok).
Qed.

Lemma updatePlayer_vitals (w : World) (p q : Player.t) (dt : R) :
  updatePlayer w p dt = Returns q -> sameVitals p q.
Proof.
  unfold updatePlayer.
  destruct (capsuleIntersect w _) as [| result]; cbn; [discriminate |].
  destruct (respond result _ _) as [| [[c v] f]]; cbn; [discriminate |].
  destruct (Rltb _ _); intros H; inversion H; repeat split.
Qed.

Lemma Inv_updatePlayers (w : World) (ps qs : obj Player.t) :
  updatePlayers w ps = Returns qs -> Forall entryOK ps -> Forall entryOK qs.
Proof.
  revert qs.
  induction ps as [| [k p] rest IH]; cbn; intros qs H Hok.
  - inversion H. constructor.
  - destruct (updatePlayer w p substepDelta) as [| p1] eqn:E1; cbn in H;
      [discriminate |].
    destruct (updatePlayers w rest) as [| rest1]; cbn in H; [discriminate |].
    inversion H; subst. inversion Hok; subst.
    constructor; [| auto].
    exact (entryOK_vitals k p p1 (updatePlayer_vitals w p p1 _ E1) H2).
Qed.

(** What [hitTarget] finds is an entry of [players] whose player is not
    the owner of the bullet and whose capsule the bullet touches. *)
Lemma hitTarget_some (b : Bullet.t) (ps : obj Player.t) (k : string) (player : Player.t) :
  hitTarget b ps = Some (k, player) ->
  In (k, player) ps
  /\ Bullet.ownerId b <> Player.id player
  /\ capsuleIntersectsSphere (Player.collider player) (Bullet.collider b) = true.
Proof.
  unfold hitTarget. intros H. apply find_some in H. cbn in H.
  destruct H as [Hin Hp]. unfold hits in Hp.
  apply andb_prop in Hp. destruct Hp as [Ho Hc].
  apply Bool.negb_true_iff, String.eqb_neq in Ho. auto.
Qed.

Lemma resolveHit_Inv (now : Z) (b : Bullet.t) (k : string) (player : Player.t)
    (ps : obj Player.t) (dead : obj Dead.t) :
  Forall entryOK ps -> entryOK (k, player) -> Bullet.ownerId b <> k ->
  Forall entryOK (fst (resolveHit now b k player ps dead)).
Proof.
  intros Hps [Hid Hh] Hown. cbn in Hid, Hh.
  unfold resolveHit.
  set (hurt := Player.set_health player (Player.health player - 20)).
  destruct (Player.health hurt <=? 0)%Z eqn:Edead; cbn [fst].
  - (* the hit kills: every entry but those under [k] stays sound *)
    assert (H1 : Forall (fun kv => fst kv = k \/ entryOK kv) (oset k hurt ps)).
    { apply Forall_oset; [now left |].
      eapply Forall_impl; [| exact Hps]. intros kv Hkv. now right. }
    set (ps2 := match oget (Bullet.ownerId b) (oset k hurt ps) with
                | Some owner => _
                | None => _
                end).
    assert (H2 : Forall (fun kv => fst kv = k \/ entryOK kv) ps2).
    { unfold ps2.
      destruct (oget (Bullet.ownerId b) (oset k hurt ps)) as [owner |] eqn:Eo;
        [| exact H1].
      apply Forall_oset; [| exact H1].
      right. apply oget_In in Eo.
      rewrite Forall_forall in H1. destruct (H1 _ Eo) as [E | Hok];
        [cbn in E; congruence |].
      apply (entryOK_vitals _ owner); [repeat split | exact Hok]. }
    assert (Hv : oget k ps2 = Some hurt).
    { unfold ps2.
      destruct (oget (Bullet.ownerId b) (oset k hurt ps)) as [owner |].
      - rewrite oget_oset_neq by congruence. apply oget_oset_eq.
      - apply oget_oset_eq. }
    rewrite Hv. cbn [Player.id hurt Player.set_health]. rewrite Hid.
    now apply Forall_odel_strong.
  - apply Forall_oset; [| exact Hps].
    apply Z.leb_gt in Edead. unfold entryOK, hurt in *; cbn in *.
    split; [assumption | lia].
Qed.

Lemma collideBullet_Inv (now : Z) (b : Bullet.t)
    (acc : obj Player.t * obj Dead.t * list Bullet.t) :
  Forall entryOK (fst (fst acc)) ->
  Forall entryOK (fst (fst (collideBullet now b acc))).
Proof.
  destruct acc as [[ps dead] kept]; cbn [fst]. intros H.
  unfold collideBullet.
  destruct (hitTarget b ps) as [[k player] |] eqn:E; [| exact H].
  apply hitTarget_some in E. destruct E as (Hin & Hown & _).
  rewrite Forall_forall in H. pose proof (H _ Hin) as Hok.
  rewrite <- Forall_forall in H.
  pose proof (resolveHit_Inv now b k player ps dead H Hok) as HR.
  destruct Hok as [Hid _]. cbn in Hid.
  destruct (resolveHit now b k player ps dead) as [ps1 dead1]; cbn in *.
  apply HR. congruence.
Qed.

Lemma Inv_checkCollisions (now : Z) (s : State) : Inv s -> Inv (checkCollisions now s).
Proof.
  unfold Inv, checkCollisions. intros H.
  assert (HF : Forall entryOK
                 (fst (fst (fold_right (collideBullet now)
                                       (players s, deadPlayers s, []) (bullets s))))).
  { induction (bullets s) as [| b rest IH]; cbn [fold_right]; [exact H |].
    apply collideBullet_Inv. exact IH. }
  destruct (fold_right _ _ _) as [[ps dead] kept]. exact HF.
Qed.

Lemma respawnOne_Inv (now : Z) (acc : obj Player.t * obj Dead.t) (k : string) :
  Forall entryOK (fst acc) -> Forall entryOK (fst (respawnOne now acc k)).
Proof.
  destruct acc as [ps dead]; cbn [fst]. intros H. unfold respawnOne.
  destruct (oget k dead) as [d |]; [| exact H].
  destruct (Dead.respawnTime d <=? now)%Z; [| exact H].
  cbn [fst]. apply Forall_oset; [apply entryOK_fresh | exact H].
Qed.

Lemma Inv_respawnPlayers (now : Z) (s : State) : Inv s -> Inv (respawnPlayers now s).
Proof.
  unfold Inv, respawnPlayers. intros H.
  assert (HF : forall ks acc, Forall entryOK (fst acc) ->
                 Forall entryOK (fst (fold_left (respawnOne now) ks acc))).
  { induction ks as [| k ks IH]; intros acc Ha; cbn [fold_left]; [exact Ha |].
    apply IH. now apply respawnOne_Inv. }
  specialize (HF (okeys (deadPlayers s)) (players s, deadPlayers s) H).
  destruct (fold_left _ _ _) as [ps dead]. exact HF.
Qed.

Lemma players_spawnMedkit (w : World) (s s1 : State) :
  spawnMedkit w s = Returns s1 -> players s1 = players s.
Proof.
  unfold spawnMedkit.
  destruct (MEDKIT_MAX <=? _)%nat; [intros H; now inversion H |].
  destruct (randomGroundPosition _ _ _ _) as [| [pos n1]]; cbn; [discriminate |].
  intros H; now inversion H.
Qed.

Lemma players_medkitTimer (w : World) (now : Z) (s s1 : State) :
  medkitTimer w now s = Returns s1 -> players s1 = players s.
Proof.
  unfold medkitTimer.
  destruct (now - lastMedkitSpawn s >? MEDKIT_RESPAWN_INTERVAL)%Z;
    [| intros H; now inversion H].
  destruct (spawnMedkit w s) as [| s2] eqn:E; cbn; [discriminate |].
  intros H; inversion H; cbn. eapply players_spawnMedkit; eassumption.
Qed.

Lemma tryPickup_entryOK (k : string) (p : Player.t) (m : Medkit.t) :
  entryOK (k, p) -> entryOK (k, fst (tryPickup p m)).
Proof.
  unfold tryPickup, entryOK; cbn. intros [Hid Hh].
  destruct (Medkit.pickedUp m); [auto |].
  destruct (Rltb _ 1 && (Player.health p <? Player.maxHealth p)%Z); cbn; [| auto].
  split; [assumption |]. unfold MEDKIT_HEAL_AMOUNT. lia.
Qed.

Lemma pickupLoop_entryOK (k : string) (ms : list Medkit.t) (p : Player.t) :
  entryOK (k, p) -> entryOK (k, fst (pickupLoop p ms)).
Proof.
  revert p. induction ms as [| m rest IH]; intros p H; cbn; [exact H |].
  pose proof (tryPickup_entryOK k p m H) as H1.
  destruct (tryPickup p m) as [p1 m1]; cbn in H1.
  specialize (IH p1 H1).
  destruct (pickupLoop p1 rest) as [p2 rest1]. exact IH.
Qed.

Lemma pickupSweep_Inv (ps : obj Player.t) (ms : list Medkit.t) :
  Forall entryOK ps -> Forall entryOK (fst (pickupSweep ps ms)).
Proof.
  revert ms. induction ps as [| [k p] rest IH]; intros ms H; cbn; [constructor |].
  inversion H; subst.
  pose proof (pickupLoop_entryOK k ms p H2) as H1.
  destruct (pickupLoop p ms) as [p1 ms1]; cbn in H1.
  specialize (IH ms1 H3).
  destruct (pickupSweep rest ms1) as [rest1 ms2]; cbn in *.
  constructor; assumption.
Qed.

Lemma Inv_checkMedkitPickups (s : State) : Inv s -> Inv (checkMedkitPickups s).
Proof.
  unfold Inv, checkMedkitPickups. intros H.
  pose proof (pickupSweep_Inv (players s) (medkits s) H) as H1.
  destruct (pickupSweep _ _) as [ps ms]. exact H1.
Qed.

Lemma Inv_substep (w : World) (now : Z) (s s1 : State) :
  substep w now s = Returns s1 -> Inv s -> Inv s1.
Proof.
  unfold substep. intros H Hi.
  destruct (updatePlayers w (players s)) as [| ps] eqn:E; cbn in H; [discriminate |].
  inversion H; subst. apply Inv_checkCollisions.
  unfold Inv; cbn. exact (Inv_updatePlayers w _ _ E Hi).
Qed.

Lemma Inv_substeps (w : World) (now : Z) (n : nat) (s s1 : State) :
  substeps w now n s = Returns s1 -> Inv s -> Inv s1.
Proof.
  revert s. induction n as [| n IH]; intros s H Hi; cbn in H.
  - inversion H; subst. exact Hi.
  - destruct (substep w now s) as [| s2] eqn:E; cbn in H; [discriminate |].
    eapply IH; [exact H |]. eapply Inv_substep; eassumption.
Qed.

Lemma Inv_tick (w : World) (now : Z) (s s1 : State) :
  tick w now s = Returns s1 -> Inv s -> Inv s1.
Proof.
  unfold tick. intros H Hi.
  destruct (substeps w now PHYSICS_SUBSTEPS _) as [| s2] eqn:E2; cbn in H;
    [discriminate |].
  destruct (medkitTimer w now (respawnPlayers now s2)) as [| s3] eqn:E3; cbn in H;
    [discriminate |].
  inversion H; subst; clear H.
  assert (H2 : Inv s2).
  { eapply Inv_substeps; [exact E2 |]. unfold Inv; cbn.
    apply Inv_reloadSweep. exact Hi. }
  assert (H3 : Inv s3).
  { unfold Inv. rewrite (players_medkitTimer w now _ _ E3).
    apply Inv_respawnPlayers. exact H2. }
  apply Inv_checkMedkitPickups in H3.
  unfold Inv in *. exact H3.
Qed.

Lemma Inv_run (w : World) (es : list Event) (s s1 : State) :
  run w es s = Returns s1 -> Inv s -> Inv s1.
Proof.
  revert s. induction es as [| e rest IH]; intros s H Hi; cbn in H.
  - inversion H; subst. exact Hi.
  - destruct (step w e s) as [| s2] eqn:E; cbn in H; [discriminate |].
    eapply IH; [exact H |].
    destruct e; cbn in E.
    + inversion E; subst. now apply Inv_onConnect.
    + inversion E; subst. now apply Inv_onMessage.
    + inversion E; subst. now apply Inv_onClose.
    + eapply Inv_tick; eassumption.
Qed.

(** ** Pickup placement *)

Lemma finite_ofVec (v : Vec) : finite (ofVec v).
Proof. repeat split. Qed.

Lemma finite_lastResort (w : World) (o : Options) (n : nat) :
  finite (fst (lastResort w o n)) /\ snd (lastResort w o n) = S (S n).
Proof. repeat split. Qed.

Lemma strictLoop_calls (w : World) (o : Options) (ps : list Player.t) (tries n : nat) :
  callsWithin tries n (strictLoop w o ps tries n).
Proof.
  unfold callsWithin.
  revert n. induction tries as [| tries IH]; intros n; cbn [strictLoop].
  - cbn. lia.
  - destruct (strictCandidate _ _ _ _ _); cbn [fst snd]; [lia |].
    specialize (IH (S (S n))).
    destruct (fst (strictLoop w o ps tries (S (S n)))); lia.
Qed.

Lemma relaxedLoop_calls (w : World) (o : Options) (tries n : nat) :
  callsWithin tries n (relaxedLoop w o tries n).
Proof.
  unfold callsWithin.
  revert n. induction tries as [| tries IH]; intros n; cbn [relaxedLoop].
  - cbn. lia.
  - destruct (groundCandidate _ _ _ _ _); cbn [fst snd]; [lia |].
    specialize (IH (S (S n))).
    destruct (fst (relaxedLoop w o tries (S (S n)))); lia.
Qed.

Lemma ringLoop_calls (w : World) (o : Options) (p : Player.t) (tries n : nat) :
  callsWithin tries n (ringLoop w o p tries n).
Proof.
  unfold callsWithin.
  revert n. induction tries as [| tries IH]; intros n; cbn [ringLoop].
  - cbn. lia.
  - destruct (groundCandidate _ _ _ _ _); cbn [fst snd]; [lia |].
    specialize (IH (S (S n))).
    destruct (fst (ringLoop w o p tries (S (S n)))); lia.
Qed.

(** An index drawn with a random number of the range falls inside a list
    that is not empty. *)
Lemma pick_some {A : Type} (l : list A) (r : R) :
  0 <= r < 1 -> l <> [] -> exists a, pick l r = Some a.
Proof.
  intros [Hr0 Hr1] Hne. unfold pick.
  set (len := List.length l).
  assert (Hlen : (0 < len)%nat).
  { unfold len. destruct l; [congruence | cbn; lia]. }
  assert (HlenR : 0 < INR len) by (apply lt_0_INR; exact Hlen).
  destruct (base_Int_part (r * INR len)) as [Hlo Hhi].
  set (i := Int_part (r * INR len)) in *.
  assert (Hi0 : (0 <= i)%Z).
  { assert (IZR (-1) < IZR i) by (assert (0 <= r * INR len) by nra; lra).
    apply lt_IZR in H. lia. }
  assert (Hi1 : (i < Z.of_nat len)%Z).
  { apply lt_IZR. rewrite <- INR_IZR_INZ. nra. }
  destruct (i <? 0)%Z eqn:E; [apply Z.ltb_lt in E; lia |].
  destruct (nth_error l (Z.to_nat i)) as [a |] eqn:En; [eauto |].
  apply nth_error_None in En. fold len in En. lia.
Qed.

(** The placement search returns, with finite coordinates, after a bounded
    number of draws. *)
Lemma randomGroundPosition_total :
  forall (w : World) (o : Options) (ps : list Player.t) (n : nat),
    randomInRange w ->
    exists pos n1,
      randomGroundPosition w o ps n = Returns (pos, n1)
      /\ finite pos
      /\ (n + 2 <= n1 <= n + (2 * (maxTries o + 20 + 12 + 1) + 1))%nat
      /\ (octreeReady w = false -> n1 = (n + 2)%nat).
Proof.
  intros w o ps n Hrnd. unfold randomGroundPosition.
  destruct (octreeReady w) eqn:Eready; cbn [negb].
  2:{ eexists _, _. split; [reflexivity |].
      split; [apply finite_lastResort |]. cbn [lastResort snd]. split; [lia |].
      intros _. lia. }
  pose proof (strictLoop_calls w o ps (maxTries o) n) as H1.
  unfold callsWithin in H1.
  destruct (strictLoop w o ps (maxTries o) n) as [[pos |] n1] eqn:E1;
    cbn [fst snd] in H1.
  { eexists _, _. split; [reflexivity |].
    split; [apply finite_ofVec |]. split; [lia | discriminate]. }
  pose proof (relaxedLoop_calls w o 20 n1) as H2.
  unfold callsWithin in H2.
  destruct (relaxedLoop w o 20 n1) as [[pos |] n2] eqn:E2; cbn [fst snd] in H2.
  { eexists _, _. split; [reflexivity |].
    split; [apply finite_ofVec |]. split; [lia | discriminate]. }
  destruct ps as [| p0 rest].
  { eexists _, _. split; [reflexivity |].
    split; [apply finite_lastResort |]. cbn [lastResort snd].
    split; [lia | discriminate]. }
  destruct (pick_some (p0 :: rest) (random w n2) (Hrnd n2)) as [p Hp];
    [discriminate |].
  rewrite Hp.
  pose proof (ringLoop_calls w o p 12 (S n2)) as H3.
  unfold callsWithin in H3.
  destruct (ringLoop w o p 12 (S n2)) as [[pos |] n3] eqn:E3; cbn [fst snd] in H3.
  - eexists _, _. split; [reflexivity |].
    split; [apply finite_ofVec |]. split; [lia | discriminate].
  - eexists _, _. split; [reflexivity |].
    split; [apply finite_lastResort |]. cbn [lastResort snd].
    split; [lia | discriminate].
Qed.

(** C8.  Whatever the world (octree ready or not, any answers to the ray
    queries, any players) and whatever the options, as long as
    [Math.random()] stays in its range, [randomGroundPosition] returns a
    position whose three coordinates are finite, having drawn at least two
    and at most [2 * (maxTries + 20 + 12 + 1) + 1] random numbers: two per
    candidate of the strict loop, of the 20-try relaxed loop, of the
    12-try ring loop and for the last unconditioned sample, and one to
    choose the player of the ring.  With an octree that is not ready it
    draws exactly the two of the unconditioned sample. *)
Theorem C8_placement_always_returns_finite :
  forall (w : World) (o : Options) (ps : list Player.t) (n : nat),
    randomInRange w ->
    exists pos n1,
      randomGroundPosition w o ps n = Returns (pos, n1)
      /\ finite pos
      /\ (n + 2 <= n1 <= n + (2 * (maxTries o + 20 + 12 + 1) + 1))%nat
      /\ (octreeReady w = false -> n1 = (n + 2)%nat).
Proof. exact randomGroundPosition_total. Qed.

(** With the octree never built, the defaults and no player, the search
    answers after its two draws. *)
Lemma C8_placement_witness :
  exists pos n1,
    randomGroundPosition unbuiltWorld defaultOptions [] 0 = Returns (pos, n1)
    /\ finite pos
    /\ (0 + 2 <= n1 <= 0 + (2 * (maxTries defaultOptions + 20 + 12 + 1) + 1))%nat
    /\ (octreeReady unbuiltWorld = false -> n1 = (0 + 2)%nat).
Proof.
  apply (C8_placement_always_returns_finite unbuiltWorld defaultOptions [] 0).
  intros i. cbn. lra.
Defined.

(** ** Ticks that complete *)

Lemma updatePlayer_returns (w : World) (p : Player.t) (dt : R) :
  capsuleQuerySound w -> exists q, updatePlayer w p dt = Returns q.
Proof.
  intros Hs. unfold updatePlayer.
  destruct (Hs (translate (Player.collider p)
                  (Vector3.multiplyScalar (integrateVelocity p dt) dt)))
    as [E | (hit & normal & E & En)]; rewrite E; cbn [bind respond].
  - cbn. destruct (Rltb _ _); eauto.
  - rewrite En. cbn [bind]. destruct (Rltb _ _); eauto.
Qed.

Lemma updatePlayers_returns (w : World) (ps : obj Player.t) :
  capsuleQuerySound w -> exists qs, updatePlayers w ps = Returns qs.
Proof.
  intros Hs. induction ps as [| [k p] rest [qs IH]]; cbn; [eauto |].
  destruct (updatePlayer_returns w p substepDelta Hs) as [q Hq].
  rewrite Hq, IH. cbn. eauto.
Qed.

Lemma substeps_returns (w : World) (now : Z) (n : nat) (s : State) :
  capsuleQuerySound w -> exists s1, substeps w now n s = Returns s1.
Proof.
  intros Hs. revert s. induction n as [| n IH]; intros s; cbn; [eauto |].
  unfold substep.
  destruct (updatePlayers_returns w (players s) Hs) as [qs Hq].
  rewrite Hq. cbn. apply IH.
Qed.

Lemma spawnMedkit_returns (w : World) (s : State) :
  randomInRange w -> exists s1, spawnMedkit w s = Returns s1.
Proof.
  intros Hr. unfold spawnMedkit.
  destruct (MEDKIT_MAX <=? _)%nat; [eauto |].
  destruct (randomGroundPosition_total w defaultOptions
              (ovalues (players s)) (randomCalls s) Hr) as (pos & n1 & E & _).
  rewrite E. cbn. eauto.
Qed.

(** With a capsule query that does not fault and a sound random source no
    tick aborts. *)
Lemma tick_returns (w : World) (now : Z) (s : State) :
  capsuleQuerySound w -> randomInRange w -> exists s1, tick w now s = Returns s1.
Proof.
  intros Hs Hr. unfold tick.
  destruct (substeps_returns w now PHYSICS_SUBSTEPS
              (set_players s (reloadSweep now (players s))) Hs) as [s1 E1].
  rewrite E1. cbn [bind]. unfold medkitTimer.
  destruct (_ >? _)%Z; cbn [bind]; [| eauto].
  destruct (spawnMedkit_returns w (respawnPlayers now s1) Hr) as [s2 E2].
  rewrite E2. cbn. eauto.
Qed.

Lemma run_returns (w : World) (es : list Event) (s : State) :
  capsuleQuerySound w -> randomInRange w -> exists s1, run w es s = Returns s1.
Proof.
  intros Hs Hr. revert s. induction es as [| e rest IH]; intros s; cbn; [eauto |].
  destruct e; cbn; try apply IH.
  destruct (tick_returns w now s Hs Hr) as [s1 E]. rewrite E. cbn. apply IH.
Qed.

Lemma unbuiltWorld_sound : capsuleQuerySound unbuiltWorld /\ randomInRange unbuiltWorld.
Proof. split; [intros c; now left | intros i; cbn; lra]. Qed.

Lemma Inv_initial (t0 : Z) : Inv (initial t0).
Proof. constructor. Qed.

(** C3.  In every state the server reaches from start-up by connections,
    messages, disconnections and ticks, every player of the live set sits
    under its own id and has health above 0 and at most its maximum: a
    hit that brings health to 0 or below deletes the player in the same
    call of [checkCollisions], and a medkit heals to at most the maximum. *)
Theorem C3_live_players_healthy :
  forall (w : World) (t0 : Z) (es : list Event) (s : State),
    run w es (initial t0) = Returns s ->
    forall (k : string) (p : Player.t),
      In (k, p) (players s) ->
      Player.id p = k /\ (0 < Player.health p <= Player.maxHealth p)%Z.
Proof.
  intros w t0 es s Hrun k p Hin.
  pose proof (Inv_run w es (initial t0) s Hrun (Inv_initial t0)) as Hinv.
  unfold Inv in Hinv. rewrite Forall_forall in Hinv.
  exact (Hinv (k, p) Hin).
Qed.

(** A run with a connection, a shot and a tick in a world without
    geometry completes, and C3 applies to its final state. *)
Lemma C3_live_players_healthy_witness :
  exists s,
    run unbuiltWorld
        [Connect "player_a"; Receive "player_a" Shoot 5; Tick 17] (initial 0)
    = Returns s
    /\ forall (k : string) (p : Player.t),
         In (k, p) (players s) ->
         Player.id p = k /\ (0 < Player.health p <= Player.maxHealth p)%Z.
Proof.
  destruct (run_returns unbuiltWorld
              [Connect "player_a"; Receive "player_a" Shoot 5; Tick 17] (initial 0)
              (proj1 unbuiltWorld_sound) (proj2 unbuiltWorld_sound)) as [s Hs].
  exists s. split; [exact Hs |].
  exact (C3_live_players_healthy unbuiltWorld 0 _ s Hs).
Defined.

(** ** Ammo and reload *)

Lemma shoot_rejected (k : string) (p : Player.t) (now : Z) (s : State) :
  Player.ammo p = 0%Z \/ Player.isReloading p = true -> shoot k p now s = s.
Proof.
  unfold shoot. intros [H | H]; rewrite H; cbn.
  - now rewrite Bool.andb_false_r.
  - reflexivity.
Qed.

Lemma shoot_accepted (k : string) (p : Player.t) (now : Z) (s : State) :
  Player.isReloading p = false -> (0 < Player.ammo p)%Z ->
  exists q b,
    oget k (players (shoot k p now s)) = Some q
    /\ Player.ammo q = (Player.ammo p - 1)%Z
    /\ Player.isReloading q = (Player.ammo q <=? 0)%Z
    /\ (Player.isReloading q = true -> Player.reloadStartTime q = now)
    /\ bullets (shoot k p now s) = bullets s ++ [b]
    /\ Bullet.ownerId b = Player.id p
    /\ Bullet.spawnTime b = now.
Proof.
  intros Hr Ha. unfold shoot. rewrite Hr.
  apply Z.ltb_lt in Ha. rewrite Ha. cbn [negb andb].
  destruct (Player.ammo p - 1 <=? 0)%Z eqn:E.
  - eexists _, _. cbn [players set_players createBullet bullets].
    rewrite oget_oset_eq. split; [reflexivity |].
    cbn [Player.ammo Player.isReloading Player.reloadStartTime Player.set_reload
         Bullet.ownerId Bullet.spawnTime Player.id].
    rewrite E. repeat split.
  - eexists _, _. cbn [players set_players createBullet bullets].
    rewrite oget_oset_eq. split; [reflexivity |].
    cbn [Player.ammo Player.isReloading Player.reloadStartTime Player.set_reload
         Bullet.ownerId Bullet.spawnTime Player.id].
    rewrite E. repeat split. discriminate.
Qed.

(** A message never raises the ammo of any player. *)
Lemma onMessage_ammo (k j : string) (msg : Message) (now : Z) (s : State)
    (p q : Player.t) :
  oget j (players s) = Some p ->
  oget j (players (onMessage k msg now s)) = Some q ->
  (Player.ammo q <= Player.ammo p)%Z.
Proof.
  intros Hp Hq. unfold onMessage in Hq.
  assert (Hsame : oget j (players s) = Some q -> (Player.ammo q <= Player.ammo p)%Z).
  { intros H. rewrite Hp in H. inversion H. lia. }
  destruct (oget k (players s)) as [player |] eqn:Hg;
    [| destruct msg; auto].
  assert (Hset : forall r, (Player.ammo r <= Player.ammo player)%Z ->
                   oget j (oset k r (players s)) = Some q ->
                   (Player.ammo q <= Player.ammo p)%Z).
  { intros r Hr H. destruct (String.eqb k j) eqn:E.
    - apply String.eqb_eq in E. subst j.
      rewrite oget_oset_eq in H. inversion H; subst.
      rewrite Hg in Hp. inversion Hp; subst. exact Hr.
    - apply String.eqb_neq in E.
      rewrite oget_oset_neq in H by congruence. auto. }
  destruct msg; auto.
  - cbn in Hq. apply (Hset (applyJoin player name)); [| exact Hq].
    unfold applyJoin. destruct name as [n |]; [| lia].
    destruct (0 <? String.length n)%nat; cbn; lia.
  - cbn in Hq. apply (Hset (applyInput player rotation keys)); [| exact Hq].
    unfold applyInput.
    destruct rotation as [[[x | | |] [y | | |] [z | | |]] |]; cbn; lia.
  - unfold shoot in Hq.
    destruct (negb (Player.isReloading player) && (0 <? Player.ammo player)%Z);
      [| auto].
    destruct (Player.ammo player - 1 <=? 0)%Z; cbn in Hq.
    + destruct (String.eqb k j) eqn:E.
      * apply String.eqb_eq in E. subst j.
        rewrite oget_oset_eq in Hq. inversion Hq; subst; cbn.
        rewrite Hg in Hp. inversion Hp; subst. lia.
      * apply String.eqb_neq in E.
        rewrite !oget_oset_neq in Hq by congruence. auto.
    + apply (Hset (Player.set_reload player (Player.ammo player - 1)
                       (Player.isReloading player) (Player.reloadStartTime player)));
        [cbn; lia | exact Hq].
  - unfold reload in Hq.
    destruct (negb (Player.isReloading player)
              && (Player.ammo player <? Player.maxAmmo player)%Z); [| auto].
    cbn in Hq. apply (Hset (Player.set_reload player (Player.ammo player) true now));
      [cbn; lia | exact Hq].
Qed.

(** [updatePlayerState] completes a reload exactly when the player is
    reloading and the reload time has elapsed; otherwise it changes
    nothing. *)
Lemma updatePlayerState_spec (p : Player.t) (now : Z) :
  (Player.isReloading p = true
   /\ (Player.reloadTime p <= now - Player.reloadStartTime p)%Z
   /\ Player.ammo (updatePlayerState p now) = Player.maxAmmo p
   /\ Player.isReloading (updatePlayerState p now) = false)
  \/ (~ (Player.isReloading p = true
         /\ (Player.reloadTime p <= now - Player.reloadStartTime p)%Z)
      /\ updatePlayerState p now = p).
Proof.
  unfold updatePlayerState.
  destruct (Player.isReloading p) eqn:Er; cbn [andb].
  - destruct (Player.reloadTime p <=? now - Player.reloadStartTime p)%Z eqn:E.
    + left. apply Z.leb_le in E. repeat split; assumption.
    + right. apply Z.leb_gt in E. split; [| reflexivity]. intros [_ H]. lia.
  - right. split; [| reflexivity]. intros [H _]. discriminate.
Qed.

(** ** What the physics, combat and pickup phases can do to a player

    Between the reload sweep and the end of the tick a player is only
    moved, hurt, healed, credited with a kill, deleted, or created afresh
    by [respawnPlayers].  A property of keyed players that survives the
    three setters and holds of fresh players therefore holds of every
    player after these phases if it held before. *)

Section Frame.

Variable Q : string -> Player.t -> Prop.

Hypothesis Q_motion :
  forall k p c v f, Q k p -> Q k (Player.set_motion p c v f).
Hypothesis Q_health : forall k p h, Q k p -> Q k (Player.set_health p h).
Hypothesis Q_kills : forall k p n, Q k p -> Q k (Player.set_kills p n).
Hypothesis Q_fresh : forall k n, Q k (Player.fresh k n).

Lemma frame_updatePlayers (w : World) (ps qs : obj Player.t) :
  updatePlayers w ps = Returns qs -> allPlayers Q ps -> allPlayers Q qs.
Proof.
  unfold allPlayers. revert qs.
  induction ps as [| [k p] rest IH]; cbn; intros qs H Hok.
  - inversion H. constructor.
  - destruct (updatePlayer w p substepDelta) as [| p1] eqn:E1; cbn in H;
      [discriminate |].
    destruct (updatePlayers w rest) as [| rest1]; cbn in H; [discriminate |].
    inversion H; subst. inversion Hok; subst.
    constructor; [| auto]. cbn in *.
    unfold updatePlayer in E1.
    destruct (capsuleIntersect w _) as [| result]; cbn in E1; [discriminate |].
    destruct (respond result _ _) as [| [[c v] f]]; cbn in E1; [discriminate |].
    destruct (Rltb _ _); inversion E1; subst; now apply Q_motion.
Qed.

Lemma frame_resolveHit (now : Z) (b : Bullet.t) (k : string) (player : Player.t)
    (ps : obj Player.t) (dead : obj Dead.t) :
  allPlayers Q ps -> Q k player -> allPlayers Q (fst (resolveHit now b k player ps dead)).
Proof.
  unfold allPlayers. intros Hps Hk. unfold resolveHit.
  assert (H1 : Forall (fun kv => Q (fst kv) (snd kv))
                 (oset k (Player.set_health player (Player.health player - 20)) ps)).
  { apply Forall_oset; [cbn; now apply Q_health | exact Hps]. }
  destruct (_ <=? 0)%Z; cbn [fst]; [| exact H1].
  apply Forall_odel.
  destruct (oget (Bullet.ownerId b) _) as [owner |] eqn:Eo; [| exact H1].
  apply Forall_oset; [| exact H1]. cbn.
  apply Q_kills. apply oget_In in Eo.
  rewrite Forall_forall in H1. exact (H1 _ Eo).
Qed.

Lemma frame_checkCollisions (now : Z) (s : State) :
  allPlayers Q (players s) -> allPlayers Q (players (checkCollisions now s)).
Proof.
  unfold checkCollisions. intros H.
  assert (HF : allPlayers Q (fst (fst (fold_right (collideBullet now)
                               (players s, deadPlayers s, []) (bullets s))))).
  { induction (bullets s) as [| b rest IH]; cbn [fold_right]; [exact H |].
    destruct (fold_right _ _ rest) as [[ps dead] kept]; cbn [fst] in *.
    unfold collideBullet.
    destruct (hitTarget b ps) as [[k player] |] eqn:E; [| exact IH].
    apply hitTarget_some in E. destruct E as (Hin & _).
    pose proof (frame_resolveHit now b k player ps dead IH) as HR.
    unfold allPlayers in IH. rewrite Forall_forall in IH. specialize (HR (IH _ Hin)).
    destruct (resolveHit now b k player ps dead) as [ps1 dead1]. exact HR. }
  destruct (fold_right _ _ _) as [[ps dead] kept]. exact HF.
Qed.

Lemma frame_substeps (w : World) (now : Z) (n : nat) (s s1 : State) :
  substeps w now n s = Returns s1 -> allPlayers Q (players s) -> allPlayers Q (players s1).
Proof.
  revert s. induction n as [| n IH]; intros s H Hq; cbn in H.
  - inversion H; subst. exact Hq.
  - unfold substep in H.
    destruct (updatePlayers w (players s)) as [| ps] eqn:E; cbn in H;
      [discriminate |].
    eapply IH; [exact H |].
    apply frame_checkCollisions. cbn.
    eapply frame_updatePlayers; eassumption.
Qed.

Lemma frame_respawnPlayers (now : Z) (s : State) :
  allPlayers Q (players s) -> allPlayers Q (players (respawnPlayers now s)).
Proof.
  unfold respawnPlayers. intros H.
  assert (HF : forall ks acc, allPlayers Q (fst acc) ->
                 allPlayers Q (fst (fold_left (respawnOne now) ks acc))).
  { induction ks as [| k ks IH]; intros acc Ha; cbn [fold_left]; [exact Ha |].
    apply IH. destruct acc as [ps dead]; cbn [fst] in *. unfold respawnOne.
    destruct (oget k dead) as [d |]; [| exact Ha].
    destruct (Dead.respawnTime d <=? now)%Z; [| exact Ha].
    cbn [fst]. apply Forall_oset; [apply Q_fresh | exact Ha]. }
  specialize (HF (okeys (deadPlayers s)) (players s, deadPlayers s) H).
  destruct (fold_left _ _ _) as [ps dead]. exact HF.
Qed.

Lemma frame_pickupLoop (k : string) (ms : list Medkit.t) (p : Player.t) :
  Q k p -> Q k (fst (pickupLoop p ms)).
Proof.
  revert p. induction ms as [| m rest IH]; intros p H; cbn; [exact H |].
  assert (H1 : Q k (fst (tryPickup p m))).
  { unfold tryPickup. destruct (Medkit.pickedUp m); [exact H |].
    destruct (_ && _); cbn; [now apply Q_health | exact H]. }
  destruct (tryPickup p m) as [p1 m1]; cbn in H1.
  specialize (IH p1 H1).
  destruct (pickupLoop p1 rest) as [p2 rest1]. exact IH.
Qed.

Lemma frame_checkMedkitPickups (s : State) :
  allPlayers Q (players s) -> allPlayers Q (players (checkMedkitPickups s)).
Proof.
  unfold checkMedkitPickups. intros H.
  assert (HF : forall ps ms, allPlayers Q ps -> allPlayers Q (fst (pickupSweep ps ms))).
  { induction ps as [| [k p] rest IH]; intros ms Hps; cbn; [constructor |].
    inversion Hps; subst.
    pose proof (frame_pickupLoop k ms p H2) as H1.
    destruct (pickupLoop p ms) as [p1 ms1]; cbn in H1.
    specialize (IH ms1 H3).
    destruct (pickupSweep rest ms1) as [rest1 ms2]; cbn in *.
    constructor; assumption. }
  specialize (HF (players s) (medkits s) H).
  destruct (pickupSweep _ _) as [ps ms]. exact HF.
Qed.

(** The tick: what holds of [updatePlayerState p now] for every player
    [p] holds of every player at the end. *)
Lemma frame_tick (w : World) (now : Z) (s s1 : State) :
  tick w now s = Returns s1 ->
  allPlayers Q (reloadSweep now (players s)) -> allPlayers Q (players s1).
Proof.
  unfold tick. intros H Hq.
  destruct (substeps w now PHYSICS_SUBSTEPS _) as [| s2] eqn:E2; cbn in H;
    [discriminate |].
  destruct (medkitTimer w now (respawnPlayers now s2)) as [| s3] eqn:E3; cbn in H;
    [discriminate |].
  inversion H; subst; clear H. cbn [players set_medkits].
  apply frame_checkMedkitPickups.
  rewrite (players_medkitTimer w now _ _ E3).
  apply frame_respawnPlayers.
  eapply frame_substeps; [exact E2 |]. exact Hq.
Qed.

End Frame.

Lemma ammoOK_fresh (k : string) (n : Z) : ammoOK (Player.fresh k n).
Proof. unfold ammoOK; cbn. lia. Qed.

Lemma ammoOK_updatePlayerState (p : Player.t) (now : Z) :
  ammoOK p -> ammoOK (updatePlayerState p now).
Proof.
  unfold updatePlayerState, ammoOK. intros (Hm & Ht & Ha).
  destruct (_ && _); cbn; [| auto]. repeat split; try assumption; lia.
Qed.

Lemma ammoOK_onMessage (k : string) (msg : Message) (now : Z) (s : State) :
  allPlayers (fun _ => ammoOK) (players s) ->
  allPlayers (fun _ => ammoOK) (players (onMessage k msg now s)).
Proof.
  unfold allPlayers. intros H. unfold onMessage.
  destruct (oget k (players s)) as [player |] eqn:Hg;
    [| destruct msg; assumption].
  assert (Hok : ammoOK player).
  { apply oget_In in Hg. rewrite Forall_forall in H. exact (H _ Hg). }
  destruct Hok as (Hm & Ht & Ha).
  destruct msg; try assumption; cbn [players set_players].
  - apply Forall_oset; [| exact H]. cbn.
    unfold applyJoin. destruct name as [n |]; [| now repeat split].
    destruct (0 <? String.length n)%nat; now repeat split.
  - apply Forall_oset; [| exact H]. cbn.
    unfold applyInput.
    destruct rotation as [[[x | | |] [y | | |] [z | | |]] |]; now repeat split.
  - unfold shoot.
    destruct (negb (Player.isReloading player)) eqn:Er; cbn [andb]; [| exact H].
    destruct (0 <? Player.ammo player)%Z eqn:Ea; [| exact H].
    apply Z.ltb_lt in Ea.
    assert (H1 : Forall (fun kv => ammoOK (snd kv))
                   (oset k (Player.set_reload player (Player.ammo player - 1)
                              (Player.isReloading player)
                              (Player.reloadStartTime player)) (players s))).
    { apply Forall_oset; [| exact H]. unfold ammoOK; cbn.
      repeat split; try assumption; lia. }
    destruct (Player.ammo player - 1 <=? 0)%Z; cbn; [| exact H1].
    apply Forall_oset; [| exact H1]. unfold ammoOK; cbn.
    repeat split; try assumption; lia.
  - unfold reload.
    destruct (_ && _); [| exact H]. cbn.
    apply Forall_oset; [| exact H]. unfold ammoOK; cbn.
    repeat split; try assumption; lia.
Qed.

Lemma ammoOK_run (w : World) (es : list Event) (s s1 : State) :
  run w es s = Returns s1 ->
  allPlayers (fun _ => ammoOK) (players s) ->
  allPlayers (fun _ => ammoOK) (players s1).
Proof.
  revert s. induction es as [| e rest IH]; intros s H Hi; cbn in H.
  - inversion H; subst. exact Hi.
  - destruct (step w e s) as [| s2] eqn:E; cbn in H; [discriminate |].
    eapply IH; [exact H |].
    destruct e; cbn in E.
    + inversion E; subst. cbn.
      apply Forall_oset; [apply ammoOK_fresh | exact Hi].
    + inversion E; subst. now apply ammoOK_onMessage.
    + inversion E; subst. cbn. now apply Forall_odel.
    + apply (frame_tick (fun _ => ammoOK)) with (w := w) (now := now) (s := s);
        try assumption.
      * intros; assumption.
      * intros; assumption.
      * intros; assumption.
      * intros; apply ammoOK_fresh.
      * unfold allPlayers, reloadSweep in *. apply Forall_map.
        eapply Forall_impl; [| exact Hi]. intros [k p]; cbn.
        apply ammoOK_updatePlayerState.
Qed.

(** Across a tick the ammo fields of a player are touched once, by the
    reload sweep that opens the tick: a player of the final live set
    either was created by the respawn sweep or carries the ammo fields
    [updatePlayerState] gave a player that was under the same id. *)
Lemma tick_reload_once (w : World) (now : Z) (s s1 : State) :
  tick w now s = Returns s1 ->
  forall k q,
    In (k, q) (players s1) ->
    reloadState q = reloadState (Player.fresh k 0)
    \/ exists p, In (k, p) (players s)
                 /\ reloadState q = reloadState (updatePlayerState p now).
Proof.
  intros H k q Hin.
  pose (Q := fun (k : string) (q : Player.t) =>
               reloadState q = reloadState (Player.fresh k 0)
               \/ exists p, In (k, p) (players s)
                            /\ reloadState q = reloadState (updatePlayerState p now)).
  assert (HQ : allPlayers Q (players s1)).
  { apply (frame_tick Q) with (w := w) (now := now) (s := s); try assumption;
      unfold Q.
    - intros; assumption.
    - intros; assumption.
    - intros; assumption.
    - intros; now left.
    - unfold allPlayers, reloadSweep. apply Forall_map.
      apply Forall_forall. intros [j p] Hj; cbn. right. eauto. }
  unfold allPlayers in HQ. rewrite Forall_forall in HQ.
  exact (HQ (k, q) Hin).
Qed.

(** C4.  A shoot request changes nothing when ammo is 0 or the player is
    reloading; an accepted one lowers ammo by exactly 1, appends one
    projectile, and starts the reload at once iff ammo has reached 0; no
    message raises the ammo of any player; [updatePlayerState] restores
    ammo to its maximum and clears the flag exactly when the player is
    reloading and the time since the start of the reload has reached the
    reload time, and changes nothing otherwise; during a tick the ammo
    fields are only touched by that check, made once before the substeps;
    and on every player of a reachable state the clip is 30, the reload
    time 1500 ms and ammo lies between 0 and the clip. *)
Theorem C4_ammo_reload_lifecycle :
  (forall k p now s,
      Player.ammo p = 0%Z \/ Player.isReloading p = true -> shoot k p now s = s)
  /\ (forall k p now s,
        Player.isReloading p = false -> (0 < Player.ammo p)%Z ->
        exists q b,
          oget k (players (shoot k p now s)) = Some q
          /\ Player.ammo q = (Player.ammo p - 1)%Z
          /\ Player.isReloading q = (Player.ammo q <=? 0)%Z
          /\ (Player.isReloading q = true -> Player.reloadStartTime q = now)
          /\ bullets (shoot k p now s) = bullets s ++ [b]
          /\ Bullet.ownerId b = Player.id p
          /\ Bullet.spawnTime b = now)
  /\ (forall k j msg now s p q,
        oget j (players s) = Some p ->
        oget j (players (onMessage k msg now s)) = Some q ->
        (Player.ammo q <= Player.ammo p)%Z)
  /\ (forall p now,
        (Player.isReloading p = true
         /\ (Player.reloadTime p <= now - Player.reloadStartTime p)%Z
         /\ Player.ammo (updatePlayerState p now) = Player.maxAmmo p
         /\ Player.isReloading (updatePlayerState p now) = false)
        \/ (~ (Player.isReloading p = true
               /\ (Player.reloadTime p <= now - Player.reloadStartTime p)%Z)
            /\ updatePlayerState p now = p))
  /\ (forall w now s s1,
        tick w now s = Returns s1 ->
        forall k q,
          In (k, q) (players s1) ->
          reloadState q = reloadState (Player.fresh k 0)
          \/ exists p, In (k, p) (players s)
                       /\ reloadState q = reloadState (updatePlayerState p now))
  /\ (forall w t0 es s,
        run w es (initial t0) = Returns s ->
        forall k p, In (k, p) (players s) -> ammoOK p).
Proof.
  split; [exact shoot_rejected |].
  split; [exact shoot_accepted |].
  split; [exact onMessage_ammo |].
  split; [exact updatePlayerState_spec |].
  split; [exact tick_reload_once |].
  intros w t0 es s Hrun k p Hin.
  assert (H0 : allPlayers (fun _ => ammoOK) (players (initial t0))) by constructor.
  pose proof (ammoOK_run w es (initial t0) s Hrun H0) as H.
  unfold allPlayers in H. rewrite Forall_forall in H. exact (H (k, p) Hin).
Qed.

(** The first shot of a player who has just connected is accepted: the
    clip goes from 30 to 29 and one projectile is appended. *)
Lemma C4_ammo_reload_witness :
  exists q b,
    oget "player_a"
         (players (shoot "player_a" (Player.fresh "player_a" 0) 5
                         (onConnect "player_a" (initial 0)))) = Some q
    /\ Player.ammo q = (Player.ammo (Player.fresh "player_a" 0) - 1)%Z
    /\ Player.isReloading q = (Player.ammo q <=? 0)%Z
    /\ (Player.isReloading q = true -> Player.reloadStartTime q = 5%Z)
    /\ bullets (shoot "player_a" (Player.fresh "player_a" 0) 5
                      (onConnect "player_a" (initial 0)))
       = bullets (onConnect "player_a" (initial 0)) ++ [b]
    /\ Bullet.ownerId b = Player.id (Player.fresh "player_a" 0)
    /\ Bullet.spawnTime b = 5%Z.
Proof.
  apply (proj1 (proj2 C4_ammo_reload_lifecycle)).
  - reflexivity.
  - cbn. lia.
Defined.

(** ** Hit resolution *)

(** [hitTarget] returns the first entry in iteration order that the bullet
    hits. *)
Lemma hitTarget_first (b : Bullet.t) (ps : obj Player.t) (k : string) (player : Player.t) :
  hitTarget b ps = Some (k, player) ->
  hits b player = true
  /\ exists before after,
       ps = before ++ (k, player) :: after
       /\ Forall (fun kv => hits b (snd kv) = false) before.
Proof.
  unfold hitTarget.
  induction ps as [| [k0 p0] rest IH]; cbn; [discriminate |].
  destruct (hits b p0) eqn:E.
  - intros H; inversion H; subst. split; [exact E |].
    exists [], rest. split; [reflexivity | constructor].
  - intros H. destruct (IH H) as (Hh & before & after & Hps & Hb).
    split; [exact Hh |].
    exists ((k0, p0) :: before), after. split; [now rewrite Hps |].
    constructor; assumption.
Qed.

Lemma hitTarget_none (b : Bullet.t) (ps : obj Player.t) :
  hitTarget b ps = None <-> Forall (fun kv => hits b (snd kv) = false) ps.
Proof.
  unfold hitTarget. split.
  - intros H. apply Forall_forall. intros kv Hin.
    exact (find_none _ _ H kv Hin).
  - intros H. induction ps as [| kv rest IH]; cbn; [reflexivity |].
    inversion H; subst. rewrite H2. auto.
Qed.

(** What one turn of the outer loop of [checkCollisions] does with a
    bullet that has a target. *)
Lemma collideBullet_hit (now : Z) (b : Bullet.t) (ps : obj Player.t)
    (dead : obj Dead.t) (kept : list Bullet.t) (k : string) (player : Player.t) :
  keyed ps ->
  hitTarget b ps = Some (k, player) ->
  exists ps1 dead1,
    collideBullet now b (ps, dead, kept) = (ps1, dead1, kept)
    /\ ((0 < Player.health player - 20)%Z ->
        ps1 = oset k (Player.set_health player (Player.health player - 20)) ps
        /\ dead1 = dead)
    /\ ((Player.health player - 20 <= 0)%Z ->
        oget k ps1 = None
        /\ dead1 = oset k (Dead.mk (now + RESPAWN_TIME) (Player.kills player)) dead
        /\ (forall owner,
              oget (Bullet.ownerId b) ps = Some owner ->
              oget (Bullet.ownerId b) ps1
              = Some (Player.set_kills owner (Player.kills owner + 1)))
        /\ (oget (Bullet.ownerId b) ps = None -> oget (Bullet.ownerId b) ps1 = None)
        /\ (forall j, j <> k -> j <> Bullet.ownerId b -> oget j ps1 = oget j ps)).
Proof.
  intros Hkey Hhit.
  pose proof (hitTarget_some b ps k player Hhit) as (Hin & Hown & _).
  assert (Hid : Player.id player = k).
  { unfold keyed, allPlayers in Hkey. rewrite Forall_forall in Hkey.
    exact (Hkey _ Hin). }
  assert (Hok : Bullet.ownerId b <> k) by congruence.
  unfold collideBullet. rewrite Hhit. unfold resolveHit.
  set (hurt := Player.set_health player (Player.health player - 20)).
  cbn [Player.health hurt Player.set_health].
  destruct (Player.health player - 20 <=? 0)%Z eqn:E.
  - apply Z.leb_le in E.
    set (ps2 := match oget (Bullet.ownerId b) (oset k hurt ps) with
                | Some owner => _
                | None => _
                end).
    assert (Hv : oget k ps2 = Some hurt).
    { unfold ps2.
      destruct (oget (Bullet.ownerId b) (oset k hurt ps)) as [owner |].
      - rewrite oget_oset_neq by congruence. apply oget_oset_eq.
      - apply oget_oset_eq. }
    rewrite Hv. cbn [Player.id Player.kills hurt Player.set_health]. rewrite Hid.
    eexists _, _. split; [reflexivity |].
    split; [intros; lia |]. intros _.
    split; [apply oget_odel_eq |].
    split; [reflexivity |].
    assert (Ho1 : oget (Bullet.ownerId b) (oset k hurt ps) = oget (Bullet.ownerId b) ps)
      by (apply oget_oset_neq; exact Hok).
    split; [| split].
    + intros owner Ho. rewrite oget_odel_neq by exact Hok.
      unfold ps2. rewrite Ho1, Ho. apply oget_oset_eq.
    + intros Ho. rewrite oget_odel_neq by exact Hok.
      unfold ps2. rewrite Ho1, Ho. rewrite Ho1. exact Ho.
    + intros j Hjk Hjo. rewrite oget_odel_neq by exact Hjk.
      unfold ps2. destruct (oget (Bullet.ownerId b) (oset k hurt ps)).
      * rewrite oget_oset_neq by exact Hjo. now apply oget_oset_neq.
      * now apply oget_oset_neq.
  - apply Z.leb_gt in E.
    eexists _, _. split; [reflexivity |].
    split; [intros _; split; reflexivity | intros; lia].
Qed.

(** The hit test does not depend on health or kills. *)
Lemma checkCollisions_no_target_left (now : Z) (s : State) (b : Bullet.t) :
  hitTarget b (players s) = None ->
  hitTarget b (players (checkCollisions now s)) = None.
Proof.
  rewrite !hitTarget_none. intros H.
  apply (frame_checkCollisions (fun _ p => hits b p = false)); try assumption;
    intros; assumption.
Qed.

(** After [checkCollisions] the projectiles left are projectiles that were
    there, and none of them touches a live player other than its owner. *)
Lemma checkCollisions_survivors (now : Z) (s : State) (b : Bullet.t) :
  In b (bullets (checkCollisions now s)) ->
  In b (bullets s) /\ hitTarget b (players (checkCollisions now s)) = None.
Proof.
  unfold checkCollisions.
  assert (HF : forall bs c,
             In c (snd (fold_right (collideBullet now)
                                   (players s, deadPlayers s, []) bs)) ->
             In c bs
             /\ hitTarget c (fst (fst (fold_right (collideBullet now)
                                          (players s, deadPlayers s, []) bs)))
                = None).
  { induction bs as [| b0 rest IH]; cbn [fold_right]; intros c Hc.
    - destruct Hc.
    - destruct (fold_right (collideBullet now) _ rest) as [[ps dead] kept] eqn:Ef.
      cbn [fst snd] in IH. unfold collideBullet in *.
      destruct (hitTarget b0 ps) as [[k player] |] eqn:Eh.
      + pose proof (frame_resolveHit (fun _ p => hits c p = false)) as HR.
        specialize (HR (fun _ _ _ h => h) (fun _ _ _ h => h) now b0 k player ps dead).
        destruct (resolveHit now b0 k player ps dead) as [ps1 dead1] eqn:Er.
        cbn [fst snd] in *.
        destruct (IH c Hc) as [Hin Hnone].
        split; [now right |].
        rewrite hitTarget_none in *.
        apply HR; [exact Hnone |].
        apply hitTarget_some in Eh. destruct Eh as (Hink & _).
        rewrite Forall_forall in Hnone. exact (Hnone _ Hink).
      + cbn [fst snd] in *. destruct Hc as [E | Hc].
        * subst c. split; [now left | exact Eh].
        * destruct (IH c Hc). split; [now right | assumption]. }
  specialize (HF (bullets s)).
  destruct (fold_right _ _ _) as [[ps dead] kept]. cbn [fst snd] in *.
  cbn [bullets players]. exact (HF b).
Qed.

Lemma length_zero_vector (a : Vec) :
  Vector3.lengthSq a = 0 -> Vector3.length a = 0.
Proof. unfold Vector3.length. intros H. rewrite H. apply sqrt_0. Qed.

(** A sphere centred on the foot point of a capsule touches it. *)
Lemma touches_at_foot (capsule : Capsule) (sphere : Sphere) :
  s_center sphere = c_start capsule ->
  0 <= c_radius capsule + s_radius sphere ->
  capsuleIntersectsSphere capsule sphere = true.
Proof.
  intros Hc Hr. unfold capsuleIntersectsSphere. rewrite Hc.
  set (start := c_start capsule).
  set (segDir := Vector3.subVectors (c_end capsule) start).
  assert (Hself : Vector3.distanceTo start start = 0).
  { unfold Vector3.distanceTo. apply length_zero_vector.
    unfold Vector3.lengthSq, Vector3.subVectors; cbn. ring. }
  destruct (Reqb (Vector3.length segDir) 0).
  - apply Rleb_true. rewrite Hself. exact Hr.
  - apply Rleb_true.
    assert (Hdot : Vector3.dot (Vector3.normalize segDir)
                               (Vector3.subVectors start start) = 0).
    { unfold Vector3.dot, Vector3.subVectors; cbn. ring. }
    rewrite Hdot.
    assert (Hlen : 0 <= Vector3.length segDir) by apply sqrt_pos.
    rewrite (Rmin_right _ _ Hlen). rewrite (Rmax_left 0 0) by lra.
    replace (Vector3.distanceTo _ start) with 0; [exact Hr |].
    symmetry. unfold Vector3.distanceTo. apply length_zero_vector.
    unfold Vector3.lengthSq, Vector3.subVectors, Vector3.add, Vector3.multiplyScalar;
      cbn. ring.
Qed.

Lemma strayBullet_hits_b : hits strayBullet (wounded "player_b" 20) = true.
Proof.
  unfold hits. cbn [negb andb String.eqb Ascii.eqb Bool.eqb strayBullet Bullet.ownerId
                    wounded Player.id Player.set_health Player.fresh].
  apply touches_at_foot; [reflexivity | cbn; lra].
Qed.

(** C5, amended.  A projectile that touches live players other than its
    owner is resolved against the first of them in iteration order: the
    projectile is removed; 20 is taken from that player's health and
    nobody else's; if the health left is 0 or below the player leaves the
    live set and gets a pending-respawn record with respawn time
    [now + 3000] and his kill count, and the owner's kill counter grows by
    one when the owner is in the live set, while a kill by a projectile
    whose owner is no longer there is credited to nobody.  After
    [checkCollisions] no projectile that is left touches a live player
    other than its owner. *)
Theorem C5_hit_resolution :
  (forall now b ps dead kept k player,
      keyed ps ->
      hitTarget b ps = Some (k, player) ->
      hits b player = true
      /\ (exists before after,
             ps = before ++ (k, player) :: after
             /\ Forall (fun kv => hits b (snd kv) = false) before)
      /\ exists ps1 dead1,
           collideBullet now b (ps, dead, kept) = (ps1, dead1, kept)
           /\ ((0 < Player.health player - 20)%Z ->
               ps1 = oset k (Player.set_health player (Player.health player - 20)) ps
               /\ dead1 = dead)
           /\ ((Player.health player - 20 <= 0)%Z ->
               oget k ps1 = None
               /\ dead1 = oset k (Dead.mk (now + RESPAWN_TIME) (Player.kills player)) dead
               /\ (forall owner,
                     oget (Bullet.ownerId b) ps = Some owner ->
                     oget (Bullet.ownerId b) ps1
                     = Some (Player.set_kills owner (Player.kills owner + 1)))
               /\ (oget (Bullet.ownerId b) ps = None ->
                   oget (Bullet.ownerId b) ps1 = None)
               /\ (forall j, j <> k -> j <> Bullet.ownerId b ->
                             oget j ps1 = oget j ps)))
  /\ (forall now s b,
        In b (bullets (checkCollisions now s)) ->
        In b (bullets s) /\ hitTarget b (players (checkCollisions now s)) = None).
Proof.
  split.
  - intros now b ps dead kept k player Hkey Hhit.
    destruct (hitTarget_first b ps k player Hhit) as [Hh Hfirst].
    split; [exact Hh |]. split; [exact Hfirst |].
    exact (collideBullet_hit now b ps dead kept k player Hkey Hhit).
  - exact checkCollisions_survivors.
Qed.

Lemma duel_target :
  keyed (players duel)
  /\ hitTarget strayBullet (players duel) = Some ("player_b"%string, wounded "player_b" 20).
Proof.
  split.
  - repeat constructor.
  - unfold hitTarget, duel; cbn [players find snd].
    rewrite strayBullet_hits_b.
    reflexivity.
Qed.

(** With its owner alive, the projectile of [player_a] kills [player_b] and
    the kill is credited. *)
Lemma C5_hit_resolution_witness :
  exists ps1 dead1,
    collideBullet 1000 strayBullet (players duel, deadPlayers duel, [])
    = (ps1, dead1, [])
    /\ oget "player_b" ps1 = None
    /\ dead1 = [("player_b"%string, Dead.mk 4000 0)]
    /\ oget "player_a" ps1
       = Some (Player.set_kills (Player.fresh "player_a" 0) 1).
Proof.
  destruct (proj1 C5_hit_resolution 1000%Z strayBullet (players duel)
              (deadPlayers duel) [] "player_b"%string (wounded "player_b" 20)
              (proj1 duel_target) (proj2 duel_target))
    as (_ & _ & ps1 & dead1 & Hc & _ & Hkill).
  destruct Hkill as (Hgone & Hdead & Hcredit & _); [cbn; lia |].
  exists ps1, dead1.
  split; [exact Hc |]. split; [exact Hgone |]. split; [exact Hdead |].
  exact (Hcredit (Player.fresh "player_a" 0) eq_refl).
Defined.

(** C5, counterexample.  [player_a] has been killed while his projectile
    was in flight and waits for a respawn with 0 kills.  The projectile
    then reaches [player_b], who has 20 health left: [player_b] dies and
    the projectile is removed, but the kill counter of the owner is not
    incremented: his pending-respawn record still holds 0 kills and he
    comes back with 0 kills. *)
Lemma C5_dead_owner_gets_no_kill :
  hits strayBullet (wounded "player_b" 20) = true
  /\ bullets (checkCollisions 1000 afterDuel) = []
  /\ players (checkCollisions 1000 afterDuel) = []
  /\ deadPlayers (checkCollisions 1000 afterDuel)
     = [("player_a"%string, Dead.mk 3500 0); ("player_b"%string, Dead.mk 4000 0)]
  /\ players (respawnPlayers 3500 (checkCollisions 1000 afterDuel))
     = [("player_a"%string, Player.fresh "player_a" 0)].
Proof.
  assert (E : checkCollisions 1000 afterDuel
              = mkState [] [] []
                        [("player_a"%string, Dead.mk 3500 0);
                         ("player_b"%string, Dead.mk 4000 0)]
                        1 0 0 ["player_a"%string; "player_b"%string]).
  { unfold checkCollisions, afterDuel;
      cbn [bullets players deadPlayers fold_right].
    unfold collideBullet, hitTarget; cbn [find snd].
    rewrite strayBullet_hits_b. reflexivity. }
  rewrite E. split; [exact strayBullet_hits_b |]. repeat split.
Qed.

(** ** Projectile lifetime *)

Lemma worldHit_spec (w : World) (prev center : Vec) :
  worldHit w prev center = true
  <-> exists h d,
        safeRayIntersect w (segmentRay prev center) = Some h
        /\ distance h = Some d
        /\ JsNum.leR d (Vector3.length (Vector3.subVectors center prev)) = true.
Proof.
  unfold worldHit. split.
  - destruct (safeRayIntersect w _) as [h |]; [| discriminate].
    destruct (distance h) as [d |] eqn:Ed; [| discriminate].
    intros H. exists h, d. auto.
  - intros (h & d & Hs & Hd & Hle). now rewrite Hs, Hd.
Qed.

Lemma terminates_false (w : World) (now : Z) (prev : Vec) (b : Bullet.t) :
  terminates w now prev b = false
  <-> worldHit w prev (s_center (Bullet.collider b)) = false
      /\ Vector3.length (s_center (Bullet.collider b)) <= 300
      /\ (now - Bullet.spawnTime b <= 3000)%Z.
Proof.
  unfold terminates. rewrite !Bool.orb_false_iff, Rgtb_false.
  rewrite Z.gtb_ltb, Z.ltb_ge. tauto.
Qed.

(** The projectiles [updateBullets] leaves are the advanced projectiles
    that meet none of the three removal conditions. *)
Lemma updateBullets_In (w : World) (dt : R) (now : Z) (bs : list Bullet.t)
    (moved : Bullet.t) :
  In moved (updateBullets w dt now bs)
  <-> exists b,
        In b bs /\ moved = advance b dt
        /\ terminates w now (s_center (Bullet.collider b)) moved = false.
Proof.
  unfold updateBullets.
  induction bs as [| b rest IH]; cbn [fold_right].
  - split; [intros [] | intros (b & [] & _)].
  - destruct (terminates w now (s_center (Bullet.collider b)) (advance b dt)) eqn:E.
    + rewrite IH. split.
      * intros (c & Hin & Hm & Ht). exists c. split; [now right | auto].
      * intros (c & [Hc | Hin] & Hm & Ht).
        -- subst. congruence.
        -- exists c. auto.
    + cbn [In]. rewrite IH. split.
      * intros [Hm | (c & Hin & Hm & Ht)].
        -- exists b. subst. split; [now left | auto].
        -- exists c. split; [now right | auto].
      * intros (c & [Hc | Hin] & Hm & Ht).
        -- subst. now left.
        -- right. exists c. auto.
Qed.

Lemma spawnTime_advance (b : Bullet.t) (dt : R) :
  Bullet.spawnTime (advance b dt) = Bullet.spawnTime b.
Proof. reflexivity. Qed.

Lemma updateBullets_young (w : World) (dt : R) (now : Z) (bs : list Bullet.t) :
  Forall (fun b => (now - Bullet.spawnTime b <= 3000)%Z
                   /\ Vector3.length (s_center (Bullet.collider b)) <= 300)
         (updateBullets w dt now bs).
Proof.
  apply Forall_forall. intros moved Hin.
  apply updateBullets_In in Hin. destruct Hin as (b & _ & _ & Ht).
  apply terminates_false in Ht. tauto.
Qed.

Lemma substep_young (w : World) (now : Z) (s s1 : State) :
  substep w now s = Returns s1 ->
  Forall (fun b => (now - Bullet.spawnTime b <= 3000)%Z
                   /\ Vector3.length (s_center (Bullet.collider b)) <= 300)
         (bullets s1).
Proof.
  unfold substep.
  destruct (updatePlayers w (players s)) as [| ps]; cbn; [discriminate |].
  intros H; inversion H; subst; clear H.
  apply Forall_forall. intros b Hin.
  apply checkCollisions_survivors in Hin. destruct Hin as [Hin _].
  cbn [bullets set_bullets set_players] in Hin.
  pose proof (updateBullets_young w substepDelta now (bullets s)) as HY.
  rewrite Forall_forall in HY. exact (HY b Hin).
Qed.

Lemma substeps_young (w : World) (now : Z) (n : nat) (s s1 : State) :
  n <> O ->
  substeps w now n s = Returns s1 ->
  Forall (fun b => (now - Bullet.spawnTime b <= 3000)%Z
                   /\ Vector3.length (s_center (Bullet.collider b)) <= 300)
         (bullets s1).
Proof.
  revert s. induction n as [| n IH]; intros s Hn H; [congruence |].
  cbn in H.
  destruct (substep w now s) as [| s2] eqn:E; cbn in H; [discriminate |].
  destruct n as [| m].
  - cbn in H. inversion H; subst. eapply substep_young; eassumption.
  - apply (IH s2); [discriminate | exact H].
Qed.

Lemma bullets_respawnPlayers (now : Z) (s : State) :
  bullets (respawnPlayers now s) = bullets s.
Proof. unfold respawnPlayers. now destruct (fold_left _ _ _). Qed.

Lemma bullets_medkitTimer (w : World) (now : Z) (s s1 : State) :
  medkitTimer w now s = Returns s1 -> bullets s1 = bullets s.
Proof.
  unfold medkitTimer, spawnMedkit.
  destruct (_ >? _)%Z; [| intros H; now inversion H].
  destruct (MEDKIT_MAX <=? _)%nat; cbn; [intros H; now inversion H |].
  destruct (randomGroundPosition _ _ _ _) as [| [pos n1]]; cbn; [discriminate |].
  intros H; now inversion H.
Qed.

Lemma bullets_checkMedkitPickups (s : State) :
  bullets (checkMedkitPickups s) = bullets s.
Proof. unfold checkMedkitPickups. now destruct (pickupSweep _ _). Qed.

(** At the end of a tick no projectile is older than the maximum lifetime
    or farther from the origin than the maximum range. *)
Lemma tick_young (w : World) (now : Z) (s s1 : State) :
  tick w now s = Returns s1 ->
  Forall (fun b => (now - Bullet.spawnTime b <= 3000)%Z
                   /\ Vector3.length (s_center (Bullet.collider b)) <= 300)
         (bullets s1).
Proof.
  unfold tick. intros H.
  destruct (substeps w now PHYSICS_SUBSTEPS _) as [| s2] eqn:E2; cbn in H;
    [discriminate |].
  destruct (medkitTimer w now (respawnPlayers now s2)) as [| s3] eqn:E3; cbn in H;
    [discriminate |].
  inversion H; subst; clear H. cbn [bullets set_medkits].
  rewrite bullets_checkMedkitPickups, (bullets_medkitTimer w now _ _ E3),
    bullets_respawnPlayers.
  eapply substeps_young; [| exact E2]. discriminate.
Qed.

Lemma bullets_onMessage (k : string) (msg : Message) (now : Z) (s : State)
    (b : Bullet.t) :
  In b (bullets (onMessage k msg now s)) ->
  In b (bullets s) \/ Bullet.spawnTime b = now.
Proof.
  unfold onMessage.
  destruct (oget k (players s)) as [player |]; [| destruct msg; auto].
  destruct msg; auto.
  - unfold shoot. destruct (_ && _); [| auto].
    destruct (_ <=? 0)%Z; cbn [bullets set_players createBullet];
      intros H; apply in_app_or in H; destruct H as [H | [H | []]]; auto;
      subst b; now right.
  - unfold reload. destruct (_ && _); auto.
Qed.

(** Along a run whose clock never goes back, no projectile of the live
    list was spawned more than the maximum lifetime before the last tick. *)
Lemma run_young (w : World) (es : list Event) :
  forall (T c : Z) (s s1 : State),
    (T <= c)%Z ->
    chronological c es ->
    Forall (fun b => (T - Bullet.spawnTime b <= 3000)%Z) (bullets s) ->
    run w es s = Returns s1 ->
    Forall (fun b => (lastTick T es - Bullet.spawnTime b <= 3000)%Z) (bullets s1)
    /\ (lastTick T es <= clock c es)%Z.
Proof.
  induction es as [| e rest IH]; intros T c s s1 HTc Hch Hy Hrun; cbn in Hrun.
  - inversion Hrun; subst. cbn. auto.
  - destruct (step w e s) as [| s2] eqn:E; cbn in Hrun; [discriminate |].
    destruct e as [k | k msg now | k | now]; cbn in E, Hch |- *.
    + inversion E; subst.
      exact (IH T c (onConnect k s) s1 HTc Hch Hy Hrun).
    + inversion E; subst. destruct Hch as [Hle Hch].
      refine (IH T now (onMessage k msg now s) s1 _ Hch _ Hrun); [lia |].
      apply Forall_forall. intros b Hin.
      apply bullets_onMessage in Hin. destruct Hin as [Hin | Hsp].
      * rewrite Forall_forall in Hy. exact (Hy b Hin).
      * lia.
    + inversion E; subst.
      exact (IH T c (onClose k s) s1 HTc Hch Hy Hrun).
    + destruct Hch as [Hle Hch].
      refine (IH now now s2 s1 _ Hch _ Hrun); [lia |].
      eapply Forall_impl; [| exact (tick_young w now s s2 E)].
      intros b [H _]. exact H.
Qed.

(** C6.  [updateBullets] keeps exactly the advanced projectiles for which
    the ray along the displacement reports no hit within the segment
    length, whose distance from the origin is at most 300 and whose age is
    at most 3000 ms; at the end of every tick every projectile of the live
    list is within that age and range; and along any run whose clock never
    goes back, whenever the clock is at most [period] past the last tick,
    no projectile of the live list is older than 3000 ms plus [period]. *)
Theorem C6_projectiles_expire :
  (forall w dt now bs moved,
      In moved (updateBullets w dt now bs)
      <-> exists b,
            In b bs /\ moved = advance b dt
            /\ worldHit w (s_center (Bullet.collider b))
                          (s_center (Bullet.collider moved)) = false
            /\ Vector3.length (s_center (Bullet.collider moved)) <= 300
            /\ (now - Bullet.spawnTime moved <= 3000)%Z)
  /\ (forall w prev center,
        worldHit w prev center = true
        <-> exists h d,
              safeRayIntersect w (segmentRay prev center) = Some h
              /\ distance h = Some d
              /\ JsNum.leR d (Vector3.length (Vector3.subVectors center prev)) = true)
  /\ (forall w now s s1,
        tick w now s = Returns s1 ->
        Forall (fun b => (now - Bullet.spawnTime b <= 3000)%Z
                         /\ Vector3.length (s_center (Bullet.collider b)) <= 300)
               (bullets s1))
  /\ (forall w t0 es s period,
        chronological t0 es ->
        run w es (initial t0) = Returns s ->
        (clock t0 es - lastTick t0 es <= period)%Z ->
        Forall (fun b => (clock t0 es - Bullet.spawnTime b <= 3000 + period)%Z)
               (bullets s)).
Proof.
  split; [| split; [exact worldHit_spec | split; [exact tick_young |]]].
  - intros w dt now bs moved. rewrite updateBullets_In.
    split; intros (b & Hin & Hm & H); exists b; (split; [exact Hin |]);
      (split; [exact Hm |]).
    + now apply terminates_false in H.
    + now apply terminates_false.
  - intros w t0 es s period Hch Hrun Hper.
    destruct (run_young w es t0 t0 (initial t0) s (Z.le_refl t0) Hch
                (Forall_nil _) Hrun) as [Hy _].
    eapply Forall_impl; [| exact Hy]. intros b Hb. cbn beta in Hb. lia.
Qed.

(** A run in a world without geometry: a shot at time 5, a tick at 17, a
    shot at 20.  It completes, and three milliseconds after the tick no
    projectile is older than 3000 ms plus a tick period of 17 ms. *)
Lemma C6_projectiles_expire_witness :
  exists s,
    run unbuiltWorld
        [Connect "player_a"; Receive "player_a" Shoot 5; Tick 17;
         Receive "player_a" Shoot 20] (initial 0) = Returns s
    /\ Forall (fun b => (20 - Bullet.spawnTime b <= 3000 + 17)%Z) (bullets s).
Proof.
  destruct (run_returns unbuiltWorld
              [Connect "player_a"; Receive "player_a" Shoot 5; Tick 17;
               Receive "player_a" Shoot 20] (initial 0)
              (proj1 unbuiltWorld_sound) (proj2 unbuiltWorld_sound)) as [s Hs].
  exists s. split; [exact Hs |].
  apply (proj2 (proj2 (proj2 C6_projectiles_expire)) unbuiltWorld 0%Z
           [Connect "player_a"; Receive "player_a" Shoot 5; Tick 17;
            Receive "player_a" Shoot 20] s 17%Z).
  - cbn. lia.
  - exact Hs.
  - cbn. lia.
Defined.

(** ** Medkits *)

(** A player at full health claims nothing, however close. *)
Lemma tryPickup_full_health (p : Player.t) (m : Medkit.t) :
  (Player.maxHealth p <= Player.health p)%Z -> tryPickup p m = (p, m).
Proof.
  intros H. unfold tryPickup.
  destruct (Medkit.pickedUp m); [reflexivity |].
  apply Z.ltb_ge in H. rewrite H. now rewrite Bool.andb_false_r.
Qed.

Lemma pickupLoop_full_health (p : Player.t) (ms : list Medkit.t) :
  (Player.maxHealth p <= Player.health p)%Z -> pickupLoop p ms = (p, ms).
Proof.
  intros H. induction ms as [| m rest IH]; cbn; [reflexivity |].
  now rewrite (tryPickup_full_health p m H), IH.
Qed.

Lemma pickupSweep_full_health (ps : obj Player.t) (ms : list Medkit.t) :
  Forall (fun kv => (Player.maxHealth (snd kv) <= Player.health (snd kv))%Z) ps ->
  pickupSweep ps ms = (ps, ms).
Proof.
  induction ps as [| [k p] rest IH]; cbn; intros H; [reflexivity |].
  inversion H; subst. cbn in H2.
  now rewrite (pickupLoop_full_health p ms H2), (IH H3).
Qed.

(** A claim happens exactly when the medkit is unclaimed, the player is
    closer than 1 and below full health; it heals to the minimum of the
    maximum and health plus 40 and flags the medkit. *)
Lemma tryPickup_spec (p : Player.t) (m : Medkit.t) :
  (Medkit.pickedUp m = false
   /\ medkitDistance p m < 1
   /\ (Player.health p < Player.maxHealth p)%Z
   /\ tryPickup p m
      = (Player.set_health p
           (Z.min (Player.maxHealth p) (Player.health p + MEDKIT_HEAL_AMOUNT)),
         Medkit.claim m))
  \/ (~ (Medkit.pickedUp m = false
         /\ medkitDistance p m < 1
         /\ (Player.health p < Player.maxHealth p)%Z)
      /\ tryPickup p m = (p, m)).
Proof.
  unfold tryPickup.
  destruct (Medkit.pickedUp m) eqn:Ep.
  { right. split; [| reflexivity]. intros (H & _). discriminate. }
  destruct (Rltb (medkitDistance p m) 1) eqn:Ed; cbn [andb].
  - apply Rltb_true in Ed.
    destruct (Player.health p <? Player.maxHealth p)%Z eqn:Eh.
    + left. apply Z.ltb_lt in Eh. auto.
    + right. apply Z.ltb_ge in Eh. split; [| reflexivity]. intros (_ & _ & H). lia.
  - right. apply Rltb_false in Ed. split; [| reflexivity]. intros (_ & H & _). lra.
Qed.

Lemma removePickedUp_clean (ms : list Medkit.t) :
  Forall (fun m => Medkit.pickedUp m = false) (removePickedUp ms).
Proof.
  unfold removePickedUp. apply Forall_forall. intros m Hin.
  apply filter_In in Hin. destruct Hin as [_ H].
  now apply Bool.negb_true_iff in H.
Qed.

(** A medkit that is flagged is gone when the tick ends. *)
Lemma tick_no_claimed_medkit (w : World) (now : Z) (s s1 : State) :
  tick w now s = Returns s1 ->
  Forall (fun m => Medkit.pickedUp m = false) (medkits s1).
Proof.
  unfold tick. intros H.
  destruct (substeps w now PHYSICS_SUBSTEPS _) as [| s2]; cbn in H; [discriminate |].
  destruct (medkitTimer w now (respawnPlayers now s2)) as [| s3]; cbn in H;
    [discriminate |].
  inversion H; subst. cbn [medkits set_medkits]. apply removePickedUp_clean.
Qed.

(** C9.  In the pickup sweep a player claims a medkit exactly when the
    medkit is not yet claimed, the distance from the start point of the
    player's collider to the medkit is below 1.0 and the player's health
    is strictly below the maximum; the claim sets health to
    [min (maxHealth, health + 40)] and flags the medkit.  A player at full
    health leaves every medkit as it is, and when every player is at full
    health the sweep changes nothing.  No flagged medkit is left when the
    tick returns. *)
Theorem C9_medkit_claim :
  (forall p m,
      (Medkit.pickedUp m = false
       /\ medkitDistance p m < 1
       /\ (Player.health p < Player.maxHealth p)%Z
       /\ tryPickup p m
          = (Player.set_health p
               (Z.min (Player.maxHealth p) (Player.health p + MEDKIT_HEAL_AMOUNT)),
             Medkit.claim m))
      \/ (~ (Medkit.pickedUp m = false
             /\ medkitDistance p m < 1
             /\ (Player.health p < Player.maxHealth p)%Z)
          /\ tryPickup p m = (p, m)))
  /\ (forall p ms,
        (Player.maxHealth p <= Player.health p)%Z -> pickupLoop p ms = (p, ms))
  /\ (forall s,
        Forall (fun kv => (Player.maxHealth (snd kv) <= Player.health (snd kv))%Z)
               (players s) ->
        checkMedkitPickups s = s)
  /\ (forall w now s s1,
        tick w now s = Returns s1 ->
        Forall (fun m => Medkit.pickedUp m = false) (medkits s1)).
Proof.
  split; [exact tryPickup_spec |].
  split; [exact pickupLoop_full_health |].
  split; [| exact tick_no_claimed_medkit].
  intros s H. unfold checkMedkitPickups.
  rewrite (pickupSweep_full_health (players s) (medkits s) H).
  now destruct s.
Qed.

(** A player at full health standing on a medkit leaves it in place. *)
Lemma C9_medkit_claim_witness :
  pickupLoop (Player.fresh "player_a" 0) [medkitAtSpawn]
  = (Player.fresh "player_a" 0, [medkitAtSpawn]).
Proof.
  apply (proj1 (proj2 C9_medkit_claim)). cbn. lia.
Defined.

(** ** Respawn *)

Lemma orZero_id (k : Z) : orZero k = k.
Proof. unfold orZero. destruct (k =? 0)%Z eqn:E; [apply Z.eqb_eq in E; lia | reflexivity]. Qed.

(** Once a player has been put back and his record deleted, the rest of
    the sweep leaves both as they are. *)
Lemma respawn_fold_done (now : Z) (k : string) (p : Player.t) (ks : list string) :
  forall acc,
    oget k (fst acc) = Some p -> oget k (snd acc) = None ->
    oget k (fst (fold_left (respawnOne now) ks acc)) = Some p
    /\ oget k (snd (fold_left (respawnOne now) ks acc)) = None.
Proof.
  induction ks as [| j ks IH]; intros [ps dead] Hp Hd; cbn [fold_left]; [auto |].
  apply IH; unfold respawnOne; cbn [fst snd] in *.
  - destruct (oget j dead) as [d |] eqn:Ej; [| exact Hp].
    destruct (Dead.respawnTime d <=? now)%Z; [| exact Hp]. cbn [fst].
    rewrite oget_oset_neq; [exact Hp |]. intros E. subst j. congruence.
  - destruct (oget j dead) as [d |] eqn:Ej; [| exact Hd].
    destruct (Dead.respawnTime d <=? now)%Z; [| exact Hd]. cbn [snd].
    destruct (String.eqb k j) eqn:E.
    + apply String.eqb_eq in E. subst j. apply oget_odel_eq.
    + apply String.eqb_neq in E. rewrite oget_odel_neq; assumption.
Qed.

(** A record whose time has come is consumed when the sweep reaches its
    key. *)
Lemma respawn_fold_due (now : Z) (k : string) (d : Dead.t) (ks : list string) :
  (Dead.respawnTime d <= now)%Z ->
  forall acc,
    In k ks -> oget k (snd acc) = Some d ->
    oget k (fst (fold_left (respawnOne now) ks acc))
    = Some (Player.fresh k (Dead.kills d))
    /\ oget k (snd (fold_left (respawnOne now) ks acc)) = None.
Proof.
  intros Hdue.
  induction ks as [| j ks IH]; intros [ps dead] Hin Hd; cbn [fold_left];
    [destruct Hin |].
  cbn [snd] in Hd.
  destruct (String.eqb j k) eqn:E.
  - apply String.eqb_eq in E. subst j.
    apply respawn_fold_done; unfold respawnOne; rewrite Hd;
      apply Z.leb_le in Hdue; rewrite Hdue; cbn [fst snd].
    + rewrite orZero_id. apply oget_oset_eq.
    + apply oget_odel_eq.
  - apply String.eqb_neq in E.
    destruct Hin as [Hjk | Hin]; [congruence |].
    apply IH; [exact Hin |].
    unfold respawnOne.
    destruct (oget j dead) as [dj |]; [| exact Hd].
    destruct (Dead.respawnTime dj <=? now)%Z; [| exact Hd]. cbn [snd].
    rewrite oget_odel_neq; [exact Hd | congruence].
Qed.

(** A record whose time has not come stays, and the sweep does not touch
    the live-set entry of its key. *)
Lemma respawn_fold_early (now : Z) (k : string) (d : Dead.t) (ks : list string) :
  (now < Dead.respawnTime d)%Z ->
  forall acc,
    oget k (snd acc) = Some d ->
    oget k (fst (fold_left (respawnOne now) ks acc)) = oget k (fst acc)
    /\ oget k (snd (fold_left (respawnOne now) ks acc)) = Some d.
Proof.
  intros Hearly.
  induction ks as [| j ks IH]; intros [ps dead] Hd; cbn [fold_left]; [auto |].
  cbn [fst snd] in *.
  assert (Hstep : oget k (fst (respawnOne now (ps, dead) j)) = oget k ps
                  /\ oget k (snd (respawnOne now (ps, dead) j)) = Some d).
  { unfold respawnOne.
    destruct (oget j dead) as [dj |] eqn:Ej; [| auto].
    destruct (Dead.respawnTime dj <=? now)%Z eqn:El; [| auto]. cbn [fst snd].
    assert (Hne : k <> j).
    { intros Ek. subst j. rewrite Hd in Ej. inversion Ej; subst.
      apply Z.leb_le in El. lia. }
    rewrite oget_oset_neq, oget_odel_neq by exact Hne. auto. }
  destruct Hstep as [H1 H2].
  destruct (IH (respawnOne now (ps, dead) j) H2) as [H3 H4].
  rewrite H3, H1. auto.
Qed.

Lemma respawnPlayers_due (now : Z) (s : State) (k : string) (d : Dead.t) :
  oget k (deadPlayers s) = Some d ->
  (Dead.respawnTime d <= now)%Z ->
  oget k (players (respawnPlayers now s)) = Some (Player.fresh k (Dead.kills d))
  /\ oget k (deadPlayers (respawnPlayers now s)) = None.
Proof.
  intros Hd Hdue. unfold respawnPlayers.
  pose proof (respawn_fold_due now k d (okeys (deadPlayers s)) Hdue
                (players s, deadPlayers s) (oget_okeys k d _ Hd) Hd) as H.
  destruct (fold_left _ _ _) as [ps dead]. exact H.
Qed.

Lemma respawnPlayers_early (now : Z) (s : State) (k : string) (d : Dead.t) :
  oget k (deadPlayers s) = Some d ->
  (now < Dead.respawnTime d)%Z ->
  oget k (players (respawnPlayers now s)) = oget k (players s)
  /\ oget k (deadPlayers (respawnPlayers now s)) = Some d.
Proof.
  intros Hd Hearly. unfold respawnPlayers.
  pose proof (respawn_fold_early now k d (okeys (deadPlayers s)) Hearly
                (players s, deadPlayers s) Hd) as H.
  destruct (fold_left _ _ _) as [ps dead]. exact H.
Qed.

Lemma In_oget {V : Type} (k : string) (v : V) (o : obj V) :
  In (k, v) o -> oget k o <> None.
Proof.
  induction o as [| [k' v'] rest IH]; cbn; [tauto |].
  intros [H | H].
  - inversion H; subst. rewrite String.eqb_refl. discriminate.
  - destruct (String.eqb k' k); [discriminate | auto].
Qed.

Lemma updatePlayers_keeps_absent (w : World) (k : string) (ps qs : obj Player.t) :
  updatePlayers w ps = Returns qs -> oget k ps = None -> oget k qs = None.
Proof.
  revert qs. induction ps as [| [k0 p0] rest IH]; cbn; intros qs H Hn.
  - inversion H. reflexivity.
  - destruct (updatePlayer w p0 substepDelta) as [| p1]; cbn in H; [discriminate |].
    destruct (updatePlayers w rest) as [| rest1]; cbn in H; [discriminate |].
    inversion H; subst. cbn.
    destruct (String.eqb k0 k); [discriminate | auto].
Qed.

Lemma keyed_updatePlayers (w : World) (ps qs : obj Player.t) :
  updatePlayers w ps = Returns qs -> keyed ps -> keyed qs.
Proof.
  unfold keyed.
  apply (frame_updatePlayers (fun k p => Player.id p = k)).
  intros; assumption.
Qed.

Lemma waiting_collideBullet (now : Z) (k : string) (d : Dead.t) (b : Bullet.t)
    (ps : obj Player.t) (dead : obj Dead.t) (kept : list Bullet.t) :
  keyed ps -> oget k ps = None -> oget k dead = Some d ->
  keyed (fst (fst (collideBullet now b (ps, dead, kept))))
  /\ oget k (fst (fst (collideBullet now b (ps, dead, kept)))) = None
  /\ oget k (snd (fst (collideBullet now b (ps, dead, kept)))) = Some d.
Proof.
  intros Hkey Hp Hd.
  destruct (hitTarget b ps) as [[k1 player] |] eqn:Eh.
  2:{ unfold collideBullet. rewrite Eh. cbn. auto. }
  pose proof (hitTarget_some b ps k1 player Eh) as (Hin & _).
  assert (Hne : k <> k1).
  { intros E. subst k1. exact (In_oget k player ps Hin Hp). }
  assert (Hk1 : keyed (fst (resolveHit now b k1 player ps dead))).
  { unfold keyed in *.
    apply (frame_resolveHit (fun k p => Player.id p = k));
      try (intros; assumption).
    unfold allPlayers in Hkey. rewrite Forall_forall in Hkey. exact (Hkey _ Hin). }
  destruct (collideBullet_hit now b ps dead kept k1 player Hkey Eh)
    as (ps1 & dead1 & Hc & Hlive & Hkill).
  assert (Hr : resolveHit now b k1 player ps dead = (ps1, dead1)).
  { unfold collideBullet in Hc. rewrite Eh in Hc.
    destruct (resolveHit now b k1 player ps dead). now inversion Hc. }
  rewrite Hr in Hk1. rewrite Hc. cbn [fst snd] in *.
  split; [exact Hk1 |].
  destruct (Z_lt_le_dec 0 (Player.health player - 20)) as [Hl | Hl].
  - destruct (Hlive Hl) as [E1 E2]. subst ps1 dead1.
    rewrite oget_oset_neq by exact Hne. auto.
  - destruct (Hkill Hl) as (_ & E2 & _ & Hnone & Hothers). subst dead1.
    rewrite oget_oset_neq by exact Hne. split; [| exact Hd].
    destruct (String.eqb k (Bullet.ownerId b)) eqn:Eo.
    + apply String.eqb_eq in Eo. subst k. exact (Hnone Hp).
    + apply String.eqb_neq in Eo. rewrite (Hothers k Hne Eo). exact Hp.
Qed.

Lemma waiting_checkCollisions (now : Z) (k : string) (d : Dead.t) (s : State) :
  waiting k d s -> waiting k d (checkCollisions now s).
Proof.
  unfold waiting, checkCollisions. intros (Hkey & Hp & Hd).
  assert (HF : forall bs,
             keyed (fst (fst (fold_right (collideBullet now)
                                         (players s, deadPlayers s, []) bs)))
             /\ oget k (fst (fst (fold_right (collideBullet now)
                                             (players s, deadPlayers s, []) bs)))
                = None
             /\ oget k (snd (fst (fold_right (collideBullet now)
                                             (players s, deadPlayers s, []) bs)))
                = Some d).
  { induction bs as [| b rest IH]; cbn [fold_right]; [cbn; auto |].
    destruct (fold_right (collideBullet now) _ rest) as [[ps dead] kept].
    cbn [fst snd] in IH. destruct IH as (H1 & H2 & H3).
    now apply waiting_collideBullet. }
  specialize (HF (bullets s)).
  destruct (fold_right _ _ _) as [[ps dead] kept]. exact HF.
Qed.

Lemma waiting_substeps (w : World) (now : Z) (k : string) (d : Dead.t) (n : nat) :
  forall s s1,
    substeps w now n s = Returns s1 -> waiting k d s -> waiting k d s1.
Proof.
  induction n as [| n IH]; intros s s1 H Hw; cbn in H.
  - inversion H; subst. exact Hw.
  - unfold substep in H.
    destruct (updatePlayers w (players s)) as [| ps] eqn:E; cbn in H; [discriminate |].
    eapply IH; [exact H |].
    apply waiting_checkCollisions.
    destruct Hw as (Hkey & Hp & Hd). unfold waiting; cbn.
    split; [exact (keyed_updatePlayers w _ _ E Hkey) |].
    split; [exact (updatePlayers_keeps_absent w k _ _ E Hp) | exact Hd].
Qed.

Lemma pickupSweep_full_health_player (k : string) (p : Player.t) :
  (Player.maxHealth p <= Player.health p)%Z ->
  forall ps ms,
    oget k ps = Some p -> oget k (fst (pickupSweep ps ms)) = Some p.
Proof.
  intros Hfull.
  induction ps as [| [k0 p0] rest IH]; intros ms; cbn; [discriminate |].
  destruct (String.eqb k0 k) eqn:E.
  - intros H; inversion H; subst.
    rewrite (pickupLoop_full_health p ms Hfull).
    destruct (pickupSweep rest ms) as [rest1 ms2]. cbn. now rewrite E.
  - intros H.
    destruct (pickupLoop p0 ms) as [p1 ms1].
    specialize (IH ms1 H).
    destruct (pickupSweep rest ms1) as [rest1 ms2]. cbn in *. now rewrite E.
Qed.

Lemma clients_checkCollisions (now : Z) (s : State) :
  clients (checkCollisions now s) = clients s.
Proof. unfold checkCollisions. now destruct (fold_right _ _ _) as [[ps dead] kept]. Qed.

Lemma clients_substeps (w : World) (now : Z) (n : nat) :
  forall s s1, substeps w now n s = Returns s1 -> clients s1 = clients s.
Proof.
  induction n as [| n IH]; intros s s1 H; cbn in H.
  - now inversion H.
  - unfold substep in H.
    destruct (updatePlayers w (players s)) as [| ps]; cbn in H; [discriminate |].
    rewrite (IH _ _ H). now rewrite clients_checkCollisions.
Qed.

Lemma clients_tick (w : World) (now : Z) (s s1 : State) :
  tick w now s = Returns s1 -> clients s1 = clients s.
Proof.
  unfold tick. intros H.
  destruct (substeps w now PHYSICS_SUBSTEPS _) as [| s2] eqn:E2; cbn in H;
    [discriminate |].
  destruct (medkitTimer w now (respawnPlayers now s2)) as [| s3] eqn:E3; cbn in H;
    [discriminate |].
  inversion H; subst; clear H. cbn [clients set_medkits].
  assert (H3 : clients s3 = clients (respawnPlayers now s2)).
  { unfold medkitTimer, spawnMedkit in E3.
    destruct (_ >? _)%Z; [| now inversion E3].
    destruct (MEDKIT_MAX <=? _)%nat; cbn in E3; [now inversion E3 |].
    destruct (randomGroundPosition _ _ _ _) as [| [pos n1]]; cbn in E3;
      [discriminate |].
    now inversion E3. }
  unfold checkMedkitPickups. destruct (pickupSweep _ _) as [ps ms]. cbn.
  rewrite H3. unfold respawnPlayers. destruct (fold_left _ _ _) as [ps1 dead1]. cbn.
  now rewrite (clients_substeps w now _ _ _ E2).
Qed.

(** A player who is awaiting respawn when a tick starts after his time has
    come is in the live set, fresh, when the tick ends. *)
Lemma tick_resurrects (w : World) (now : Z) (k : string) (d : Dead.t) (s s1 : State) :
  waiting k d s ->
  (Dead.respawnTime d <= now)%Z ->
  tick w now s = Returns s1 ->
  oget k (players s1) = Some (Player.fresh k (Dead.kills d))
  /\ oget k (deadPlayers s1) = None.
Proof.
  intros Hw Hdue H. unfold tick in H.
  destruct (substeps w now PHYSICS_SUBSTEPS _) as [| s2] eqn:E2; cbn in H;
    [discriminate |].
  destruct (medkitTimer w now (respawnPlayers now s2)) as [| s3] eqn:E3; cbn in H;
    [discriminate |].
  inversion H; subst; clear H. cbn [players deadPlayers set_medkits].
  assert (Hw0 : waiting k d (set_players s (reloadSweep now (players s)))).
  { destruct Hw as (Hkey & Hp & Hd). unfold waiting; cbn. split; [| split].
    - unfold keyed, allPlayers, reloadSweep in *. apply Forall_map.
      eapply Forall_impl; [| exact Hkey]. intros [j p]; cbn.
      intros E. rewrite <- E. apply updatePlayerState_vitals.
    - unfold reloadSweep. clear -Hp.
      induction (players s) as [| [j p] rest IH]; cbn in *; [reflexivity |].
      destruct (String.eqb j k); [discriminate | auto].
    - exact Hd. }
  pose proof (waiting_substeps w now k d _ _ _ E2 Hw0) as (_ & _ & Hd2).
  destruct (respawnPlayers_due now s2 k d Hd2 Hdue) as [Hlive Hgone].
  assert (Hdead3 : deadPlayers s3 = deadPlayers (respawnPlayers now s2)).
  { unfold medkitTimer, spawnMedkit in E3.
    destruct (_ >? _)%Z; [| now inversion E3].
    destruct (MEDKIT_MAX <=? _)%nat; cbn in E3; [now inversion E3 |].
    destruct (randomGroundPosition _ _ _ _) as [| [pos n1]]; cbn in E3;
      [discriminate |].
    now inversion E3. }
  pose proof (players_medkitTimer w now _ _ E3) as Hp3.
  unfold checkMedkitPickups.
  pose proof (pickupSweep_full_health_player k (Player.fresh k (Dead.kills d))
                (Z.le_refl _) (players s3) (medkits s3)) as Hsweep.
  rewrite Hp3 in Hsweep. specialize (Hsweep Hlive). rewrite <- Hp3 in Hsweep.
  destruct (pickupSweep (players s3) (medkits s3)) as [ps ms]. cbn in *.
  split; [exact Hsweep |]. now rewrite Hdead3.
Qed.

Lemma waiting_onClose (k : string) (d : Dead.t) (s : State) :
  keyed (players s) ->
  oget k (deadPlayers s) = Some d ->
  waiting k d (onClose k s) /\ ~ In k (clients (onClose k s)).
Proof.
  intros Hkey Hd. unfold waiting, onClose; cbn. repeat split.
  - unfold keyed, allPlayers in *. now apply Forall_odel.
  - apply oget_odel_eq.
  - exact Hd.
  - intros Hin. apply filter_In in Hin. destruct Hin as [_ H].
    rewrite String.eqb_refl in H. discriminate.
Qed.

(** C10.  The respawn sweep consumes every pending-respawn record whose
    time has come: the record is deleted and a fresh player sits under the
    same id, in the spawn pose, with full health and ammo, the kill count
    of the record and the id as name; a record whose time has not come
    stays and the live-set entry of its id is left alone.  The sweep does
    not look at connections: when the connection of a player who awaits
    respawn closes, the record stays, and the first tick at or after the
    respawn time puts the player back into the live set although the id is
    no longer among the open connections. *)
Theorem C10_respawn_ignores_connection :
  (forall now s k d,
      oget k (deadPlayers s) = Some d ->
      (Dead.respawnTime d <= now)%Z ->
      oget k (players (respawnPlayers now s)) = Some (Player.fresh k (Dead.kills d))
      /\ oget k (deadPlayers (respawnPlayers now s)) = None)
  /\ (forall now s k d,
        oget k (deadPlayers s) = Some d ->
        (now < Dead.respawnTime d)%Z ->
        oget k (players (respawnPlayers now s)) = oget k (players s)
        /\ oget k (deadPlayers (respawnPlayers now s)) = Some d)
  /\ (forall k n,
        Player.id (Player.fresh k n) = k
        /\ Player.name (Player.fresh k n) = k
        /\ Player.collider (Player.fresh k n)
           = mkCapsule (vec3 0 (35 / 100) 0) (vec3 0 (8 / 10) 0) (35 / 100)
        /\ Player.velocity (Player.fresh k n) = vec3 0 0 0
        /\ Player.health (Player.fresh k n) = 100%Z
        /\ Player.maxHealth (Player.fresh k n) = 100%Z
        /\ Player.ammo (Player.fresh k n) = 30%Z
        /\ Player.maxAmmo (Player.fresh k n) = 30%Z
        /\ Player.isReloading (Player.fresh k n) = false
        /\ Player.kills (Player.fresh k n) = n)
  /\ (forall w now s k d s1,
        keyed (players s) ->
        oget k (deadPlayers s) = Some d ->
        (Dead.respawnTime d <= now)%Z ->
        tick w now (onClose k s) = Returns s1 ->
        ~ In k (clients s1)
        /\ oget k (players s1) = Some (Player.fresh k (Dead.kills d))
        /\ oget k (deadPlayers s1) = None).
Proof.
  split; [exact respawnPlayers_due |].
  split; [exact respawnPlayers_early |].
  split; [intros k n; repeat split |].
  intros w now s k d s1 Hkey Hd Hdue Htick.
  destruct (waiting_onClose k d s Hkey Hd) as [Hw Hclosed].
  split.
  - rewrite (clients_tick w now _ _ Htick). exact Hclosed.
  - exact (tick_resurrects w now k d _ s1 Hw Hdue Htick).
Qed.

(** [player_a] is awaiting respawn with two kills when his connection
    closes.  The tick at his respawn time completes and puts him back. *)
Lemma C10_respawn_ignores_connection_witness :
  exists s1,
    tick unbuiltWorld 3500 (onClose "player_a" mourning) = Returns s1
    /\ ~ In "player_a"%string (clients s1)
    /\ oget "player_a" (players s1) = Some (Player.fresh "player_a" 2)
    /\ oget "player_a" (deadPlayers s1) = None.
Proof.
  destruct (tick_returns unbuiltWorld 3500 (onClose "player_a" mourning)
              (proj1 unbuiltWorld_sound) (proj2 unbuiltWorld_sound)) as [s1 Hs].
  exists s1. split; [exact Hs |].
  apply (proj2 (proj2 (proj2 C10_respawn_ignores_connection))
           unbuiltWorld 3500%Z mourning "player_a"%string (Dead.mk 3500 2) s1).
  - constructor.
  - reflexivity.
  - cbn. lia.
  - exact Hs.
Defined.

(** ** Worked examples *)

(** A wounded player standing on a medkit is healed by 40, up to the
    maximum, and the medkit is flagged. *)
Example wounded_player_claims :
  tryPickup (wounded "player_a" 70) medkitAtSpawn
  = (wounded "player_a" 100, Medkit.claim medkitAtSpawn).
Proof.
  destruct (tryPickup_spec (wounded "player_a" 70) medkitAtSpawn)
    as [(_ & _ & _ & H) | (Hno & _)].
  - exact H.
  - exfalso. apply Hno. split; [reflexivity |]. split; [| cbn; lia].
    unfold medkitDistance; cbn.
    replace ((0 - 0) * (0 - 0) + (35 / 100 - 35 / 100) * (35 / 100 - 35 / 100)
             + (0 - 0) * (0 - 0)) with 0 by ring.
    rewrite sqrt_0. lra.
Qed.

(** A player with 30 rounds who shoots has 29 and is not reloading. *)
Example first_shot :
  option_map reloadState
    (oget "player_a"
          (players (onMessage "player_a" Shoot 5 (onConnect "player_a" (initial 0)))))
  = Some (29%Z, 30%Z, false, 0%Z, 1500%Z).
Proof. reflexivity. Qed.

(** Without an octree the search answers with the unconditioned sample. *)
Example placement_without_octree :
  randomGroundPosition unbuiltWorld defaultOptions [] 0
  = Returns (mkJVec (JFin (spread 0 50)) (JFin (35 / 100 + 2 / 100)) (JFin (spread 0 50)),
             2%nat).
Proof. reflexivity. Qed.

(* ================================================================== *)
(** * Further properties of the code *)

(** ** The capsule test *)

(** Among the points [s * u] with [0 <= s <= L] on a line of unit direction
    [u], the one at the clamped projection of [w] is nearest to [w]. *)
Lemma clamped_projection_nearest (ux uy uz wx wy wz L s : R) :
  ux * ux + uy * uy + uz * uz = 1 ->
  0 <= s <= L ->
  let d := ux * wx + uy * wy + uz * wz in
  let t := Rmax 0 (Rmin L d) in
  (ux * t - wx) * (ux * t - wx) + (uy * t - wy) * (uy * t - wy)
  + (uz * t - wz) * (uz * t - wz)
  <= (ux * s - wx) * (ux * s - wx) + (uy * s - wy) * (uy * s - wy)
     + (uz * s - wz) * (uz * s - wz).
Proof.
  intros Hu [Hs0 HsL] d t.
  assert (E : forall r, (ux * r - wx) * (ux * r - wx) + (uy * r - wy) * (uy * r - wy)
                        + (uz * r - wz) * (uz * r - wz)
                        = (r - d) * (r - d) + (wx * wx + wy * wy + wz * wz - d * d)).
  { intros r. unfold d.
    replace ((ux * r - wx) * (ux * r - wx) + (uy * r - wy) * (uy * r - wy)
             + (uz * r - wz) * (uz * r - wz))
      with (r * r * (ux * ux + uy * uy + uz * uz)
            - 2 * r * (ux * wx + uy * wy + uz * wz)
            + (wx * wx + wy * wy + wz * wz)) by ring.
    rewrite Hu. ring. }
  rewrite (E t), (E s).
  assert (Ht : (t - d) * (t - d) <= (s - d) * (s - d)).
  { unfold t. clear E Hu. clearbody d. clear t.
    unfold Rmax, Rmin.
    destruct (Rle_dec L d) as [H1 | H1]; destruct (Rle_dec 0 _) as [H2 | H2].
    - assert (0 <= (L - s) * (d - L + (d - s))) by (apply Rmult_le_pos; lra). nra.
    - exfalso. apply H2. lra.
    - pose proof (Rle_0_sqr (s - d)) as Hq. unfold Rsqr in Hq.
      replace ((d - d) * (d - d)) with 0 by ring. exact Hq.
    - assert (0 <= s * (s - d - d)) by (apply Rmult_le_pos; lra). nra. }
  lra.
Qed.

Lemma sum_squares_zero (a b c : R) :
  a * a + b * b + c * c = 0 -> a = 0 /\ b = 0 /\ c = 0.
Proof. intros H. repeat split; nra. Qed.

Lemma length_zero_inv (v : Vec) :
  Vector3.length v = 0 -> Vector3.x v = 0 /\ Vector3.y v = 0 /\ Vector3.z v = 0.
Proof.
  unfold Vector3.length. intros H.
  apply sqrt_eq_0 in H; [| apply lengthSq_nonneg].
  now apply sum_squares_zero.
Qed.

(** X1.  [capsuleIntersectsSphere] answers true exactly when some point of
    the axis of the capsule, between its start and its end, lies within
    the sum of the two radii of the centre of the sphere. *)
Theorem X1_capsule_test_is_segment_distance :
  forall (capsule : Capsule) (sphere : Sphere),
    capsuleIntersectsSphere capsule sphere = true
    <-> exists tau,
          0 <= tau <= 1
          /\ Vector3.distanceTo (segmentPoint capsule tau) (s_center sphere)
             <= c_radius capsule + s_radius sphere.
Proof.
  intros [[ax ay az] [bx by_ bz] rc] [[cx cy cz] rs].
  unfold capsuleIntersectsSphere, segmentPoint, Vector3.distanceTo.
  cbn [c_start c_end c_radius s_center s_radius].
  set (e := Vector3.subVectors (Vector3.mk bx by_ bz) (Vector3.mk ax ay az)).
  set (L := Vector3.length e).
  assert (HL0 : 0 <= L) by apply sqrt_pos.
  assert (HLL : L * L = Vector3.lengthSq e)
    by (apply sqrt_sqrt, lengthSq_nonneg).
  destruct (Reqb L 0) eqn:EL.
  - (* degenerate capsule: every point of the axis is the start *)
    apply Reqb_true in EL.
    destruct (length_zero_inv e EL) as (Hx & Hy & Hz).
    unfold e in Hx, Hy, Hz; cbn in Hx, Hy, Hz.
    assert (Hsame : forall tau,
               Vector3.lengthSq
                 (Vector3.subVectors
                    (Vector3.add (Vector3.mk ax ay az) (Vector3.multiplyScalar e tau))
                    (Vector3.mk cx cy cz))
               = Vector3.lengthSq
                   (Vector3.subVectors (Vector3.mk ax ay az) (Vector3.mk cx cy cz))).
    { intros tau. unfold Vector3.lengthSq, e; cbn.
      replace (bx - ax) with 0 by lra. replace (by_ - ay) with 0 by lra.
      replace (bz - az) with 0 by lra. ring. }
    rewrite Rleb_true. unfold Vector3.length. split.
    + intros H. exists 0. split; [lra |]. now rewrite Hsame.
    + intros (tau & _ & H). now rewrite Hsame in H.
  - apply Reqb_false in EL.
    assert (HLpos : 0 < L) by lra.
    rewrite Rleb_true.
    unfold Vector3.normalize. fold L.
    destruct (Reqb L 0) eqn:EL2; [apply Reqb_true in EL2; contradiction |].
    set (ux := (bx - ax) * (1 / L)).
    set (uy := (by_ - ay) * (1 / L)).
    set (uz := (bz - az) * (1 / L)).
    assert (Hu : ux * ux + uy * uy + uz * uz = 1).
    { unfold ux, uy, uz.
      replace ((bx - ax) * (1 / L) * ((bx - ax) * (1 / L))
               + (by_ - ay) * (1 / L) * ((by_ - ay) * (1 / L))
               + (bz - az) * (1 / L) * ((bz - az) * (1 / L)))
        with (((bx - ax) * (bx - ax) + (by_ - ay) * (by_ - ay)
               + (bz - az) * (bz - az)) / (L * L)) by (field; exact EL).
      unfold Vector3.lengthSq, e in HLL; cbn in HLL. rewrite <- HLL.
      field. exact EL. }
    set (d := Vector3.dot _ _).
    assert (Hd : d = ux * (cx - ax) + uy * (cy - ay) + uz * (cz - az))
      by reflexivity.
    set (t := Rmax 0 (Rmin L d)).
    assert (Ht : 0 <= t <= L).
    { unfold t, Rmax, Rmin. destruct (Rle_dec L d); destruct (Rle_dec 0 _); lra. }
    (* squared distance from the point at arc length [r] to the centre *)
    assert (Hsq : forall r,
               Vector3.lengthSq
                 (Vector3.subVectors
                    (Vector3.add (Vector3.mk ax ay az)
                       (Vector3.multiplyScalar (Vector3.multiplyScalar e (1 / L)) r))
                    (Vector3.mk cx cy cz))
               = (ux * r - (cx - ax)) * (ux * r - (cx - ax))
                 + (uy * r - (cy - ay)) * (uy * r - (cy - ay))
                 + (uz * r - (cz - az)) * (uz * r - (cz - az))).
    { intros r. unfold Vector3.lengthSq, e, ux, uy, uz; cbn. ring. }
    assert (Hpt : forall tau,
               Vector3.lengthSq
                 (Vector3.subVectors
                    (Vector3.add (Vector3.mk ax ay az) (Vector3.multiplyScalar e tau))
                    (Vector3.mk cx cy cz))
               = Vector3.lengthSq
                   (Vector3.subVectors
                      (Vector3.add (Vector3.mk ax ay az)
                         (Vector3.multiplyScalar (Vector3.multiplyScalar e (1 / L))
                                                 (tau * L)))
                      (Vector3.mk cx cy cz))).
    { intros tau. unfold Vector3.lengthSq, e; cbn.
      replace ((bx - ax) * (1 / L) * (tau * L)) with ((bx - ax) * tau)
        by (field; exact EL).
      replace ((by_ - ay) * (1 / L) * (tau * L)) with ((by_ - ay) * tau)
        by (field; exact EL).
      replace ((bz - az) * (1 / L) * (tau * L)) with ((bz - az) * tau)
        by (field; exact EL).
      reflexivity. }
    unfold Vector3.length. split.
    + intros H. exists (t / L). split.
      * split; [apply Rle_mult_inv_pos; lra |].
        apply (Rmult_le_reg_r L); [exact HLpos |].
        replace (t / L * L) with t by (field; exact EL). lra.
      * rewrite Hpt. replace (t / L * L) with t by (field; exact EL). exact H.
    + intros (tau & [Ht0 Ht1] & H).
      eapply Rle_trans; [| exact H].
      apply sqrt_le_1_alt. rewrite Hpt, !Hsq.
      apply (clamped_projection_nearest ux uy uz (cx - ax) (cy - ay) (cz - az) L
               (tau * L) Hu).
      split; nra.
Qed.

(** ** Projectile creation *)






(** ** Bullet identifiers *)

Lemma string_of_nat_inj (a b : nat) : string_of_nat a = string_of_nat b -> a = b.
Proof.
  unfold string_of_nat. intros H.
  apply (f_equal NilEmpty.uint_of_string) in H. rewrite !NilEmpty.usu in H.
  inversion H as [H1]. apply (f_equal Nat.of_uint) in H1.
  now rewrite !Unsigned.of_to in H1.
Qed.

Lemma bulletName_inj (a b : nat) :
  ("bullet_" ++ string_of_nat a)%string = ("bullet_" ++ string_of_nat b)%string ->
  a = b.
Proof. cbn. intros H. inversion H. now apply string_of_nat_inj. Qed.

(** Dropping elements of a list named after distinct numbers leaves a list
    named after distinct numbers among the same. *)
Lemma updateBullets_ids (w : World) (dt : R) (now : Z) (f : nat -> string) :
  forall bs ns,
    map Bullet.id bs = map f ns -> NoDup ns ->
    exists ns1,
      map Bullet.id (updateBullets w dt now bs) = map f ns1
      /\ NoDup ns1 /\ incl ns1 ns.
Proof.
  unfold updateBullets.
  induction bs as [| b rest IH]; intros [| n ns] Hm Hnd; try discriminate.
  - exists []. cbn. repeat split; [constructor | apply incl_refl].
  - cbn in Hm. inversion Hm as [[Hb Hrest]]. inversion Hnd; subst.
    destruct (IH ns Hrest H2) as (ns1 & E & Hnd1 & Hinc).
    cbn [fold_right]. destruct (terminates _ _ _ _).
    + exists ns1. split; [exact E |]. split; [exact Hnd1 |].
      now apply incl_tl.
    + exists (n :: ns1). cbn [map]. rewrite E.
      split; [now rewrite <- Hb |].
      split; [constructor; auto | ].
      apply incl_cons; [now left | now apply incl_tl].
Qed.

Lemma collide_fold_ids (now : Z) (f : nat -> string) (ps0 : obj Player.t)
    (dead0 : obj Dead.t) :
  forall bs ns,
    map Bullet.id bs = map f ns -> NoDup ns ->
    exists ns1,
      map Bullet.id (snd (fold_right (collideBullet now) (ps0, dead0, []) bs))
      = map f ns1
      /\ NoDup ns1 /\ incl ns1 ns.
Proof.
  induction bs as [| b rest IH]; intros [| n ns] Hm Hnd; try discriminate.
  - exists []. cbn. repeat split; [constructor | apply incl_refl].
  - cbn in Hm. inversion Hm as [[Hb Hrest]]. inversion Hnd; subst.
    destruct (IH ns Hrest H2) as (ns1 & E & Hnd1 & Hinc).
    cbn [fold_right].
    destruct (fold_right (collideBullet now) _ rest) as [[ps dead] kept].
    cbn [snd] in E. unfold collideBullet.
    destruct (hitTarget b ps) as [[k player] |].
    + destruct (resolveHit now b k player ps dead) as [ps1 dead1]. cbn [snd].
      exists ns1. split; [exact E |]. split; [exact Hnd1 |].
      now apply incl_tl.
    + cbn [snd]. exists (n :: ns1). cbn [map]. rewrite E.
      split; [now rewrite <- Hb |].
      split; [constructor; auto |].
      apply incl_cons; [now left | now apply incl_tl].
Qed.

Lemma nextBulletId_checkCollisions (now : Z) (s : State) :
  nextBulletId (checkCollisions now s) = nextBulletId s.
Proof. unfold checkCollisions. now destruct (fold_right _ _ _) as [[ps dead] kept]. Qed.

Lemma bulletIdsOK_shrink (s s1 : State) (ns : list nat) :
  nextBulletId s1 = nextBulletId s ->
  map Bullet.id (bullets s) = map (fun n => ("bullet_" ++ string_of_nat n)%string) ns ->
  NoDup ns ->
  Forall (fun n => (n < nextBulletId s)%nat) ns ->
  (exists ns1,
      map Bullet.id (bullets s1)
      = map (fun n => ("bullet_" ++ string_of_nat n)%string) ns1
      /\ NoDup ns1 /\ incl ns1 ns) ->
  bulletIdsOK s1.
Proof.
  intros Hn Hm Hnd Hlt (ns1 & E & Hnd1 & Hinc).
  exists ns1. split; [exact E |]. split; [exact Hnd1 |].
  rewrite Hn. rewrite Forall_forall in *. intros n Hin. apply Hlt, Hinc, Hin.
Qed.

Lemma bulletIdsOK_substep (w : World) (now : Z) (s s1 : State) :
  substep w now s = Returns s1 -> bulletIdsOK s -> bulletIdsOK s1.
Proof.
  unfold substep. intros H (ns & Hm & Hnd & Hlt).
  destruct (updatePlayers w (players s)) as [| ps]; cbn in H; [discriminate |].
  inversion H; subst; clear H.
  destruct (updateBullets_ids w substepDelta now _ (bullets s) ns Hm Hnd)
    as (ns1 & E1 & Hnd1 & Hinc1).
  apply (bulletIdsOK_shrink s _ ns); auto.
  - now rewrite nextBulletId_checkCollisions.
  - unfold checkCollisions. cbn [bullets players deadPlayers set_bullets set_players].
    destruct (collide_fold_ids now _ ps (deadPlayers s) _ ns1 E1 Hnd1)
      as (ns2 & E2 & Hnd2 & Hinc2).
    destruct (fold_right _ _ _) as [[ps2 dead2] kept]. cbn [bullets snd] in *.
    exists ns2. split; [exact E2 |]. split; [exact Hnd2 |].
    eapply incl_tran; eassumption.
Qed.

Lemma bulletIdsOK_same (s s1 : State) :
  bullets s1 = bullets s -> nextBulletId s1 = nextBulletId s ->
  bulletIdsOK s -> bulletIdsOK s1.
Proof. unfold bulletIdsOK. intros Hb Hn. now rewrite Hb, Hn. Qed.

Lemma nextBulletId_respawnPlayers (now : Z) (s : State) :
  nextBulletId (respawnPlayers now s) = nextBulletId s.
Proof. unfold respawnPlayers. now destruct (fold_left _ _ _). Qed.

Lemma nextBulletId_medkitTimer (w : World) (now : Z) (s s1 : State) :
  medkitTimer w now s = Returns s1 -> nextBulletId s1 = nextBulletId s.
Proof.
  unfold medkitTimer, spawnMedkit.
  destruct (_ >? _)%Z; [| intros H; now inversion H].
  destruct (MEDKIT_MAX <=? _)%nat; cbn; [intros H; now inversion H |].
  destruct (randomGroundPosition _ _ _ _) as [| [pos n1]]; cbn; [discriminate |].
  intros H; now inversion H.
Qed.

Lemma nextBulletId_tail (w : World) (now : Z) (s2 s3 : State) :
  medkitTimer w now (respawnPlayers now s2) = Returns s3 ->
  nextBulletId s3 = nextBulletId s2.
Proof.
  intros H. rewrite (nextBulletId_medkitTimer w now _ _ H).
  apply nextBulletId_respawnPlayers.
Qed.

Lemma bulletIdsOK_tick (w : World) (now : Z) (s s1 : State) :
  tick w now s = Returns s1 -> bulletIdsOK s -> bulletIdsOK s1.
Proof.
  unfold tick. intros H Hok.
  destruct (substeps w now PHYSICS_SUBSTEPS _) as [| s2] eqn:E2; cbn in H;
    [discriminate |].
  destruct (medkitTimer w now (respawnPlayers now s2)) as [| s3] eqn:E3; cbn in H;
    [discriminate |].
  inversion H; subst; clear H.
  assert (H2 : bulletIdsOK s2).
  { revert E2. generalize PHYSICS_SUBSTEPS.
    assert (H0 : bulletIdsOK (set_players s (reloadSweep now (players s))))
      by exact Hok.
    revert H0. generalize (set_players s (reloadSweep now (players s))).
    intros s0 H0 n. revert s0 H0.
    induction n as [| n IH]; intros s0 H0 E; cbn in E.
    - now inversion E; subst.
    - destruct (substep w now s0) as [| s'] eqn:Es; cbn in E; [discriminate |].
      apply (IH s'); [| exact E]. eapply bulletIdsOK_substep; eassumption. }
  apply (bulletIdsOK_same s2); [| | exact H2].
  - cbn [bullets set_medkits].
    rewrite bullets_checkMedkitPickups, (bullets_medkitTimer w now _ _ E3).
    apply bullets_respawnPlayers.
  - cbn [nextBulletId set_medkits]. unfold checkMedkitPickups.
    destruct (pickupSweep _ _). cbn. exact (nextBulletId_tail w now s2 s3 E3).
Qed.

Lemma bulletIdsOK_createBullet (p : Player.t) (now : Z) (s : State) :
  bulletIdsOK s -> bulletIdsOK (createBullet p now s).
Proof.
  intros (ns & Hm & Hnd & Hlt).
  exists (ns ++ [nextBulletId s]). cbn [bullets createBullet nextBulletId].
  rewrite !map_app, Hm. split; [reflexivity |]. split.
  - apply NoDup_app; [exact Hnd | repeat constructor; intros [] |].
    intros a Hin [E | []]. subst a. rewrite Forall_forall in Hlt.
    specialize (Hlt _ Hin). lia.
  - apply Forall_app. split.
    + eapply Forall_impl; [| exact Hlt]. cbn. intros a Ha. lia.
    + repeat constructor.
Qed.

Lemma bulletIdsOK_onMessage (k : string) (msg : Message) (now : Z) (s : State) :
  bulletIdsOK s -> bulletIdsOK (onMessage k msg now s).
Proof.
  intros H. unfold onMessage.
  destruct (oget k (players s)) as [player |]; [| destruct msg; exact H].
  destruct msg; try exact H.
  - unfold shoot. destruct (_ && _); [| exact H].
    assert (H1 : bulletIdsOK
                   (createBullet
                      (Player.set_reload player (Player.ammo player - 1)
                         (Player.isReloading player) (Player.reloadStartTime player))
                      now
                      (set_players s
                         (oset k (Player.set_reload player (Player.ammo player - 1)
                                    (Player.isReloading player)
                                    (Player.reloadStartTime player)) (players s))))).
    { apply bulletIdsOK_createBullet. exact H. }
    destruct (_ <=? 0)%Z; exact H1.
  - unfold reload. destruct (_ && _); exact H.
Qed.

Lemma NoDup_map_injective {A B : Type} (f : A -> B) (l : list A) :
  (forall a b, f a = f b -> a = b) -> NoDup l -> NoDup (map f l).
Proof.
  intros Hinj. induction 1 as [| a l Hnin Hnd IH]; cbn; constructor; [| exact IH].
  intros Hin. apply in_map_iff in Hin. destruct Hin as (b & E & Hb).
  apply Hinj in E. subst b. contradiction.
Qed.

Lemma bulletIdsOK_run (w : World) (es : list Event) :
  forall s s1, run w es s = Returns s1 -> bulletIdsOK s -> bulletIdsOK s1.
Proof.
  induction es as [| e rest IH]; intros s s1 H Hok; cbn in H.
  - now inversion H; subst.
  - destruct (step w e s) as [| s2] eqn:E; cbn in H; [discriminate |].
    apply (IH s2 s1 H).
    destruct e; cbn in E.
    + inversion E; subst. exact Hok.
    + inversion E; subst. now apply bulletIdsOK_onMessage.
    + inversion E; subst. exact Hok.
    + eapply bulletIdsOK_tick; eassumption.
Qed.

(** X3.  In every state the server reaches, the projectiles of the live
    list have pairwise distinct ids, each of the form ["bullet_i"] with [i]
    below the bullet counter. *)
Theorem X3_bullet_ids_distinct :
  forall (w : World) (t0 : Z) (es : list Event) (s : State),
    run w es (initial t0) = Returns s ->
    NoDup (map Bullet.id (bullets s))
    /\ Forall (fun b => exists i, (i < nextBulletId s)%nat
                                  /\ Bullet.id b = ("bullet_" ++ string_of_nat i)%string)
              (bullets s).
Proof.
  intros w t0 es s Hrun.
  assert (H0 : bulletIdsOK (initial t0)).
  { exists []. repeat split; constructor. }
  destruct (bulletIdsOK_run w es _ _ Hrun H0) as (ns & Hm & Hnd & Hlt).
  split.
  - rewrite Hm. apply NoDup_map_injective; [| exact Hnd].
    intros a b. apply bulletName_inj.
  - apply Forall_forall. intros b Hin.
    apply (in_map Bullet.id) in Hin. rewrite Hm in Hin.
    apply in_map_iff in Hin. destruct Hin as (i & Hi & Hin).
    exists i. rewrite Forall_forall in Hlt. split; [apply Hlt, Hin | now symmetry].
Qed.

(** A run with two shots and a tick completes; X3 applies to its end. *)
Lemma X3_bullet_ids_distinct_witness :
  exists s,
    run unbuiltWorld
        [Connect "player_a"; Receive "player_a" Shoot 5;
         Receive "player_a" Shoot 6; Tick 17] (initial 0) = Returns s
    /\ NoDup (map Bullet.id (bullets s)).
Proof.
  destruct (run_returns unbuiltWorld
              [Connect "player_a"; Receive "player_a" Shoot 5;
               Receive "player_a" Shoot 6; Tick 17] (initial 0)
              (proj1 unbuiltWorld_sound) (proj2 unbuiltWorld_sound)) as [s Hs].
  exists s. split; [exact Hs |].
  exact (proj1 (X3_bullet_ids_distinct unbuiltWorld 0%Z _ s Hs)).
Defined.

(** ** Running without usable geometry *)

Lemma rayQueryUseless_noGeometry (w : World) : rayQueryUseless w -> noGeometry w.
Proof.
  intros [H | H] ray; unfold safeRayIntersect.
  - now rewrite H.
  - destruct (octreeReady w); [cbn | reflexivity].
    destruct (H ray) as [E | [E | (raw & E & Ep)]]; rewrite E; try reflexivity.
    now rewrite Ep.
Qed.

Lemma worldHit_noGeometry (w : World) (prev center : Vec) :
  noGeometry w -> worldHit w prev center = false.
Proof. intros H. unfold worldHit. now rewrite H. Qed.

(** X4.  When the octree is not ready, or its ray query only throws or
    returns nothing usable, [updateBullets] removes a projectile for range
    or age only: the projectiles it keeps are exactly the advanced
    projectiles within 300 of the origin and at most 3000 ms old. *)
Theorem X4_bullets_without_geometry :
  forall (w : World) (dt : R) (now : Z) (bs : list Bullet.t) (moved : Bullet.t),
    rayQueryUseless w ->
    (In moved (updateBullets w dt now bs)
     <-> exists b,
           In b bs /\ moved = advance b dt
           /\ Vector3.length (s_center (Bullet.collider moved)) <= 300
           /\ (now - Bullet.spawnTime b <= 3000)%Z).
Proof.
  intros w dt now bs moved Hu.
  pose proof (rayQueryUseless_noGeometry w Hu) as Hn.
  rewrite updateBullets_In.
  split; intros (b & Hin & Hm & H); exists b; (split; [exact Hin |]);
    (split; [exact Hm |]).
  - apply terminates_false in H. destruct H as (_ & Hr & Ha).
    split; [exact Hr |]. now rewrite Hm, spawnTime_advance in Ha.
  - apply terminates_false. destruct H as [Hr Ha].
    split; [now apply worldHit_noGeometry |]. split; [exact Hr |].
    now rewrite Hm, spawnTime_advance.
Qed.

Lemma X4_bullets_without_geometry_witness :
  In (advance strayBullet substepDelta)
     (updateBullets unbuiltWorld substepDelta 1000 [strayBullet])
  <-> exists b,
        In b [strayBullet] /\ advance strayBullet substepDelta = advance b substepDelta
        /\ Vector3.length (s_center (Bullet.collider (advance strayBullet substepDelta)))
           <= 300
        /\ (1000 - Bullet.spawnTime b <= 3000)%Z.
Proof.
  apply (X4_bullets_without_geometry unbuiltWorld substepDelta 1000%Z [strayBullet]).
  left. reflexivity.
Defined.

Lemma spread_range (r b : R) : 0 <= r < 1 -> 0 < b -> - b <= spread r b < b.
Proof. unfold spread. intros [H0 H1] Hb. split; nra. Qed.

Lemma strictLoop_noGeometry (w : World) (o : Options) (ps : list Player.t) :
  noGeometry w ->
  forall tries n, strictLoop w o ps tries n = (None, (n + 2 * tries)%nat).
Proof.
  intros H. induction tries as [| tries IH]; intros n; cbn [strictLoop].
  - f_equal. lia.
  - unfold strictCandidate. rewrite H, IH. f_equal. lia.
Qed.

Lemma relaxedLoop_noGeometry (w : World) (o : Options) :
  noGeometry w ->
  forall tries n, relaxedLoop w o tries n = (None, (n + 2 * tries)%nat).
Proof.
  intros H. induction tries as [| tries IH]; intros n; cbn [relaxedLoop].
  - f_equal. lia.
  - unfold groundCandidate. rewrite H, IH. f_equal. lia.
Qed.

Lemma ringLoop_noGeometry (w : World) (o : Options) (p : Player.t) :
  noGeometry w ->
  forall tries n, ringLoop w o p tries n = (None, (n + 2 * tries)%nat).
Proof.
  intros H. induction tries as [| tries IH]; intros n; cbn [ringLoop].
  - f_equal. lia.
  - unfold groundCandidate. rewrite H, IH. f_equal. lia.
Qed.

(** X5.  When the ray query cannot yield a usable hit, every candidate of
    every loop of [randomGroundPosition] fails and the search answers with
    the unconditioned sample: height [medkitRadius + 0.02] and, for
    positive bounds, both horizontal coordinates in [[-bounds, bounds)].
    It has then made two [Math.random()] calls when the octree is not
    ready, and otherwise two per try of the three loops, one to pick the
    player of the ring when there is a player, and two for the sample. *)
Theorem X5_placement_without_geometry :
  forall (w : World) (o : Options) (ps : list Player.t) (n : nat),
    rayQueryUseless w ->
    randomInRange w ->
    0 < bounds o ->
    exists x z,
      randomGroundPosition w o ps n
      = Returns (mkJVec (JFin x) (JFin (medkitRadius o + 2 / 100)) (JFin z),
                 (n + exhaustedCalls w o ps)%nat)
      /\ - bounds o <= x < bounds o
      /\ - bounds o <= z < bounds o.
Proof.
  intros w o ps n Hu Hr Hb.
  pose proof (rayQueryUseless_noGeometry w Hu) as Hn.
  unfold randomGroundPosition, exhaustedCalls.
  destruct (octreeReady w); cbn [negb].
  2:{ unfold lastResort. eexists _, _. split.
      - do 3 f_equal. lia.
      - split; apply spread_range; auto. }
  rewrite (strictLoop_noGeometry w o ps Hn), (relaxedLoop_noGeometry w o Hn).
  destruct ps as [| p0 rest].
  - unfold lastResort. eexists _, _. split.
    + do 3 f_equal. lia.
    + split; apply spread_range; auto.
  - destruct (pick_some (p0 :: rest) (random w (n + 2 * maxTries o + 2 * 20))
                (Hr _)) as [p Hp]; [discriminate |].
    rewrite Hp, (ringLoop_noGeometry w o p Hn).
    unfold lastResort. eexists _, _. split.
    + do 3 f_equal. lia.
    + split; apply spread_range; auto.
Qed.

Lemma X5_placement_without_geometry_witness :
  exists x z,
    randomGroundPosition unbuiltWorld defaultOptions [] 0
    = Returns (mkJVec (JFin x) (JFin (medkitRadius defaultOptions + 2 / 100)) (JFin z),
               (0 + exhaustedCalls unbuiltWorld defaultOptions [])%nat)
    /\ - bounds defaultOptions <= x < bounds defaultOptions
    /\ - bounds defaultOptions <= z < bounds defaultOptions.
Proof.
  apply (X5_placement_without_geometry unbuiltWorld defaultOptions [] 0).
  - left. reflexivity.
  - intros i. cbn. lra.
  - cbn. unfold MEDKIT_SPAWN_BOUNDS. lra.
Defined.

(** ** Strict placement *)

(** The clearance test is a test on the planar distance. *)
Lemma nearPlayer_planar :
  forall (o : Options) (pos : Vec) (p : Player.t),
    nearPlayer o pos p = true
    <-> planarSq p pos < minPlayerDist o * minPlayerDist o.
Proof.
  intros o pos p. unfold nearPlayer, planarSq.
  cbv zeta.
  set (d2 := _ + _).
  destruct (Rltb d2 (minPlayerDist o * minPlayerDist o)) eqn:E.
  - apply Rltb_true in E. tauto.
  - apply Rltb_false in E. split; [| intros H; lra].
    intros H. apply andb_prop in H. destruct H as [_ H].
    apply Rltb_true in H. nra.
Qed.

(** X6.  The player-clearance test of the strict placement loop depends on
    the planar distance alone: it rejects a position exactly when the
    centre of the player is closer than [minPlayerDist] in the plane.  The
    second clause, on the feet band with 0.7 times the distance, never
    decides, since its planar threshold is contained in the first. *)
Theorem X6_clearance_is_planar_distance :
  forall (o : Options) (pos : Vec) (p : Player.t),
    nearPlayer o pos p = true
    <-> planarSq p pos < minPlayerDist o * minPlayerDist o.
Proof. exact nearPlayer_planar. Qed.

Lemma strictCandidate_some (w : World) (o : Options) (ps : list Player.t)
    (x z : R) (pos : Vec) :
  strictCandidate w o ps x z = Some pos ->
  - 10 <= Vector3.y pos <= rayHeight o
  /\ (forall p, In p ps -> minPlayerDist o * minPlayerDist o <= planarSq p pos)
  /\ overheadBlocked w o pos = false
  /\ exists hit,
       safeRayIntersect w (mkRay (vec3 x (rayHeight o) z) down) = Some hit
       /\ finitePos (liftedPoint o hit) = Some pos
       /\ JsNum.ltR (normalOrZero hit) (minNormalY o) = false
       /\ forallb (offsetAgrees w o hit pos) SAMPLE_OFFSETS = true.
Proof.
  unfold strictCandidate.
  destruct (safeRayIntersect w _) as [hit |] eqn:Eh; [| discriminate].
  destruct (JsNum.ltR (normalOrZero hit) (minNormalY o)) eqn:En; [discriminate |].
  destruct (finitePos (liftedPoint o hit)) as [q |] eqn:Ef; [| discriminate].
  destruct (Rltb (Vector3.y q) (-10) || Rgtb (Vector3.y q) (rayHeight o)) eqn:Ey;
    [discriminate |].
  destruct (forallb _ SAMPLE_OFFSETS) eqn:Eo; cbn [negb]; [| discriminate].
  destruct (existsb (nearPlayer o q) ps) eqn:Ep; [discriminate |].
  destruct (overheadBlocked w o q) eqn:Eu; [discriminate |].
  intros H; inversion H; subst q; clear H.
  apply Bool.orb_false_iff in Ey. destruct Ey as [Ey1 Ey2].
  apply Rltb_false in Ey1. apply Rgtb_false in Ey2.
  split; [lra |]. split.
  - intros p Hin.
    destruct (Rle_lt_dec (minPlayerDist o * minPlayerDist o) (planarSq p pos))
      as [Hle | Hlt]; [exact Hle |].
    apply nearPlayer_planar in Hlt.
    assert (Hex : existsb (nearPlayer o pos) ps = true)
      by (apply existsb_exists; eauto).
    congruence.
  - split; [exact Eu |]. exists hit. auto.
Qed.

Lemma strictLoop_some (w : World) (o : Options) (ps : list Player.t) (pos : Vec) :
  forall tries n n1,
    strictLoop w o ps tries n = (Some pos, n1) ->
    exists i,
      (n <= i)%nat
      /\ strictCandidate w o ps (spread (random w i) (bounds o))
                         (spread (random w (S i)) (bounds o)) = Some pos.
Proof.
  induction tries as [| tries IH]; intros n n1 H; cbn [strictLoop] in H.
  - discriminate.
  - destruct (strictCandidate w o ps _ _) as [q |] eqn:E.
    + inversion H; subst. exists n. auto.
    + destruct (IH _ _ H) as (i & Hi & Hc). exists i. split; [lia | exact Hc].
Qed.

(** X7.  A position found by the strict loop of the placement search has
    its height between -10 and [rayHeight], lies at least [minPlayerDist]
    in the plane from the centre of every live player, has no overhead hit
    closer than 0.9 times the medkit radius, and is the lifted point of a
    ground hit whose normal passed the flatness test and with which all
    five offset samples agree. *)
Theorem X7_strict_placement_guarantees :
  forall (w : World) (o : Options) (ps : list Player.t) (tries n n1 : nat)
         (pos : Vec),
    strictLoop w o ps tries n = (Some pos, n1) ->
    - 10 <= Vector3.y pos <= rayHeight o
    /\ (forall p, In p ps -> minPlayerDist o * minPlayerDist o <= planarSq p pos)
    /\ overheadBlocked w o pos = false
    /\ exists i hit,
         (n <= i)%nat
         /\ safeRayIntersect w
              (mkRay (vec3 (spread (random w i) (bounds o)) (rayHeight o)
                           (spread (random w (S i)) (bounds o))) down) = Some hit
         /\ finitePos (liftedPoint o hit) = Some pos
         /\ JsNum.ltR (normalOrZero hit) (minNormalY o) = false
         /\ forallb (offsetAgrees w o hit pos) SAMPLE_OFFSETS = true.
Proof.
  intros w o ps tries n n1 pos H.
  destruct (strictLoop_some w o ps pos tries n n1 H) as (i & Hi & Hc).
  destruct (strictCandidate_some w o ps _ _ pos Hc) as (Hy & Hp & Hu & hit & Hh).
  split; [exact Hy |]. split; [exact Hp |]. split; [exact Hu |].
  exists i, hit. split; [exact Hi | exact Hh].
Qed.

(** On the slab the first candidate of the strict loop is accepted. *)
Lemma slab_first_candidate :
  strictLoop slabWorld defaultOptions [] 1 0
  = (Some (vec3 0 (0 + (MEDKIT_RADIUS + 2 / 100)) 0), 2%nat).
Proof.
  cbn [strictLoop]. unfold strictCandidate.
  cbn [safeRayIntersect slabWorld octreeReady rayIntersect negb raw_point
       raw_normal_y raw_distance normalOrZero normal_y JsNum.ltR defaultOptions
       minNormalY liftedPoint point jx jy jz JsNum.addR medkitRadius finitePos
       rayHeight existsb].
  unfold MEDKIT_MIN_GROUND_NORMAL, MEDKIT_RAY_HEIGHT, MEDKIT_RADIUS.
  assert (E1 : Rltb 1 (7 / 10) = false) by (apply Rltb_false; lra).
  rewrite E1.
  assert (E2 : Rltb (Vector3.y (vec3 0 (0 + (35 / 100 + 2 / 100)) 0)) (-10) = false)
    by (apply Rltb_false; cbn; lra).
  assert (E3 : Rgtb (Vector3.y (vec3 0 (0 + (35 / 100 + 2 / 100)) 0)) 30 = false)
    by (apply Rgtb_false; cbn; lra).
  rewrite E2, E3. cbn [orb].
  assert (E4 : forall off,
             offsetAgrees slabWorld
               (mkOptions MEDKIT_TRIES MEDKIT_SPAWN_BOUNDS (7 / 10)
                          MEDKIT_MIN_PLAYER_DISTANCE 30 (35 / 100))
               (mkHit (mkJVec (JFin 0) (JFin 0) (JFin 0)) (Some (JFin 1)) (Some (JFin 30)))
               (vec3 0 (0 + (35 / 100 + 2 / 100)) 0) off = true).
  { intros off. unfold offsetAgrees.
    cbn [safeRayIntersect slabWorld octreeReady rayIntersect negb raw_point
         raw_normal_y raw_distance normalOrZero normal_y point jy JsNum.sub
         JsNum.abs JsNum.gtR JsNum.ltR medkitRadius minNormalY].
    assert (Ea : Rgtb (Rabs (0 - 0)) (35 / 100 + 3 / 10) = false).
    { apply Rgtb_false. replace (0 - 0) with 0 by ring. rewrite Rabs_R0. lra. }
    now rewrite Ea, E1. }
  unfold SAMPLE_OFFSETS. cbn [forallb]. rewrite !E4. cbn [andb negb].
  unfold overheadBlocked.
  cbn [safeRayIntersect slabWorld octreeReady rayIntersect negb raw_point
       raw_normal_y raw_distance distance JsNum.ltR medkitRadius].
  assert (E5 : Rltb 30 (medkitRadius defaultOptions * (9 / 10)) = false)
    by (apply Rltb_false; cbn; unfold MEDKIT_RADIUS; lra).
  now rewrite E5.
Qed.

Lemma X7_strict_placement_witness :
  - 10 <= Vector3.y (vec3 0 (0 + (MEDKIT_RADIUS + 2 / 100)) 0)
  <= rayHeight defaultOptions.
Proof.
  exact (proj1 (X7_strict_placement_guarantees slabWorld defaultOptions [] 1 0 2
                  (vec3 0 (0 + (MEDKIT_RADIUS + 2 / 100)) 0) slab_first_candidate)).
Defined.

(** ** Properties that every reachable player has

    A property of keyed players that every operation of the server on a
    player preserves, and that fresh players have, holds of every player
    of every state reached from a state where it holds. *)

Section RunInvariant.

Variable Q : string -> Player.t -> Prop.

Hypothesis Q_update :
  forall w k p q dt, updatePlayer w p dt = Returns q -> Q k p -> Q k q.
Hypothesis Q_health : forall k p h, Q k p -> Q k (Player.set_health p h).
Hypothesis Q_kills : forall k p n, Q k p -> Q k (Player.set_kills p n).
Hypothesis Q_fresh : forall k n, Q k (Player.fresh k n).
Hypothesis Q_state : forall k p now, Q k p -> Q k (updatePlayerState p now).
Hypothesis Q_join : forall k p name, Q k p -> Q k (applyJoin p name).
Hypothesis Q_input : forall k p r keys, Q k p -> Q k (applyInput p r keys).
Hypothesis Q_reload : forall k p a r t, Q k p -> Q k (Player.set_reload p a r t).

Lemma inv_updatePlayers (w : World) (ps qs : obj Player.t) :
  updatePlayers w ps = Returns qs -> allPlayers Q ps -> allPlayers Q qs.
Proof.
  unfold allPlayers. revert qs.
  induction ps as [| [k p] rest IH]; cbn; intros qs H Hok.
  - inversion H. constructor.
  - destruct (updatePlayer w p substepDelta) as [| p1] eqn:E1; cbn in H;
      [discriminate |].
    destruct (updatePlayers w rest) as [| rest1]; cbn in H; [discriminate |].
    inversion H; subst. inversion Hok; subst.
    constructor; [| auto]. cbn in *. eapply Q_update; eassumption.
Qed.

Lemma inv_substeps (w : World) (now : Z) (n : nat) :
  forall s s1,
    substeps w now n s = Returns s1 ->
    allPlayers Q (players s) -> allPlayers Q (players s1).
Proof.
  induction n as [| n IH]; intros s s1 H Hq; cbn in H.
  - inversion H; subst. exact Hq.
  - unfold substep in H.
    destruct (updatePlayers w (players s)) as [| ps] eqn:E; cbn in H;
      [discriminate |].
    eapply IH; [exact H |].
    apply (frame_checkCollisions Q Q_health Q_kills). cbn.
    eapply inv_updatePlayers; eassumption.
Qed.

Lemma inv_tick (w : World) (now : Z) (s s1 : State) :
  tick w now s = Returns s1 ->
  allPlayers Q (players s) -> allPlayers Q (players s1).
Proof.
  unfold tick. intros H Hq.
  destruct (substeps w now PHYSICS_SUBSTEPS _) as [| s2] eqn:E2; cbn in H;
    [discriminate |].
  destruct (medkitTimer w now (respawnPlayers now s2)) as [| s3] eqn:E3; cbn in H;
    [discriminate |].
  inversion H; subst; clear H. cbn [players set_medkits].
  apply (frame_checkMedkitPickups Q Q_health).
  rewrite (players_medkitTimer w now _ _ E3).
  apply (frame_respawnPlayers Q Q_fresh).
  eapply inv_substeps; [exact E2 |]. cbn.
  unfold allPlayers, reloadSweep in *. apply Forall_map.
  eapply Forall_impl; [| exact Hq]. intros [k p]; cbn. apply Q_state.
Qed.

Lemma inv_onMessage (k : string) (msg : Message) (now : Z) (s : State) :
  allPlayers Q (players s) -> allPlayers Q (players (onMessage k msg now s)).
Proof.
  unfold allPlayers. intros H. unfold onMessage.
  destruct (oget k (players s)) as [player |] eqn:Hg;
    [| destruct msg; assumption].
  assert (Hok : Q k player).
  { apply oget_In in Hg. rewrite Forall_forall in H. exact (H _ Hg). }
  destruct msg; try assumption; cbn [players set_players].
  - apply Forall_oset; [cbn; now apply Q_join | exact H].
  - apply Forall_oset; [cbn; now apply Q_input | exact H].
  - unfold shoot. destruct (_ && _); [| exact H].
    assert (H1 : Forall (fun kv => Q (fst kv) (snd kv))
                   (oset k (Player.set_reload player (Player.ammo player - 1)
                              (Player.isReloading player)
                              (Player.reloadStartTime player)) (players s))).
    { apply Forall_oset; [cbn; now apply Q_reload | exact H]. }
    destruct (_ <=? 0)%Z; cbn; [| exact H1].
    apply Forall_oset; [cbn; now do 2 apply Q_reload | exact H1].
  - unfold reload. destruct (_ && _); [| exact H]. cbn.
    apply Forall_oset; [cbn; now apply Q_reload | exact H].
Qed.

Lemma inv_run (w : World) (es : list Event) :
  forall s s1,
    run w es s = Returns s1 ->
    allPlayers Q (players s) -> allPlayers Q (players s1).
Proof.
  induction es as [| e rest IH]; intros s s1 H Hq; cbn in H.
  - inversion H; subst. exact Hq.
  - destruct (step w e s) as [| s2] eqn:E; cbn in H; [discriminate |].
    apply (IH s2 s1 H).
    destruct e; cbn in E.
    + inversion E; subst. cbn. apply Forall_oset; [apply Q_fresh | exact Hq].
    + inversion E; subst. now apply inv_onMessage.
    + inversion E; subst. cbn. now apply Forall_odel.
    + eapply inv_tick; eassumption.
Qed.

End RunInvariant.

(** ** The body, the pitch and the name of a player *)

Lemma bodyOK_translate (c : Capsule) (d : Vec) :
  Vector3.x (c_end c) = Vector3.x (c_start c) ->
  Vector3.y (c_end c) = Vector3.y (c_start c) + 45 / 100 ->
  Vector3.z (c_end c) = Vector3.z (c_start c) ->
  Vector3.x (c_end (translate c d)) = Vector3.x (c_start (translate c d))
  /\ Vector3.y (c_end (translate c d)) = Vector3.y (c_start (translate c d)) + 45 / 100
  /\ Vector3.z (c_end (translate c d)) = Vector3.z (c_start (translate c d))
  /\ c_radius (translate c d) = c_radius c.
Proof. intros Hx Hy Hz. cbn. repeat split; lra. Qed.

Lemma bodyOK_update (w : World) (p q : Player.t) (dt : R) :
  updatePlayer w p dt = Returns q -> bodyOK p -> bodyOK q.
Proof.
  unfold updatePlayer, bodyOK. intros H (Hx & Hy & Hz & Hr & _).
  set (c0 := translate (Player.collider p) _) in H.
  destruct (bodyOK_translate (Player.collider p)
              (Vector3.multiplyScalar (integrateVelocity p dt) dt) Hx Hy Hz)
    as (Hx0 & Hy0 & Hz0 & Hr0).
  fold c0 in Hx0, Hy0, Hz0, Hr0.
  destruct (capsuleIntersect w c0) as [| result]; cbn in H; [discriminate |].
  assert (Hresp : forall c v f,
             respond result c0 (integrateVelocity p dt) = Returns (c, v, f) ->
             Vector3.x (c_end c) = Vector3.x (c_start c)
             /\ Vector3.y (c_end c) = Vector3.y (c_start c) + 45 / 100
             /\ Vector3.z (c_end c) = Vector3.z (c_start c)
             /\ c_radius c = c_radius c0).
  { intros c v f. unfold respond.
    destruct result as [hit |].
    - destruct (cap_normal hit) as [normal |]; [| discriminate].
      intros E; inversion E; subst.
      apply bodyOK_translate; assumption.
    - intros E; inversion E; subst. auto. }
  destruct (respond result c0 (integrateVelocity p dt)) as [| [[c v] f]] eqn:Er;
    cbn in H; [discriminate |].
  destruct (Hresp c v f eq_refl) as (Hx1 & Hy1 & Hz1 & Hr1).
  destruct (Rltb (Vector3.y (c_start c)) (-25)) eqn:Ef; inversion H; subst;
    cbn [Player.collider Player.set_motion c_start c_end c_radius
         Vector3.x Vector3.y Vector3.z vec3].
  - repeat split; lra.
  - apply Rltb_false in Ef. repeat split; lra.
Qed.

Lemma bodyOK_run (w : World) (es : list Event) (s s1 : State) :
  run w es s = Returns s1 ->
  allPlayers (fun _ => bodyOK) (players s) ->
  allPlayers (fun _ => bodyOK) (players s1).
Proof.
  apply (inv_run (fun _ => bodyOK)).
  - intros w0 k p q dt. apply bodyOK_update.
  - intros; assumption.
  - intros; assumption.
  - intros k n. unfold bodyOK; cbn. repeat split; lra.
  - intros k p now. unfold updatePlayerState. destruct (_ && _); auto.
  - intros k p name. unfold applyJoin. destruct name as [n |]; [| auto].
    destruct (0 <? String.length n)%nat; auto.
  - intros k p r keys. unfold applyInput.
    destruct r as [[[x | | |] [y | | |] [z | | |]] |]; auto.
  - intros; assumption.
Qed.



Lemma clamp_pitch (x : R) : - PI / 2 <= Rmax (- PI / 2) (Rmin (PI / 2) x) <= PI / 2.
Proof.
  pose proof PI_RGT_0 as Hpi.
  unfold Rmax, Rmin.
  destruct (Rle_dec (PI / 2) x); destruct (Rle_dec (- PI / 2) _); lra.
Qed.

Lemma pitchOK_run (w : World) (es : list Event) (s s1 : State) :
  run w es s = Returns s1 ->
  allPlayers (fun _ => pitchOK) (players s) ->
  allPlayers (fun _ => pitchOK) (players s1).
Proof.
  apply (inv_run (fun _ => pitchOK)).
  - intros w0 k p q dt H. unfold updatePlayer in H.
    destruct (capsuleIntersect w0 _) as [| result]; cbn in H; [discriminate |].
    destruct (respond result _ _) as [| [[c v] f]]; cbn in H; [discriminate |].
    destruct (Rltb _ _); inversion H; subst; auto.
  - intros; assumption.
  - intros; assumption.
  - intros k n. unfold pitchOK; cbn. pose proof PI_RGT_0. lra.
  - intros k p now. unfold updatePlayerState. destruct (_ && _); auto.
  - intros k p name. unfold applyJoin. destruct name as [n |]; [| auto].
    destruct (0 <? String.length n)%nat; auto.
  - intros k p r keys Hp. unfold applyInput.
    destruct r as [[[x | | |] [y | | |] [z | | |]] |]; try exact Hp.
    unfold pitchOK; cbn. apply clamp_pitch.
  - intros; assumption.
Qed.

(** X9.  In every state the server reaches, the pitch of every live player
    lies within a quarter turn either way, whatever rotations the clients
    have sent. *)
Theorem X9_pitch_always_clamped :
  forall (w : World) (t0 : Z) (es : list Event) (s : State),
    run w es (initial t0) = Returns s ->
    forall k p, In (k, p) (players s) ->
                - PI / 2 <= Euler.x (Player.rotation p) <= PI / 2.
Proof.
  intros w t0 es s Hrun k p Hin.
  assert (H0 : allPlayers (fun _ => pitchOK) (players (initial t0))) by constructor.
  pose proof (pitchOK_run w es _ _ Hrun H0) as H.
  unfold allPlayers in H. rewrite Forall_forall in H. exact (H (k, p) Hin).
Qed.

Lemma X9_pitch_always_clamped_witness :
  exists s,
    run unbuiltWorld
        [Connect "player_a";
         Receive "player_a" (Input (Some (mkJVec (JFin 7) (JFin 1) (JFin 0))) None) 5;
         Tick 17] (initial 0) = Returns s
    /\ forall k p, In (k, p) (players s) ->
                   - PI / 2 <= Euler.x (Player.rotation p) <= PI / 2.
Proof.
  destruct (run_returns unbuiltWorld
              [Connect "player_a";
               Receive "player_a" (Input (Some (mkJVec (JFin 7) (JFin 1) (JFin 0))) None) 5;
               Tick 17] (initial 0)
              (proj1 unbuiltWorld_sound) (proj2 unbuiltWorld_sound)) as [s Hs].
  exists s. split; [exact Hs |].
  exact (X9_pitch_always_clamped unbuiltWorld 0%Z _ s Hs).
Defined.

Lemma substring_length (m : nat) : forall s, (String.length (substring 0 m s) <= m)%nat.
Proof.
  induction m as [| m IH]; intros [| c s]; cbn; try lia.
  specialize (IH s). lia.
Qed.

Lemma nameOK_run (w : World) (es : list Event) (s s1 : State) :
  run w es s = Returns s1 ->
  allPlayers nameOK (players s) -> allPlayers nameOK (players s1).
Proof.
  apply (inv_run nameOK).
  - intros w0 k p q dt H. unfold updatePlayer in H.
    destruct (capsuleIntersect w0 _) as [| result]; cbn in H; [discriminate |].
    destruct (respond result _ _) as [| [[c v] f]]; cbn in H; [discriminate |].
    destruct (Rltb _ _); inversion H; subst; auto.
  - intros; assumption.
  - intros; assumption.
  - intros k n. now left.
  - intros k p now. unfold updatePlayerState. destruct (_ && _); auto.
  - intros k p name Hp. unfold applyJoin. destruct name as [n |]; [| auto].
    destruct (0 <? String.length n)%nat; [| auto].
    right. cbn. apply substring_length.
  - intros k p r keys Hp. unfold applyInput.
    destruct r as [[[x | | |] [y | | |] [z | | |]] |]; exact Hp.
  - intros; assumption.
Qed.

(** X10.  A join message with a name that is a string and not empty sets
    the display name to its first 16 characters; any other join message
    leaves the player unchanged.  In every state the server reaches, the
    display name of a live player is the player's id or has at most 16
    characters. *)
Theorem X10_display_name_bounded :
  (forall p n,
      n <> ""%string ->
      Player.name (applyJoin p (Some n)) = substring 0 16 n
      /\ (String.length (Player.name (applyJoin p (Some n))) <= 16)%nat)
  /\ (forall p, applyJoin p None = p /\ applyJoin p (Some ""%string) = p)
  /\ (forall w t0 es s,
        run w es (initial t0) = Returns s ->
        forall k p, In (k, p) (players s) ->
                    Player.name p = k \/ (String.length (Player.name p) <= 16)%nat).
Proof.
  split; [| split].
  - intros p n Hn. unfold applyJoin.
    destruct n as [| c n]; [congruence |]. cbn [String.length Nat.ltb Nat.leb].
    cbn [Player.name Player.set_name]. split; [reflexivity |].
    apply substring_length.
  - intros p. split; reflexivity.
  - intros w t0 es s Hrun k p Hin.
    assert (H0 : allPlayers nameOK (players (initial t0))) by constructor.
    pose proof (nameOK_run w es _ _ Hrun H0) as H.
    unfold allPlayers in H. rewrite Forall_forall in H. exact (H (k, p) Hin).
Qed.

Lemma X10_display_name_witness :
  Player.name (applyJoin (Player.fresh "player_a" 0)
                         (Some "a_name_longer_than_sixteen"%string))
  = "a_name_longer_th"%string
  /\ (String.length
        (Player.name (applyJoin (Player.fresh "player_a" 0)
                                (Some "a_name_longer_than_sixteen"%string))) <= 16)%nat.
Proof.
  apply (proj1 X10_display_name_bounded). discriminate.
Defined.

(** ** Medkit population *)

Lemma checkCollisions_static (now : Z) (s : State) :
  medkits (checkCollisions now s) = medkits s
  /\ lastMedkitSpawn (checkCollisions now s) = lastMedkitSpawn s
  /\ randomCalls (checkCollisions now s) = randomCalls s.
Proof. unfold checkCollisions. now destruct (fold_right _ _ _) as [[ps dead] kept]. Qed.

Lemma substeps_static (w : World) (now : Z) (n : nat) :
  forall s s1,
    substeps w now n s = Returns s1 ->
    medkits s1 = medkits s
    /\ lastMedkitSpawn s1 = lastMedkitSpawn s
    /\ randomCalls s1 = randomCalls s.
Proof.
  induction n as [| n IH]; intros s s1 H; cbn in H.
  - now inversion H.
  - unfold substep in H.
    destruct (updatePlayers w (players s)) as [| ps]; cbn in H; [discriminate |].
    destruct (IH _ _ H) as (H1 & H2 & H3).
    rewrite H1, H2, H3.
    match goal with
    | |- context [checkCollisions now ?x] =>
        destruct (checkCollisions_static now x) as (C1 & C2 & C3)
    end.
    rewrite C1, C2, C3. auto.
Qed.

Lemma respawnPlayers_static (now : Z) (s : State) :
  medkits (respawnPlayers now s) = medkits s
  /\ lastMedkitSpawn (respawnPlayers now s) = lastMedkitSpawn s
  /\ randomCalls (respawnPlayers now s) = randomCalls s.
Proof. unfold respawnPlayers. now destruct (fold_left _ _ _). Qed.

(** [spawnMedkit] appends one unflagged medkit when there are fewer than
    [MEDKIT_MAX] and does nothing otherwise. *)
Lemma spawnMedkit_spec (w : World) (s s1 : State) :
  spawnMedkit w s = Returns s1 ->
  (MEDKIT_MAX <= List.length (medkits s) /\ s1 = s)%nat
  \/ ((List.length (medkits s) < MEDKIT_MAX)%nat
      /\ exists m, medkits s1 = medkits s ++ [m] /\ Medkit.pickedUp m = false).
Proof.
  unfold spawnMedkit.
  destruct (MEDKIT_MAX <=? List.length (medkits s))%nat eqn:E.
  - apply Nat.leb_le in E. intros H; inversion H; subst. left. split; [exact E | reflexivity].
  - apply Nat.leb_gt in E.
    destruct (randomGroundPosition _ _ _ _) as [| [pos n1]]; cbn; [discriminate |].
    intros H; inversion H; subst; cbn. right. split; [exact E |]. eauto.
Qed.

Lemma pickupLoop_length (p : Player.t) (ms : list Medkit.t) :
  List.length (snd (pickupLoop p ms)) = List.length ms.
Proof.
  revert p. induction ms as [| m rest IH]; intros p; cbn; [reflexivity |].
  destruct (tryPickup p m) as [p1 m1]. specialize (IH p1).
  destruct (pickupLoop p1 rest) as [p2 rest1]. cbn in *. now rewrite IH.
Qed.

Lemma pickupSweep_length (ps : obj Player.t) (ms : list Medkit.t) :
  List.length (snd (pickupSweep ps ms)) = List.length ms.
Proof.
  revert ms. induction ps as [| [k p] rest IH]; intros ms; cbn; [reflexivity |].
  pose proof (pickupLoop_length p ms) as H1.
  destruct (pickupLoop p ms) as [p1 ms1]. specialize (IH ms1).
  destruct (pickupSweep rest ms1) as [rest1 ms2]. cbn in *. congruence.
Qed.

Lemma removePickedUp_length (ms : list Medkit.t) :
  (List.length (removePickedUp ms) <= List.length ms)%nat.
Proof. unfold removePickedUp. apply filter_length_le. Qed.

(** The medkit bookkeeping of one tick. *)
Lemma tick_medkits (w : World) (now : Z) (s s1 : State) :
  tick w now s = Returns s1 ->
  Forall (fun m => Medkit.pickedUp m = false) (medkits s1)
  /\ ((now - lastMedkitSpawn s <= MEDKIT_RESPAWN_INTERVAL)%Z ->
      lastMedkitSpawn s1 = lastMedkitSpawn s
      /\ randomCalls s1 = randomCalls s
      /\ (List.length (medkits s1) <= List.length (medkits s))%nat)
  /\ ((MEDKIT_RESPAWN_INTERVAL < now - lastMedkitSpawn s)%Z ->
      lastMedkitSpawn s1 = now
      /\ (List.length (medkits s1) <= Nat.max MEDKIT_MAX (List.length (medkits s)))%nat
      /\ (List.length (medkits s1) <= S (List.length (medkits s)))%nat).
Proof.
  intros H. split; [exact (tick_no_claimed_medkit w now s s1 H) |].
  unfold tick in H.
  destruct (substeps w now PHYSICS_SUBSTEPS _) as [| s2] eqn:E2; cbn in H;
    [discriminate |].
  destruct (medkitTimer w now (respawnPlayers now s2)) as [| s3] eqn:E3; cbn in H;
    [discriminate |].
  inversion H; subst; clear H.
  destruct (substeps_static w now _ _ _ E2) as (M2 & L2 & R2). cbn in M2, L2, R2.
  destruct (respawnPlayers_static now s2) as (M3 & L3 & R3).
  assert (Hfinal : (List.length (medkits (set_medkits (checkMedkitPickups s3)
                                   (removePickedUp (medkits (checkMedkitPickups s3)))))
                    <= List.length (medkits s3))%nat
                   /\ lastMedkitSpawn (set_medkits (checkMedkitPickups s3)
                                        (removePickedUp (medkits (checkMedkitPickups s3))))
                      = lastMedkitSpawn s3
                   /\ randomCalls (set_medkits (checkMedkitPickups s3)
                                     (removePickedUp (medkits (checkMedkitPickups s3))))
                      = randomCalls s3).
  { unfold checkMedkitPickups.
    pose proof (pickupSweep_length (players s3) (medkits s3)) as Hl.
    destruct (pickupSweep _ _) as [ps ms]. cbn in *.
    split; [| auto]. rewrite <- Hl. apply removePickedUp_length. }
  destruct Hfinal as (Hlen & Hlast & Hrc).
  unfold medkitTimer in E3. rewrite L3, L2 in E3.
  rewrite Hlast, Hrc.
  split; intros Ht.
  - destruct (now - lastMedkitSpawn s >? MEDKIT_RESPAWN_INTERVAL)%Z eqn:Eg.
    + apply Z.gtb_lt in Eg. lia.
    + assert (E : s3 = respawnPlayers now s2) by (now inversion E3).
      rewrite E in *. rewrite L3, L2, R3, R2.
      split; [reflexivity |]. split; [reflexivity |].
      rewrite M3, M2 in Hlen. exact Hlen.
  - destruct (now - lastMedkitSpawn s >? MEDKIT_RESPAWN_INTERVAL)%Z eqn:Eg.
    + destruct (spawnMedkit w (respawnPlayers now s2)) as [| s4] eqn:E4; cbn in E3;
        [discriminate |].
      assert (E : lastMedkitSpawn s3 = now /\ medkits s3 = medkits s4)
        by (inversion E3; auto).
      destruct E as [El Em]. rewrite Em in Hlen.
      split; [exact El |].
      destruct (spawnMedkit_spec w _ _ E4) as [[Hfull Heq] | (Hroom & m & Hm & _)].
      * subst s4. rewrite M3, M2 in Hlen. lia.
      * rewrite Hm, length_app, M3, M2 in Hlen.
        change (List.length [m]) with 1%nat in Hlen.
        rewrite M3, M2 in Hroom. lia.
    + destruct (Z.gtb_spec (now - lastMedkitSpawn s) MEDKIT_RESPAWN_INTERVAL);
        [discriminate | lia].
Qed.

(** A message touches the live set, the bullets and the bullet counter
    only. *)
Lemma onMessage_static (k : string) (msg : Message) (now : Z) (s : State) :
  medkits (onMessage k msg now s) = medkits s
  /\ deadPlayers (onMessage k msg now s) = deadPlayers s
  /\ lastMedkitSpawn (onMessage k msg now s) = lastMedkitSpawn s
  /\ randomCalls (onMessage k msg now s) = randomCalls s
  /\ clients (onMessage k msg now s) = clients s.
Proof.
  unfold onMessage.
  destruct (oget k (players s)) as [player |]; [| destruct msg; auto].
  destruct msg; auto.
  - unfold shoot. destruct (_ && _); [| auto].
    destruct (_ <=? 0)%Z; cbn; auto.
  - unfold reload. destruct (_ && _); cbn; auto.
Qed.

Lemma medkits_run (w : World) (es : list Event) :
  forall s s1,
    run w es s = Returns s1 ->
    (List.length (medkits s) <= MEDKIT_MAX)%nat
    /\ Forall (fun m => Medkit.pickedUp m = false) (medkits s) ->
    (List.length (medkits s1) <= MEDKIT_MAX)%nat
    /\ Forall (fun m => Medkit.pickedUp m = false) (medkits s1).
Proof.
  induction es as [| e rest IH]; intros s s1 H Hok; cbn in H.
  - now inversion H; subst.
  - destruct (step w e s) as [| s2] eqn:E; cbn in H; [discriminate |].
    apply (IH s2 s1 H).
    destruct e as [k | k msg now | k | now]; cbn in E.
    + inversion E; subst. exact Hok.
    + inversion E; subst.
      destruct (onMessage_static k msg now s) as (Hm & _). now rewrite Hm.
    + inversion E; subst. exact Hok.
    + destruct (tick_medkits w now s s2 E) as (Hclean & Hno & Hyes).
      split; [| exact Hclean].
      destruct Hok as [Hlen _].
      destruct (Z_le_gt_dec (now - lastMedkitSpawn s) MEDKIT_RESPAWN_INTERVAL)
        as [Hle | Hgt].
      * destruct (Hno Hle) as (_ & _ & Hl). lia.
      * destruct (Hyes ltac:(lia)) as (_ & Hl & _). lia.
Qed.

(** X11.  In every state the server reaches there are at most
    [MEDKIT_MAX] = 10 medkits, and none of them is flagged as picked up:
    a claimed medkit never survives the tick that claimed it. *)
Theorem X11_medkit_population_capped :
  forall (w : World) (t0 : Z) (es : list Event) (s : State),
    run w es (initial t0) = Returns s ->
    (List.length (medkits s) <= 10)%nat
    /\ Forall (fun m => Medkit.pickedUp m = false) (medkits s).
Proof.
  intros w t0 es s Hrun.
  apply (medkits_run w es (initial t0) s Hrun).
  split; [cbn; unfold MEDKIT_MAX; lia | constructor].
Qed.

Lemma X11_medkit_population_witness :
  exists s,
    run unbuiltWorld [Connect "player_a"; Tick 5000; Tick 10000] (initial 0)
    = Returns s
    /\ (List.length (medkits s) <= 10)%nat
    /\ Forall (fun m => Medkit.pickedUp m = false) (medkits s).
Proof.
  destruct (run_returns unbuiltWorld [Connect "player_a"; Tick 5000; Tick 10000]
              (initial 0) (proj1 unbuiltWorld_sound) (proj2 unbuiltWorld_sound))
    as [s Hs].
  exists s. split; [exact Hs |].
  exact (X11_medkit_population_capped unbuiltWorld 0%Z _ s Hs).
Defined.

(** X12.  The medkit timer of a tick.  When at most 4000 ms have passed
    since the last spawn, the tick spawns nothing: the spawn time and the
    count of random draws are unchanged and the number of medkits does not
    grow.  When more than 4000 ms have passed, the spawn time becomes the
    time of the tick, whether or not the cap left room for a medkit, and
    the number of medkits grows by at most one. *)
Theorem X12_medkit_spawn_timer :
  forall (w : World) (now : Z) (s s1 : State),
    tick w now s = Returns s1 ->
    ((now - lastMedkitSpawn s <= 4000)%Z ->
     lastMedkitSpawn s1 = lastMedkitSpawn s
     /\ randomCalls s1 = randomCalls s
     /\ (List.length (medkits s1) <= List.length (medkits s))%nat)
    /\ ((4000 < now - lastMedkitSpawn s)%Z ->
        lastMedkitSpawn s1 = now
        /\ (List.length (medkits s1) <= S (List.length (medkits s)))%nat).
Proof.
  intros w now s s1 H.
  destruct (tick_medkits w now s s1 H) as (_ & Hno & Hyes).
  split; [exact Hno |].
  intros Ht. destruct (Hyes Ht) as (Hl & _ & Hs). auto.
Qed.

Lemma X12_medkit_spawn_timer_witness :
  exists s1,
    tick unbuiltWorld 5000 (onConnect "player_a" (initial 0)) = Returns s1
    /\ lastMedkitSpawn s1 = 5000%Z.
Proof.
  destruct (tick_returns unbuiltWorld 5000 (onConnect "player_a" (initial 0))
              (proj1 unbuiltWorld_sound) (proj2 unbuiltWorld_sound)) as [s1 Hs].
  exists s1. split; [exact Hs |].
  apply (proj2 (X12_medkit_spawn_timer unbuiltWorld 5000%Z _ s1 Hs)).
  cbn. lia.
Defined.

(** ** The pickup sweep as a whole *)






(** ** Messages *)

(** A player who is reloading gets neither a new reload nor a shot. *)
Lemma reloading_blocks (k : string) (t : Z) (s : State) (p : Player.t) :
  oget k (players s) = Some p -> Player.isReloading p = true ->
  onMessage k Reload t s = s /\ onMessage k Shoot t s = s.
Proof.
  intros Hg Hr. unfold onMessage. rewrite Hg. unfold reload, shoot.
  now rewrite Hr.
Qed.

Lemma reload_twice (k : string) (t1 t2 : Z) (s : State) :
  onMessage k Reload t2 (onMessage k Reload t1 s) = onMessage k Reload t1 s.
Proof.
  destruct (oget k (players s)) as [player |] eqn:Hg.
  - destruct (negb (Player.isReloading player)
              && (Player.ammo player <? Player.maxAmmo player)%Z) eqn:E.
    + assert (E1 : onMessage k Reload t1 s
                   = set_players s
                       (oset k (Player.set_reload player (Player.ammo player) true t1)
                             (players s))).
      { unfold onMessage. rewrite Hg. unfold reload. now rewrite E. }
      rewrite E1.
      apply (reloading_blocks k t2 _
               (Player.set_reload player (Player.ammo player) true t1));
        [apply oget_oset_eq | reflexivity].
    + assert (E1 : onMessage k Reload t1 s = s).
      { unfold onMessage. rewrite Hg. unfold reload. now rewrite E. }
      rewrite E1. unfold onMessage. rewrite Hg. unfold reload. now rewrite E.
  - assert (E1 : onMessage k Reload t1 s = s)
      by (unfold onMessage; now rewrite Hg).
    rewrite E1. unfold onMessage. now rewrite Hg.
Qed.

(** X14.  A reload request is accepted only from a player who is not
    reloading and whose clip is not full: it sets the flag and the start
    time and leaves ammo and bullets alone; otherwise it changes nothing.
    A second request does not restart the timer, and no shot is accepted
    while the reload runs. *)
Theorem X14_reload_request :
  (forall k t1 t2 s,
      onMessage k Reload t2 (onMessage k Reload t1 s) = onMessage k Reload t1 s)
  /\ (forall k t s player,
        oget k (players s) = Some player ->
        Player.isReloading player = true
        \/ (Player.maxAmmo player <= Player.ammo player)%Z ->
        onMessage k Reload t s = s)
  /\ (forall k t1 t2 s player,
        oget k (players s) = Some player ->
        Player.isReloading player = false ->
        (Player.ammo player < Player.maxAmmo player)%Z ->
        oget k (players (onMessage k Reload t1 s))
        = Some (Player.set_reload player (Player.ammo player) true t1)
        /\ bullets (onMessage k Reload t1 s) = bullets s
        /\ onMessage k Shoot t2 (onMessage k Reload t1 s) = onMessage k Reload t1 s).
Proof.
  split; [exact reload_twice |]. split.
  - intros k t s player Hg H. unfold onMessage. rewrite Hg. unfold reload.
    destruct H as [H | H].
    + now rewrite H.
    + apply Z.ltb_ge in H. rewrite H. now rewrite Bool.andb_false_r.
  - intros k t1 t2 s player Hg Hr Ha.
    assert (E1 : onMessage k Reload t1 s
                 = set_players s
                     (oset k (Player.set_reload player (Player.ammo player) true t1)
                           (players s))).
    { unfold onMessage. rewrite Hg. unfold reload. rewrite Hr.
      apply Z.ltb_lt in Ha. now rewrite Ha. }
    rewrite E1. cbn [players set_players bullets].
    split; [apply oget_oset_eq |]. split; [reflexivity |].
    apply (reloading_blocks k t2 _
             (Player.set_reload player (Player.ammo player) true t1));
      [apply oget_oset_eq | reflexivity].
Qed.

Lemma X14_reload_request_witness :
  oget "player_a"
       (players (onMessage "player_a" Reload 9
                   (onMessage "player_a" Shoot 5 (onConnect "player_a" (initial 0)))))
  = Some (Player.set_reload
            (Player.set_reload (Player.fresh "player_a" 0) 29 false 0) 29 true 9)
  /\ bullets (onMessage "player_a" Reload 9
                (onMessage "player_a" Shoot 5 (onConnect "player_a" (initial 0))))
     = bullets (onMessage "player_a" Shoot 5 (onConnect "player_a" (initial 0)))
  /\ onMessage "player_a" Shoot 12
       (onMessage "player_a" Reload 9
          (onMessage "player_a" Shoot 5 (onConnect "player_a" (initial 0))))
     = onMessage "player_a" Reload 9
         (onMessage "player_a" Shoot 5 (onConnect "player_a" (initial 0))).
Proof.
  apply (proj2 (proj2 X14_reload_request) "player_a"%string 9%Z 12%Z
           (onMessage "player_a" Shoot 5 (onConnect "player_a" (initial 0)))
           (Player.set_reload (Player.fresh "player_a" 0) 29 false 0)).
  - reflexivity.
  - reflexivity.
  - cbn. lia.
Defined.

(** X15.  A message changes nothing but the entry of its sender in the
    live set, the bullets and the bullet counter: the other players, the
    pending respawns, the medkits, the medkit timer, the random draws and
    the connections stay as they are.  A message from a sender who is not
    in the live set (dead or unknown) changes nothing at all, and so does
    a message that does not parse or has an unknown type.  Every bullet it
    adds belongs to the sender and carries the time of the message. *)
Theorem X15_message_isolation :
  forall (k : string) (msg : Message) (now : Z) (s : State),
    (forall j, j <> k ->
               oget j (players (onMessage k msg now s)) = oget j (players s))
    /\ (oget k (players s) = None \/ msg = Garbage \/ msg = Other ->
        onMessage k msg now s = s)
    /\ (oget k (players (onMessage k msg now s)) = None
        <-> oget k (players s) = None)
    /\ medkits (onMessage k msg now s) = medkits s
    /\ deadPlayers (onMessage k msg now s) = deadPlayers s
    /\ lastMedkitSpawn (onMessage k msg now s) = lastMedkitSpawn s
    /\ randomCalls (onMessage k msg now s) = randomCalls s
    /\ clients (onMessage k msg now s) = clients s
    /\ (forall b,
          In b (bullets (onMessage k msg now s)) ->
          In b (bullets s)
          \/ exists p, oget k (players s) = Some p
                       /\ Bullet.ownerId b = Player.id p
                       /\ Bullet.spawnTime b = now).
Proof.
  intros k msg now s.
  split; [| split; [| split; [| split; [| split; [| split; [| split; [| split]]]]]]];
    try apply (onMessage_static k msg now s).
  - intros j Hj. unfold onMessage.
    destruct (oget k (players s)) as [player |]; [| destruct msg; reflexivity].
    destruct msg; try reflexivity; cbn [players set_players].
    + now apply oget_oset_neq.
    + now apply oget_oset_neq.
    + unfold shoot. destruct (_ && _); [| reflexivity].
      destruct (_ <=? 0)%Z; cbn [players set_players createBullet];
        rewrite ?oget_oset_neq by exact Hj; reflexivity.
    + unfold reload. destruct (_ && _); [| reflexivity]. cbn.
      now apply oget_oset_neq.
  - intros [H | [H | H]]; unfold onMessage.
    + rewrite H. now destruct msg.
    + now subst msg.
    + subst msg. now destruct (oget k (players s)).
  - unfold onMessage.
    destruct (oget k (players s)) as [player |] eqn:Hg;
      [| destruct msg; rewrite ?Hg; tauto].
    split; [| discriminate].
    destruct msg; cbn [players set_players]; rewrite ?Hg, ?oget_oset_eq;
      try discriminate.
    + unfold shoot. destruct (_ && _); [| now rewrite Hg].
      destruct (_ <=? 0)%Z; cbn [players set_players createBullet];
        rewrite oget_oset_eq; discriminate.
    + unfold reload. destruct (_ && _); [| now rewrite Hg]. cbn.
      rewrite oget_oset_eq. discriminate.
  - intros b Hin. unfold onMessage in Hin.
    destruct (oget k (players s)) as [player |] eqn:Hg;
      [| destruct msg; now left].
    destruct msg; try (now left).
    + unfold shoot in Hin. destruct (_ && _); [| now left].
      assert (Hb : In b (bullets s)
                   \/ (Bullet.ownerId b = Player.id player
                       /\ Bullet.spawnTime b = now)).
      { destruct (_ <=? 0)%Z; cbn [bullets set_players createBullet] in Hin;
          apply in_app_or in Hin; destruct Hin as [Hin | [Hin | []]];
          try (now left); subst b; right; split; reflexivity. }
      destruct Hb as [Hb | [Ho Ht]]; [now left |].
      right. exists player. auto.
    + unfold reload in Hin. destruct (_ && _); now left.
Qed.

Lemma X15_message_isolation_witness :
  onMessage "player_a" Shoot 5 (initial 0) = initial 0.
Proof.
  apply (proj1 (proj2 (X15_message_isolation "player_a" Shoot 5 (initial 0)))).
  left. reflexivity.
Defined.

(** ** Friction and sliding *)








(** ** The hit test as a whole *)

Lemma In_oset {V : Type} (k : string) (v : V) (o : obj V) (kv : string * V) :
  In kv (oset k v o) -> kv = (k, v) \/ In kv o.
Proof.
  induction o as [| [k0 v0] rest IH]; cbn.
  - intros [H | []]. now left.
  - destruct (String.eqb k0 k) eqn:E.
    + apply String.eqb_eq in E. subst k0.
      intros [H | H]; [now left | right; now right].
    + intros [H | H]; [right; now left |].
      destruct (IH H) as [H1 | H1]; [now left | right; now right].
Qed.

Lemma In_odel {V : Type} (k : string) (o : obj V) (kv : string * V) :
  In kv (odel k o) -> In kv o /\ fst kv <> k.
Proof.
  unfold odel. intros H. apply filter_In in H. destruct H as [Hin Hk].
  split; [exact Hin |]. now apply Bool.negb_true_iff, String.eqb_neq in Hk.
Qed.

Lemma descends_refl (ps : obj Player.t) (dead : obj Dead.t) :
  descends ps dead ps dead.
Proof.
  unfold descends. repeat split; auto.
  intros k p1 Hin. exists p1. repeat split; auto; lia.
Qed.

Lemma descends_trans (ps ps1 ps2 : obj Player.t) (dead dead1 dead2 : obj Dead.t) :
  descends ps dead ps1 dead1 -> descends ps1 dead1 ps2 dead2 ->
  descends ps dead ps2 dead2.
Proof.
  intros (A1 & B1 & C1) (A2 & B2 & C2). unfold descends. repeat split.
  - intros k Hk. destruct (A1 k Hk) as [H | H]; [apply A2, H | right; apply B2, H].
  - intros k Hk. apply B2, B1, Hk.
  - intros k p2 Hin. destruct (C2 k p2 Hin) as (p1 & Hin1 & Hh1 & Hk1 & Hi1 & Hc1).
    destruct (C1 k p1 Hin1) as (p & Hin0 & Hh0 & Hk0 & Hi0 & Hc0).
    exists p. repeat split; try assumption; try congruence; lia.
Qed.

Lemma collideBullet_descends (now : Z) (b : Bullet.t) (ps : obj Player.t)
    (dead : obj Dead.t) (kept : list Bullet.t) :
  keyed ps ->
  descends ps dead (fst (fst (collideBullet now b (ps, dead, kept))))
           (snd (fst (collideBullet now b (ps, dead, kept)))).
Proof.
  intros Hkey.
  destruct (hitTarget b ps) as [[k1 player] |] eqn:Eh.
  2:{ unfold collideBullet. rewrite Eh. cbn. apply descends_refl. }
  pose proof (hitTarget_some b ps k1 player Eh) as (Hin & Hown & _).
  assert (Hid : Player.id player = k1).
  { unfold keyed, allPlayers in Hkey. rewrite Forall_forall in Hkey.
    exact (Hkey _ Hin). }
  destruct (collideBullet_hit now b ps dead kept k1 player Hkey Eh)
    as (ps1 & dead1 & Hc & Hlive & Hkill).
  assert (Hr : resolveHit now b k1 player ps dead = (ps1, dead1)).
  { unfold collideBullet in Hc. rewrite Eh in Hc.
    destruct (resolveHit now b k1 player ps dead). now inversion Hc. }
  rewrite Hc. cbn [fst snd].
  (* the entries of the new live set *)
  assert (HC : forall k p1,
             In (k, p1) ps1 ->
             exists p, In (k, p) ps
                       /\ (Player.health p1 <= Player.health p)%Z
                       /\ (Player.kills p <= Player.kills p1)%Z
                       /\ Player.id p1 = Player.id p
                       /\ Player.collider p1 = Player.collider p).
  { intros k p1 Hp1. unfold resolveHit in Hr.
    set (hurt := Player.set_health player (Player.health player - 20)) in Hr.
    assert (Hhurt : forall j q, In (j, q) (oset k1 hurt ps) ->
               exists p, In (j, p) ps
                         /\ (Player.health q <= Player.health p)%Z
                         /\ (Player.kills p <= Player.kills q)%Z
                         /\ Player.id q = Player.id p
                         /\ Player.collider q = Player.collider p).
    { intros j q Hq. apply In_oset in Hq. destruct Hq as [E | Hq].
      - inversion E; subst. exists player. unfold hurt; cbn.
        repeat split; auto; lia.
      - exists q. repeat split; auto; lia. }
    destruct (Player.health hurt <=? 0)%Z.
    - inversion Hr as [[Hps Hd]]. clear Hr. rewrite <- Hps in Hp1.
      apply In_odel in Hp1. destruct Hp1 as [Hp1 _].
      destruct (oget (Bullet.ownerId b) (oset k1 hurt ps)) as [owner |] eqn:Eo.
      + apply In_oset in Hp1. destruct Hp1 as [E | Hp1]; [| now apply Hhurt].
        inversion E; subst. apply oget_In in Eo.
        destruct (Hhurt _ _ Eo) as (p & Hp & Hh & Hk & Hi & Hcol).
        exists p. cbn. repeat split; auto; lia.
      + now apply Hhurt.
    - inversion Hr as [[Hps Hd]]. rewrite <- Hps in Hp1. now apply Hhurt. }
  unfold descends. split; [| split; [| exact HC]].
  - intros k Hk.
    destruct (Z_lt_le_dec 0 (Player.health player - 20)) as [Hl | Hl].
    + destruct (Hlive Hl) as [E1 E2]. subst ps1 dead1. left.
      destruct (String.eqb k k1) eqn:E.
      * apply String.eqb_eq in E. subst k. rewrite oget_oset_eq. discriminate.
      * apply String.eqb_neq in E. now rewrite oget_oset_neq.
    + destruct (Hkill Hl) as (_ & E2 & Hcredit & _ & Hothers). subst dead1.
      destruct (String.eqb k k1) eqn:E.
      * apply String.eqb_eq in E. subst k. right. rewrite oget_oset_eq. discriminate.
      * apply String.eqb_neq in E. left.
        destruct (String.eqb k (Bullet.ownerId b)) eqn:Eo.
        -- apply String.eqb_eq in Eo. subst k.
           destruct (oget (Bullet.ownerId b) ps) as [owner |] eqn:Eg; [| congruence].
           rewrite (Hcredit owner eq_refl). discriminate.
        -- apply String.eqb_neq in Eo. now rewrite (Hothers k E Eo).
  - intros k Hk.
    destruct (Z_lt_le_dec 0 (Player.health player - 20)) as [Hl | Hl].
    + destruct (Hlive Hl) as [_ E2]. now subst dead1.
    + destruct (Hkill Hl) as (_ & E2 & _). subst dead1.
      destruct (String.eqb k k1) eqn:E.
      * apply String.eqb_eq in E. subst k. rewrite oget_oset_eq. discriminate.
      * apply String.eqb_neq in E. now rewrite oget_oset_neq.
Qed.

Lemma keyed_collideBullet (now : Z) (b : Bullet.t) (ps : obj Player.t)
    (dead : obj Dead.t) (kept : list Bullet.t) :
  keyed ps -> keyed (fst (fst (collideBullet now b (ps, dead, kept)))).
Proof.
  intros Hkey. unfold collideBullet.
  destruct (hitTarget b ps) as [[k1 player] |] eqn:Eh; [| exact Hkey].
  pose proof (hitTarget_some b ps k1 player Eh) as (Hin & _).
  pose proof (frame_resolveHit (fun k p => Player.id p = k)
                (fun _ _ _ h => h) (fun _ _ _ h => h) now b k1 player ps dead Hkey)
    as HR.
  unfold keyed, allPlayers in Hkey. rewrite Forall_forall in Hkey.
  specialize (HR (Hkey _ Hin)).
  destruct (resolveHit now b k1 player ps dead) as [ps1 dead1]. exact HR.
Qed.

(** X18.  [checkCollisions] loses nobody and invents nobody.  From a live
    set keyed by id: every player who was alive is alive afterwards or has
    a pending-respawn record; every pending-respawn record stays; every
    player who is alive afterwards was alive before, with the same id and
    capsule, at most the health and at least the kills of before; and the
    bullets that are left were there before. *)
Theorem X18_hit_test_loses_nobody :
  forall (now : Z) (s : State),
    keyed (players s) ->
    descends (players s) (deadPlayers s)
             (players (checkCollisions now s)) (deadPlayers (checkCollisions now s))
    /\ keyed (players (checkCollisions now s))
    /\ incl (bullets (checkCollisions now s)) (bullets s).
Proof.
  intros now s Hkey.
  split; [| split].
  - unfold checkCollisions.
    assert (HF : forall bs,
               keyed (fst (fst (fold_right (collideBullet now)
                                           (players s, deadPlayers s, []) bs)))
               /\ descends (players s) (deadPlayers s)
                    (fst (fst (fold_right (collideBullet now)
                                          (players s, deadPlayers s, []) bs)))
                    (snd (fst (fold_right (collideBullet now)
                                          (players s, deadPlayers s, []) bs)))).
    { induction bs as [| b rest IH]; cbn [fold_right].
      - cbn. split; [exact Hkey | apply descends_refl].
      - destruct (fold_right (collideBullet now) _ rest) as [[ps dead] kept].
        cbn [fst snd] in IH. destruct IH as [Hk Hd].
        split; [now apply keyed_collideBullet |].
        eapply descends_trans; [exact Hd |].
        now apply collideBullet_descends. }
    destruct (HF (bullets s)) as [_ Hd].
    destruct (fold_right _ _ _) as [[ps dead] kept]. exact Hd.
  - unfold keyed.
    apply (frame_checkCollisions (fun k p => Player.id p = k));
      try (intros; assumption).
  - intros b Hin. apply checkCollisions_survivors in Hin. tauto.
Qed.

Lemma X18_hit_test_witness :
  descends (players duel) (deadPlayers duel)
           (players (checkCollisions 1000 duel)) (deadPlayers (checkCollisions 1000 duel)).
Proof.
  apply (X18_hit_test_loses_nobody 1000%Z duel). exact (proj1 duel_target).
Defined.

(** ** Runs that complete *)

(** X19.  The only faults of the server loop are those of the capsule
    query and of the random source.  With a capsule query that does not
    throw and reports a normal with every contact, and [Math.random()] in
    its range, no sequence of connections, messages, closes and ticks
    aborts, from any state; the state it ends in keeps every live player
    under the player's own id with positive health. *)
Theorem X19_no_event_aborts :
  forall (w : World) (es : list Event) (s : State),
    capsuleQuerySound w -> randomInRange w -> Inv s ->
    exists s1, run w es s = Returns s1 /\ Inv s1.
Proof.
  intros w es s Hs Hr Hi.
  destruct (run_returns w es s Hs Hr) as [s1 E].
  exists s1. split; [exact E |]. exact (Inv_run w es s s1 E Hi).
Qed.

Lemma X19_no_event_aborts_witness :
  exists s1,
    run unbuiltWorld
        [Connect "player_a"; Receive "player_a" Shoot 5; Tick 17;
         Close "player_a"; Tick 5000] (initial 0) = Returns s1
    /\ Inv s1.
Proof.
  apply (X19_no_event_aborts unbuiltWorld
           [Connect "player_a"; Receive "player_a" Shoot 5%Z; Tick 17%Z;
            Close "player_a"; Tick 5000%Z] (initial 0%Z)).
  - intros c. now left.
  - intros i. cbn. lra.
  - constructor.
Defined.

(** ** The two distance helpers *)


(** ** Connections *)

Lemma odel_oset_absent {V : Type} (k : string) (v : V) (o : obj V) :
  oget k o = None -> odel k (oset k v o) = o.
Proof.
  unfold odel. induction o as [| [k0 v0] rest IH]; cbn.
  - intros _. now rewrite String.eqb_refl.
  - destruct (String.eqb k0 k) eqn:E; [discriminate |].
    intros H. cbn. rewrite E. cbn. f_equal. exact (IH H).
Qed.

Lemma odel_twice {V : Type} (k : string) (o : obj V) :
  odel k (odel k o) = odel k o.
Proof.
  unfold odel. induction o as [| [k0 v0] rest IH]; cbn; [reflexivity |].
  destruct (String.eqb k0 k) eqn:E; cbn; [exact IH |].
  rewrite E. cbn. now f_equal.
Qed.

Lemma filter_other_absent (k : string) (cs : list string) :
  ~ In k cs -> filter (fun c => negb (String.eqb c k)) cs = cs.
Proof.
  induction cs as [| c rest IH]; cbn; [reflexivity |].
  intros H. destruct (String.eqb c k) eqn:E.
  - apply String.eqb_eq in E. exfalso. apply H. now left.
  - cbn. f_equal. apply IH. intros Hin. apply H. now right.
Qed.

Lemma filter_other_twice (k : string) (cs : list string) :
  filter (fun c => negb (String.eqb c k)) (filter (fun c => negb (String.eqb c k)) cs)
  = filter (fun c => negb (String.eqb c k)) cs.
Proof.
  induction cs as [| c rest IH]; cbn; [reflexivity |].
  destruct (String.eqb c k) eqn:E; cbn; [exact IH |].
  rewrite E. cbn. now f_equal.
Qed.

(** X21.  Connecting puts a fresh player (spawn pose, health 100, 30
    rounds, no kills, named after the id) under the new id and leaves the
    other players alone.  Closing removes the player of the connection
    from the live set and nothing else: the other players, the bullets
    already fired and a pending respawn stay.  Closing twice is closing
    once, and a connection closed before anything else happened leaves
    the state it found. *)
Theorem X21_connect_and_close :
  forall (k : string) (s : State),
    oget k (players (onConnect k s)) = Some (Player.fresh k 0)
    /\ (forall j, j <> k -> oget j (players (onConnect k s)) = oget j (players s))
    /\ oget k (players (onClose k s)) = None
    /\ (forall j, j <> k -> oget j (players (onClose k s)) = oget j (players s))
    /\ bullets (onClose k s) = bullets s
    /\ deadPlayers (onClose k s) = deadPlayers s
    /\ onClose k (onClose k s) = onClose k s
    /\ (oget k (players s) = None -> ~ In k (clients s) ->
        onClose k (onConnect k s) = s).
Proof.
  intros k s. repeat split.
  - cbn. apply oget_oset_eq.
  - intros j Hj. cbn. now apply oget_oset_neq.
  - cbn. apply oget_odel_eq.
  - intros j Hj. cbn. now apply oget_odel_neq.
  - unfold onClose.
    cbn [players bullets medkits deadPlayers nextBulletId lastMedkitSpawn
         randomCalls clients].
    now rewrite odel_twice, filter_other_twice.
  - intros Hk Hc. destruct s as [ps bs ms dead nb lm rc cs]. unfold onClose, onConnect.
    cbn [players bullets medkits deadPlayers nextBulletId lastMedkitSpawn
         randomCalls clients] in *.
    rewrite odel_oset_absent by exact Hk.
    rewrite filter_app, filter_other_absent by exact Hc.
    cbn. rewrite String.eqb_refl. cbn. now rewrite app_nil_r.
Qed.

Lemma X21_connect_and_close_witness :
  onClose "player_a" (onConnect "player_a" (initial 0)) = initial 0.
Proof.
  apply (X21_connect_and_close "player_a"%string (initial 0%Z)).
  - reflexivity.
  - intros [].
Defined.

(** ** The update message *)

Lemma playerState_fields (p : Player.t) :
  bodyOK p ->
  ps_position (playerState p)
  = vec3 (Vector3.x (c_start (Player.collider p)))
         (Vector3.y (c_start (Player.collider p)) - 35 / 100)
         (Vector3.z (c_start (Player.collider p))).
Proof.
  unfold bodyOK, playerState. cbn zeta. intros (Hx & Hy & Hz & Hr & _).
  cbn [ps_position]. unfold vec3, Vector3.multiplyScalar, Vector3.add.
  cbn [Vector3.x Vector3.y Vector3.z]. rewrite Hx, Hz, Hr. f_equal; field.
Qed.

(** X22.  The ['update'] message of a tick, in every state the server
    reaches.  It lists the live players in the order of the object, each
    under the player's own key; the position it reports is the foot of the
    capsule (the start point lowered by the radius 0.35), never below
    -25.35; the health it reports is positive and at most the maximum; the
    bullets it lists have pairwise distinct ids; and it lists at most 10
    medkits. *)
Theorem X22_update_message :
  forall (w : World) (t0 : Z) (es : list Event) (s : State),
    run w es (initial t0) = Returns s ->
    map ps_id (gs_players (snapshot s)) = okeys (players s)
    /\ (forall k p,
          In (k, p) (players s) ->
          In (playerState p) (gs_players (snapshot s))
          /\ ps_id (playerState p) = k
          /\ ps_position (playerState p)
             = vec3 (Vector3.x (c_start (Player.collider p)))
                    (Vector3.y (c_start (Player.collider p)) - 35 / 100)
                    (Vector3.z (c_start (Player.collider p)))
          /\ - 25 - 35 / 100 <= Vector3.y (ps_position (playerState p))
          /\ (0 < ps_health (playerState p) <= ps_maxHealth (playerState p))%Z)
    /\ NoDup (map fst (gs_bullets (snapshot s)))
    /\ (List.length (gs_medkits (snapshot s)) <= 10)%nat.
Proof.
  intros w t0 es s Hrun.
  pose proof (Inv_run w es _ _ Hrun (Inv_initial t0)) as Hinv.
  assert (H0 : allPlayers (fun _ => bodyOK) (players (initial t0))) by constructor.
  pose proof (bodyOK_run w es _ _ Hrun H0) as Hbody.
  unfold Inv in Hinv. unfold allPlayers in Hbody.
  rewrite Forall_forall in Hinv, Hbody.
  split; [| split; [| split]].
  - unfold snapshot, okeys, ovalues; cbn [gs_players]. rewrite !map_map.
    apply map_ext_in. intros [k p] Hin. destruct (Hinv _ Hin) as [Hid _].
    exact Hid.
  - intros k p Hin. destruct (Hinv _ Hin) as [Hid Hh]. cbn in Hid, Hh.
    pose proof (Hbody _ Hin) as Hb. cbn in Hb.
    split; [| split; [exact Hid | split; [now apply playerState_fields | split]]].
    + unfold snapshot, ovalues; cbn [gs_players]. rewrite map_map.
      apply in_map_iff. exists (k, p). now split.
    + rewrite (playerState_fields p Hb). unfold vec3; cbn [Vector3.y].
      destruct Hb as (_ & _ & _ & _ & Hy). lra.
    + exact Hh.
  - assert (Hb0 : bulletIdsOK (initial t0)).
    { exists []. repeat split; constructor. }
    destruct (bulletIdsOK_run w es _ _ Hrun Hb0) as (ns & Hm & Hnd & _).
    unfold snapshot; cbn [gs_bullets]. rewrite map_map. cbn [fst].
    change (map (fun x : Bullet.t => Bullet.id x) (bullets s))
      with (map Bullet.id (bullets s)).
    rewrite Hm. apply NoDup_map_injective; [| exact Hnd].
    intros a b. apply bulletName_inj.
  - unfold snapshot; cbn [gs_medkits]. rewrite length_map.
    apply (medkits_run w es (initial t0) s Hrun).
    split; [cbn; unfold MEDKIT_MAX; lia | constructor].
Qed.

Lemma X22_update_message_witness :
  exists s,
    run unbuiltWorld [Connect "player_a"; Receive "player_a" Shoot 5; Tick 17]
        (initial 0) = Returns s
    /\ NoDup (map fst (gs_bullets (snapshot s)))
    /\ (List.length (gs_medkits (snapshot s)) <= 10)%nat.
Proof.
  destruct (run_returns unbuiltWorld
              [Connect "player_a"; Receive "player_a" Shoot 5%Z; Tick 17%Z]
              (initial 0%Z) (proj1 unbuiltWorld_sound) (proj2 unbuiltWorld_sound))
    as [s Hs].
  exists s. split; [exact Hs |].
  exact (proj2 (proj2 (X22_update_message unbuiltWorld 0%Z _ s Hs))).
Defined.

(** ** Vertical motion *)

(** X23.  The vertical velocity a player is moved with.  The movement keys,
    the damping and the speed clamp never touch it.  In the air it loses
    [GRAVITY * deltaTime] and Space does nothing (no jump in the air); on
    the floor it is [JUMP_VELOCITY] when Space is pressed and unchanged
    otherwise. *)
Theorem X23_vertical_velocity :
  forall (p : Player.t) (dt : R),
    Vector3.y (integrateVelocity p dt)
    = if Player.onFloor p
      then (if Player.input p "Space" then JUMP_VELOCITY
            else Vector3.y (Player.velocity p))
      else Vector3.y (Player.velocity p) - GRAVITY * dt.
Proof. exact integrateVelocity_vertical. Qed.
